(** * Level Zero driver of PoCL: command execution and queue scheduling

    A shallow embedding of the queue worker, event pool, queue group and
    device dispatch code of [lib/CL/devices/level0/level0-driver.cc],
    together with the properties of the design document that can be settled
    on it.

    Conventions of the embedding.
    - Native handles ([ze_event_pool_handle_t], [ze_command_list_handle_t])
      are natural numbers handed out by a counter that stands for the
      Level Zero driver; a native event handle is the pair of its pool
      handle and its index in the pool ([zeEventCreate] is called once per
      pool and index).
    - [size_t] values and addresses are integers in [Z]; pointer and
      [uint32_t] arithmetic has its wrap-around written out.
    - Every call of the code into the Level Zero API on a command list or a
      command queue, every residency call and every update of a [cl_event]
      is recorded, in program order, in a log kept in the state.
    - A process abort ([POCL_ABORT], [LEVEL0_CHECK_ABORT] with a failing
      status, a failing [assert], undefined behaviour) is the result
      [None] of the state-and-error monad [M]. *)

From stdpp Require Import prelude strings gmap.

Set Default Proof Using "Type".

(** ** Integers and addresses *)

Definition wrap32 (z : Z) : Z := z `mod` 2 ^ 32.
Definition wrap64 (z : Z) : Z := z `mod` 2 ^ 64.
Definition UINT32_MAX : Z := 2 ^ 32 - 1.

(** [char *] arithmetic: address plus byte offset, modulo the address space. *)
Definition ptr_add (p off : Z) : Z := wrap64 (p + off).

(** The null pointer. *)
Definition nullptr : Z := 0.

(** ** Native event handles and event pools *)

Definition ze_event_pool_handle_t := nat.
Definition ze_event_handle_t : Type := ze_event_pool_handle_t * nat.

Record Level0EventPool := mkPool {
  EvtPoolH : ze_event_pool_handle_t;
  AvailableEvents : list ze_event_handle_t;
  LastIdx : nat
}.

(** [Level0EventPool::Level0EventPool]: [AvailableEvents[Idx]] is the event
    created in [EvtPoolH] at index [Idx], for [Idx < EvtPoolSize]. *)
Definition Level0EventPool_new (H : ze_event_pool_handle_t)
    (EvtPoolSize : nat) : Level0EventPool :=
  {| EvtPoolH := H;
     AvailableEvents := (λ Idx, (H, Idx)) <$> seq 0 EvtPoolSize;
     LastIdx := 0 |}.

(** [Level0EventPool::getEvent]. *)
Definition getEvent (P : Level0EventPool)
    : option ze_event_handle_t * Level0EventPool :=
  if bool_decide (length (AvailableEvents P) ≤ LastIdx P) then (None, P)
  else (AvailableEvents P !! LastIdx P,
        {| EvtPoolH := EvtPoolH P;
           AvailableEvents := AvailableEvents P;
           LastIdx := S (LastIdx P) |}).

(** Modelled from the spec: [Level0EventPool::isEmpty] is declared in the
    header [level0-driver.hh]; a pool is empty when none of its handles is
    available any more, the condition under which [getEvent] returns null. *)
Definition isEmpty (P : Level0EventPool) : bool :=
  bool_decide (length (AvailableEvents P) ≤ LastIdx P).

(** The part of [Level0Device] that owns the pools.  [NextPoolH] is the
    next pool handle [zeEventPoolCreate] returns. *)
Record EventPoolSet := mkPools {
  EventPools : list Level0EventPool;
  NextPoolH : ze_event_pool_handle_t
}.

(** [EventPools.emplace_front(this, EventPoolSize)].  [EventPoolSize] is a
    constant of the header [level0-driver.hh], which is not part of the
    sources at hand: it is a parameter here. *)
Definition emplace_front (EventPoolSize : nat) (D : EventPoolSet)
    : EventPoolSet :=
  {| EventPools :=
       Level0EventPool_new (NextPoolH D) EventPoolSize :: EventPools D;
     NextPoolH := S (NextPoolH D) |}.

(** [Level0Device::getNewEvent].  [EventPools.front()] of an empty list is
    undefined behaviour, and so is the assertion of the pool constructor
    that fails for a pool size of zero. *)
Definition getNewEvent (EventPoolSize : nat) (D : EventPoolSet)
    : option (option ze_event_handle_t * EventPoolSet) :=
  match EventPools D with
  | [] => None
  | Front :: _ =>
      if isEmpty Front && bool_decide (EventPoolSize = 0) then None
      else
        let D1 := if isEmpty Front then emplace_front EventPoolSize D else D in
        match EventPools D1 with
        | [] => None
        | F :: Rest =>
            let '(E, F') := getEvent F in
            Some (E, {| EventPools := F' :: Rest; NextPoolH := NextPoolH D1 |})
        end
  end.

(** The device after [n] calls of [getNewEvent], with the handles it
    returned, oldest first. *)
Fixpoint getNewEvents (EventPoolSize n : nat) (D : EventPoolSet)
    : option (list (option ze_event_handle_t) * EventPoolSet) :=
  match n with
  | 0 => Some ([], D)
  | S n =>
      match getNewEvent EventPoolSize D with
      | None => None
      | Some (E, D1) =>
          match getNewEvents EventPoolSize n D1 with
          | None => None
          | Some (Es, D2) => Some (E :: Es, D2)
          end
      end
  end.

(** A pool as its constructor builds it and [getEvent] advances it. *)
Definition pool_wf (P : Level0EventPool) : Prop :=
  ∃ n, 0 < n ∧ AvailableEvents P = (λ Idx, (EvtPoolH P, Idx)) <$> seq 0 n
       ∧ LastIdx P ≤ n.

(** The pools of a device: built by the constructor, with pairwise distinct
    native pool handles, all handed out by the driver already. *)
Definition pools_wf (D : EventPoolSet) : Prop :=
  EventPools D ≠ [] ∧ Forall pool_wf (EventPools D)
  ∧ NoDup (EvtPoolH <$> EventPools D)
  ∧ Forall (λ P, EvtPoolH P < NextPoolH D) (EventPools D).

(** The handles the pools have handed out so far. *)
Definition issued (D : EventPoolSet) (E : ze_event_handle_t) : Prop :=
  ∃ P, P ∈ EventPools D ∧ EvtPoolH P = E.1 ∧ E.2 < LastIdx P.

(** ** OpenCL objects the worker reads *)

(** Bits of [cl_mem_flags] and [cl_map_flags], from [CL/cl.h]. *)
Definition CL_MEM_READ_ONLY : Z := 4.
Definition CL_MEM_USE_HOST_PTR : Z := 8.
Definition CL_MEM_HOST_NO_ACCESS : Z := 512.
Definition CL_MAP_READ : Z := 1.
Definition CL_MAP_WRITE : Z := 2.
Definition CL_MAP_WRITE_INVALIDATE_REGION : Z := 4.

(** [(Flags & Bit) != 0]. *)
Definition has_flag (Flags Bit : Z) : bool :=
  negb (Z.land Flags Bit =? 0)%Z.

(** [size_t X[3]]. *)
Definition size3 : Type := Z * Z * Z.

Record pocl_mem_identifier := {
  mem_ptr : Z;
  extra_ptr : Z
}.

(** [struct _cl_mem], with the fields the worker reads.  [device_ptrs] is
    the entry [device_ptrs[dev->global_mem_id]] of the device at hand, and
    [IS_IMAGE1D_BUFFER] the value of the macro of that name on the object. *)
Record cl_mem := {
  flags : Z;
  mem_host_ptr : Z;
  mem_size : Z;
  is_image : bool;
  IS_IMAGE1D_BUFFER : bool;
  image_width : Z;
  image_height : Z;
  image_depth : Z;
  image_elem_size : Z;
  image_channels : Z;
  image_channel_data_type : Z;
  image_channel_order : Z;
  image_type : Z;
  device_ptrs : pocl_mem_identifier
}.

Record mem_mapping_t := {
  map_flags : Z;
  host_ptr : Z;
  map_offset : Z;
  map_size : Z;
  map_origin : size3;
  map_region : size3;
  map_row_pitch : Z;
  map_slice_pitch : Z
}.

Inductive cl_command_type :=
  | CL_COMMAND_NDRANGE_KERNEL | CL_COMMAND_TASK | CL_COMMAND_NATIVE_KERNEL
  | CL_COMMAND_READ_BUFFER | CL_COMMAND_WRITE_BUFFER | CL_COMMAND_COPY_BUFFER
  | CL_COMMAND_READ_IMAGE | CL_COMMAND_WRITE_IMAGE | CL_COMMAND_COPY_IMAGE
  | CL_COMMAND_COPY_IMAGE_TO_BUFFER | CL_COMMAND_COPY_BUFFER_TO_IMAGE
  | CL_COMMAND_MAP_BUFFER | CL_COMMAND_MAP_IMAGE | CL_COMMAND_UNMAP_MEM_OBJECT
  | CL_COMMAND_MARKER | CL_COMMAND_READ_BUFFER_RECT
  | CL_COMMAND_WRITE_BUFFER_RECT | CL_COMMAND_COPY_BUFFER_RECT
  | CL_COMMAND_BARRIER | CL_COMMAND_MIGRATE_MEM_OBJECTS
  | CL_COMMAND_FILL_BUFFER | CL_COMMAND_FILL_IMAGE
  | CL_COMMAND_SVM_FREE | CL_COMMAND_SVM_MEMCPY | CL_COMMAND_SVM_MEMFILL
  | CL_COMMAND_SVM_MAP | CL_COMMAND_SVM_UNMAP | CL_COMMAND_SVM_MIGRATE_MEM
  | CL_COMMAND_MEMFILL_INTEL | CL_COMMAND_MEMCPY_INTEL
  | CL_COMMAND_MIGRATEMEM_INTEL | CL_COMMAND_MEMADVISE_INTEL
  | CL_COMMAND_COMMAND_BUFFER_KHR.

Global Instance cl_command_type_eq_dec : EqDecision cl_command_type.
Proof. solve_decision. Defined.

Inductive migrate_type :=
  | ENQUEUE_MIGRATE_TYPE_NOP | ENQUEUE_MIGRATE_TYPE_D2H
  | ENQUEUE_MIGRATE_TYPE_H2D | ENQUEUE_MIGRATE_TYPE_D2D.

(** One kernel argument as [setupKernelArgs] and [runBuiltinKernel]
    distinguish them: a local buffer, a pointer (null, raw, or a [cl_mem]
    with its read-only mark), an image, a sampler, or plain data. *)
Inductive pocl_argument :=
  | ArgLocal (size : Z)
  | ArgPointerNull
  | ArgPointerRaw (MemPtr : Z)
  | ArgPointerBuf (arg_buf : cl_mem) (is_readonly : bool)
  | ArgImage (arg_buf : cl_mem)
  | ArgSampler
  | ArgPOD (size : Z).

(** [struct pocl_context]. *)
Record pocl_context := {
  num_groups : size3;
  local_size : size3;
  global_offset : size3
}.

(** [cl_kernel] with its program and its [Level0Kernel]: the number of
    built-in kernels of the program, the pointers the kernel accesses
    indirectly, with their sizes, in the order of the [std::map], and the
    graph handle of a built-in kernel. *)
Record cl_kernel := {
  kernel_id : nat;
  num_builtin_kernels : nat;
  AccessedPointers : list (Z * Z);
  GraphH : nat
}.

(** [_cl_command_t]: the member of the union each command reads. *)
Inductive _cl_command_t :=
  | cmd_read (dst_host_ptr : Z) (src : cl_mem) (offset size : Z)
  | cmd_write (src_host_ptr : Z) (dst : cl_mem) (offset size : Z)
  | cmd_copy (dst src : cl_mem) (dst_offset src_offset size : Z)
  | cmd_memfill (dst : cl_mem) (size offset pattern_size : Z)
  | cmd_read_rect (dst_host_ptr : Z) (src : cl_mem)
      (buffer_origin host_origin region : size3)
      (buffer_row_pitch buffer_slice_pitch host_row_pitch host_slice_pitch : Z)
  | cmd_copy_rect (dst src : cl_mem) (dst_origin src_origin region : size3)
      (dst_row_pitch dst_slice_pitch src_row_pitch src_slice_pitch : Z)
  | cmd_write_rect (src_host_ptr : Z) (dst : cl_mem)
      (buffer_origin host_origin region : size3)
      (buffer_row_pitch buffer_slice_pitch host_row_pitch host_slice_pitch : Z)
  | cmd_migrate (type : migrate_type)
  | cmd_map (buffer : cl_mem) (mapping : mem_mapping_t)
  | cmd_unmap (buffer : cl_mem) (mapping : mem_mapping_t)
  | cmd_read_image (src : cl_mem) (dst_host_ptr : Z) (dst : option cl_mem)
      (origin region : size3) (dst_row_pitch dst_slice_pitch dst_offset : Z)
  | cmd_write_image (dst : cl_mem) (src_host_ptr : Z) (src : option cl_mem)
      (origin region : size3) (src_row_pitch src_slice_pitch src_offset : Z)
  | cmd_copy_image (src dst : cl_mem) (src_origin dst_origin region : size3)
  | cmd_fill_image (dst : cl_mem) (origin region : size3)
  | cmd_run (kernel : cl_kernel) (pc : pocl_context)
      (arguments : list pocl_argument)
  | cmd_svm_free (pfn_free_func : bool) (svm_pointers : list Z)
  | cmd_svm_map (svm_ptr : Z)
  | cmd_svm_unmap (svm_ptr : Z)
  | cmd_svm_memcpy (dst src size : Z)
  | cmd_svm_fill (svm_ptr size pattern_size : Z)
  | cmd_svm_migrate (svm_pointers : list (Z * Z))
  | cmd_mem_advise (ptr size advice : Z)
  | cmd_none.

(** [_cl_command_node], without its event: [migr_infos] is the list of the
    buffers of the migration infos, in list order. *)
Record _cl_command_node := {
  type : cl_command_type;
  command : _cl_command_t;
  migr_infos : list cl_mem
}.

(** [cl_command_buffer_khr]: the recorded commands, in recording order.
    The per-device slots [data[dev_id]] are mutable and live in the state. *)
Record cl_command_buffer_khr := {
  cmdbuf_id : nat;
  cmds : list _cl_command_node
}.

(** [cl_event] together with its node: for an event [E] in a work queue,
    [node E] is [E->command], [E] is [E->command->sync.event.event] and
    [E->command_type] is [E->command->type]. *)
Record cl_event := {
  event_id : nat;
  node : _cl_command_node;
  command_buffer : option cl_command_buffer_khr
}.

Definition BatchType := list cl_event.

(** ** The Level Zero interface as the worker uses it *)

Definition ze_command_list_handle_t := nat.
Definition ze_command_queue_handle_t := nat.

(** [ze_copy_region_t] and [ze_image_region_t]; the fields are [uint32_t]. *)
Record ze_copy_region_t := {
  originX : Z; originY : Z; originZ : Z;
  width : Z; height : Z; depth : Z
}.

(** The region the code fills in from an origin and an extent. *)
Definition ze_region (Origin Region : size3) : ze_copy_region_t :=
  {| originX := wrap32 Origin.1.1; originY := wrap32 Origin.1.2;
     originZ := wrap32 Origin.2;
     width := wrap32 Region.1.1; height := wrap32 Region.1.2;
     depth := wrap32 Region.2 |}.

Inductive ze_memory_advice_t :=
  | ZE_MEMORY_ADVICE_SET_READ_MOSTLY
  | ZE_MEMORY_ADVICE_CLEAR_READ_MOSTLY
  | ZE_MEMORY_ADVICE_BIAS_UNCACHED.

(** The kernel handle the device returns: for the fill kernel of a
    pattern size, for the image fill kernel of a name, or the best build
    of a user kernel. *)
Inductive ze_kernel_handle_t :=
  | MemfillKernel (PatternSize : Z)
  | ImagefillKernel (KernelName : string)
  | BestKernel (Kernel : nat) (Needs64bitPtrs : bool) (TotalLocalWGSize : Z).

(** The operations the worker appends to a command list. *)
Inductive ze_command :=
  | MemoryCopy (Dst Src Size : Z)
  | MemoryCopyRegion (Dst : Z) (DstRegion : ze_copy_region_t)
      (DstPitch DstSlicePitch : Z) (Src : Z) (SrcRegion : ze_copy_region_t)
      (SrcPitch SrcSlicePitch : Z)
  | LaunchKernel (KernelH : ze_kernel_handle_t) (LaunchFuncArgs : size3)
  | ImageCopyRegion (DstImg SrcImg : Z) (DstRegion SrcRegion : ze_copy_region_t)
  | ImageCopyFromMemory (DstImg Src : Z) (Region : ze_copy_region_t)
  | ImageCopyToMemory (Dst SrcImg : Z) (Region : ze_copy_region_t)
  | MemoryPrefetch (Ptr Size : Z)
  | MemAdvise (Ptr Size : Z) (Advice : ze_memory_advice_t)
  | GraphInitialize (Graph : nat)
  | GraphExecute (Graph : nat)
  | Barrier
  | EventReset (E : ze_event_handle_t).

(** One entry of the log: a call of [zeCommandListAppend...] on list [L]
    with its signal event and its wait event (the wait lists of the code
    have zero or one entry), another call into Level Zero, an update of
    a [cl_event], or a call into the rest of PoCL. *)
Inductive call :=
  | zeCommandListAppend (L : ze_command_list_handle_t) (C : ze_command)
      (hSignalEvent phWaitEvents : option ze_event_handle_t)
  | zeCommandListCreate (L : ze_command_list_handle_t)
  | zeCommandListClose (L : ze_command_list_handle_t)
  | zeCommandListReset (L : ze_command_list_handle_t)
  | zeCommandListDestroy (L : ze_command_list_handle_t)
  | zeCommandListHostSynchronize (L : ze_command_list_handle_t)
  | zeCommandQueueExecuteCommandLists (Q : ze_command_queue_handle_t)
      (L : ze_command_list_handle_t)
  | zeCommandQueueSynchronize (Q : ze_command_queue_handle_t)
  | zeContextMakeMemoryResident (Ptr Size : Z)
  | pocl_update_event_submitted (E : nat)
  | pocl_update_event_running (E : nat)
  | POCL_UPDATE_EVENT_COMPLETE_MSG (E : nat) (Msg : string)
  | pocl_exec_command (E : nat)
  | ops_migrate_d2d (Mem : cl_mem)
  | pfn_free_func (svm_pointers : list Z)
  | clSVMFree (Ptr : Z).

(** [Level0CmdBufferData]. *)
Record Level0CmdBufferData := {
  CB_CmdListH : option ze_command_list_handle_t;
  CB_Events : list ze_event_handle_t;
  CB_MemPtrsToMakeResident : list (Z * Z)
}.

(** What the worker asks its [Level0Device], and the build options and
    constants of the header: both are fixed for the life of the device.
    The last two fields say whether [initHelperKernels] has created the
    kernels of [MemfillKernels] and those of [ImagefillKernels]: the
    constructor runs it only with a compiler, and it stops at the first
    program that does not build. *)
Record Level0DeviceInfo := {
  prefersZeQueues : bool;
  prefersHostQueues : bool;
  supportsCmdQBatching : bool;
  supportsGlobalOffsets : bool;
  getMaxWGSize : Z;
  dev_id : nat;
  can_migrate_d2d : bool;
  ENABLE_NPU : bool;
  EventPoolSize : nat;
  hasMemfillKernels : bool;
  hasImagefillKernels : bool
}.

(** ** State of a worker and of what it acts on

    The fields of [Level0Queue] come first; then the pools of its device,
    the next list handle [zeCommandListCreate] returns and whether that
    call succeeds, the slots [CmdBuf->data[dev_id]] of the command buffers
    (keyed by command buffer and device), and the log. *)
Record State := {
  Device : Level0DeviceInfo;
  QueueH : option ze_command_queue_handle_t;
  CmdListH : option ze_command_list_handle_t;
  CurrentEventH : option ze_event_handle_t;
  PreviousEventH : option ze_event_handle_t;
  AvailableDeviceEvents : list ze_event_handle_t;
  DeviceEventsToReset : list ze_event_handle_t;
  UseMemHostPtrsToSync : list (Z * Z * Z);
  MemPtrsToMakeResident : list (Z * Z);
  Pools : EventPoolSet;
  NextCmdListH : ze_command_list_handle_t;
  ListCreateFails : bool;
  CmdBufData : gmap (nat * nat) Level0CmdBufferData;
  Log : list call
}.

(** Assignments to one field. *)
Definition set_CmdListH (v : option ze_command_list_handle_t) (s : State) : State :=
  {| Device := Device s;
     QueueH := QueueH s;
     CmdListH := v;
     CurrentEventH := CurrentEventH s;
     PreviousEventH := PreviousEventH s;
     AvailableDeviceEvents := AvailableDeviceEvents s;
     DeviceEventsToReset := DeviceEventsToReset s;
     UseMemHostPtrsToSync := UseMemHostPtrsToSync s;
     MemPtrsToMakeResident := MemPtrsToMakeResident s;
     Pools := Pools s;
     NextCmdListH := NextCmdListH s;
     ListCreateFails := ListCreateFails s;
     CmdBufData := CmdBufData s;
     Log := Log s |}.
Definition set_CurrentEventH (v : option ze_event_handle_t) (s : State) : State :=
  {| Device := Device s;
     QueueH := QueueH s;
     CmdListH := CmdListH s;
     CurrentEventH := v;
     PreviousEventH := PreviousEventH s;
     AvailableDeviceEvents := AvailableDeviceEvents s;
     DeviceEventsToReset := DeviceEventsToReset s;
     UseMemHostPtrsToSync := UseMemHostPtrsToSync s;
     MemPtrsToMakeResident := MemPtrsToMakeResident s;
     Pools := Pools s;
     NextCmdListH := NextCmdListH s;
     ListCreateFails := ListCreateFails s;
     CmdBufData := CmdBufData s;
     Log := Log s |}.
Definition set_PreviousEventH (v : option ze_event_handle_t) (s : State) : State :=
  {| Device := Device s;
     QueueH := QueueH s;
     CmdListH := CmdListH s;
     CurrentEventH := CurrentEventH s;
     PreviousEventH := v;
     AvailableDeviceEvents := AvailableDeviceEvents s;
     DeviceEventsToReset := DeviceEventsToReset s;
     UseMemHostPtrsToSync := UseMemHostPtrsToSync s;
     MemPtrsToMakeResident := MemPtrsToMakeResident s;
     Pools := Pools s;
     NextCmdListH := NextCmdListH s;
     ListCreateFails := ListCreateFails s;
     CmdBufData := CmdBufData s;
     Log := Log s |}.
Definition set_AvailableDeviceEvents (v : list ze_event_handle_t) (s : State) : State :=
  {| Device := Device s;
     QueueH := QueueH s;
     CmdListH := CmdListH s;
     CurrentEventH := CurrentEventH s;
     PreviousEventH := PreviousEventH s;
     AvailableDeviceEvents := v;
     DeviceEventsToReset := DeviceEventsToReset s;
     UseMemHostPtrsToSync := UseMemHostPtrsToSync s;
     MemPtrsToMakeResident := MemPtrsToMakeResident s;
     Pools := Pools s;
     NextCmdListH := NextCmdListH s;
     ListCreateFails := ListCreateFails s;
     CmdBufData := CmdBufData s;
     Log := Log s |}.
Definition set_DeviceEventsToReset (v : list ze_event_handle_t) (s : State) : State :=
  {| Device := Device s;
     QueueH := QueueH s;
     CmdListH := CmdListH s;
     CurrentEventH := CurrentEventH s;
     PreviousEventH := PreviousEventH s;
     AvailableDeviceEvents := AvailableDeviceEvents s;
     DeviceEventsToReset := v;
     UseMemHostPtrsToSync := UseMemHostPtrsToSync s;
     MemPtrsToMakeResident := MemPtrsToMakeResident s;
     Pools := Pools s;
     NextCmdListH := NextCmdListH s;
     ListCreateFails := ListCreateFails s;
     CmdBufData := CmdBufData s;
     Log := Log s |}.
Definition set_UseMemHostPtrsToSync (v : list (Z * Z * Z)) (s : State) : State :=
  {| Device := Device s;
     QueueH := QueueH s;
     CmdListH := CmdListH s;
     CurrentEventH := CurrentEventH s;
     PreviousEventH := PreviousEventH s;
     AvailableDeviceEvents := AvailableDeviceEvents s;
     DeviceEventsToReset := DeviceEventsToReset s;
     UseMemHostPtrsToSync := v;
     MemPtrsToMakeResident := MemPtrsToMakeResident s;
     Pools := Pools s;
     NextCmdListH := NextCmdListH s;
     ListCreateFails := ListCreateFails s;
     CmdBufData := CmdBufData s;
     Log := Log s |}.
Definition set_MemPtrsToMakeResident (v : list (Z * Z)) (s : State) : State :=
  {| Device := Device s;
     QueueH := QueueH s;
     CmdListH := CmdListH s;
     CurrentEventH := CurrentEventH s;
     PreviousEventH := PreviousEventH s;
     AvailableDeviceEvents := AvailableDeviceEvents s;
     DeviceEventsToReset := DeviceEventsToReset s;
     UseMemHostPtrsToSync := UseMemHostPtrsToSync s;
     MemPtrsToMakeResident := v;
     Pools := Pools s;
     NextCmdListH := NextCmdListH s;
     ListCreateFails := ListCreateFails s;
     CmdBufData := CmdBufData s;
     Log := Log s |}.
Definition set_Pools (v : EventPoolSet) (s : State) : State :=
  {| Device := Device s;
     QueueH := QueueH s;
     CmdListH := CmdListH s;
     CurrentEventH := CurrentEventH s;
     PreviousEventH := PreviousEventH s;
     AvailableDeviceEvents := AvailableDeviceEvents s;
     DeviceEventsToReset := DeviceEventsToReset s;
     UseMemHostPtrsToSync := UseMemHostPtrsToSync s;
     MemPtrsToMakeResident := MemPtrsToMakeResident s;
     Pools := v;
     NextCmdListH := NextCmdListH s;
     ListCreateFails := ListCreateFails s;
     CmdBufData := CmdBufData s;
     Log := Log s |}.
Definition set_NextCmdListH (v : ze_command_list_handle_t) (s : State) : State :=
  {| Device := Device s;
     QueueH := QueueH s;
     CmdListH := CmdListH s;
     CurrentEventH := CurrentEventH s;
     PreviousEventH := PreviousEventH s;
     AvailableDeviceEvents := AvailableDeviceEvents s;
     DeviceEventsToReset := DeviceEventsToReset s;
     UseMemHostPtrsToSync := UseMemHostPtrsToSync s;
     MemPtrsToMakeResident := MemPtrsToMakeResident s;
     Pools := Pools s;
     NextCmdListH := v;
     ListCreateFails := ListCreateFails s;
     CmdBufData := CmdBufData s;
     Log := Log s |}.
Definition set_CmdBufData (v : gmap (nat * nat) Level0CmdBufferData) (s : State) : State :=
  {| Device := Device s;
     QueueH := QueueH s;
     CmdListH := CmdListH s;
     CurrentEventH := CurrentEventH s;
     PreviousEventH := PreviousEventH s;
     AvailableDeviceEvents := AvailableDeviceEvents s;
     DeviceEventsToReset := DeviceEventsToReset s;
     UseMemHostPtrsToSync := UseMemHostPtrsToSync s;
     MemPtrsToMakeResident := MemPtrsToMakeResident s;
     Pools := Pools s;
     NextCmdListH := NextCmdListH s;
     ListCreateFails := ListCreateFails s;
     CmdBufData := v;
     Log := Log s |}.
Definition set_Log (v : list call) (s : State) : State :=
  {| Device := Device s;
     QueueH := QueueH s;
     CmdListH := CmdListH s;
     CurrentEventH := CurrentEventH s;
     PreviousEventH := PreviousEventH s;
     AvailableDeviceEvents := AvailableDeviceEvents s;
     DeviceEventsToReset := DeviceEventsToReset s;
     UseMemHostPtrsToSync := UseMemHostPtrsToSync s;
     MemPtrsToMakeResident := MemPtrsToMakeResident s;
     Pools := Pools s;
     NextCmdListH := NextCmdListH s;
     ListCreateFails := ListCreateFails s;
     CmdBufData := CmdBufData s;
     Log := v |}.

(** ** The state-and-error monad of the worker *)

Definition M (A : Type) : Type := State → option (A * State).

Global Instance M_ret : MRet M := λ A a s, Some (a, s).
Global Instance M_bind : MBind M := λ A B f m s,
  match m s with
  | Some (a, s') => f a s'
  | None => None
  end.

(** [POCL_ABORT], and every other way for the process to end. *)
Definition abort {A} : M A := λ _, None.
Definition get : M State := λ s, Some (s, s).
Definition modify (f : State → State) : M unit := λ s, Some (tt, f s).
Definition assert (b : bool) : M unit := if b then mret tt else abort.
Definition record (c : call) : M unit :=
  modify (λ s, set_Log (Log s ++ [c]) s).

Fixpoint for_each {A} (l : list A) (f : A → M unit) : M unit :=
  match l with
  | [] => mret tt
  | x :: l => f x ;; for_each l f
  end.

(** [std::map]: an association list sorted by key.  [map_emplace] is
    [emplace] (an entry under the key stays as it is) and [map_assign] is
    [operator[]] followed by an assignment. *)
Fixpoint map_emplace {K V} (lt : K → K → bool) (k : K) (v : V)
    (m : list (K * V)) : list (K * V) :=
  match m with
  | [] => [(k, v)]
  | (k', v') :: m' =>
      if lt k k' then (k, v) :: m
      else if lt k' k then (k', v') :: map_emplace lt k v m'
      else m
  end.

Fixpoint map_assign {K V} (lt : K → K → bool) (k : K) (v : V)
    (m : list (K * V)) : list (K * V) :=
  match m with
  | [] => [(k, v)]
  | (k', v') :: m' =>
      if lt k k' then (k, v) :: m
      else if lt k' k then (k', v') :: map_assign lt k v m'
      else (k, v) :: m'
  end.

(** The order of [std::pair<char *, char *>]. *)
Definition pair_lt (a b : Z * Z) : bool :=
  (a.1 <? b.1)%Z || ((a.1 =? b.1)%Z && (a.2 <? b.2)%Z).

(** ** Building a command list *)

(** A call [zeCommandListAppend...(CmdListH, ..., Signal, Wait)]. *)
Definition append (C : ze_command)
    (hSignalEvent phWaitEvents : option ze_event_handle_t) : M unit :=
  s ← get;
  match CmdListH s with
  | None => abort
  | Some L => record (zeCommandListAppend L C hSignalEvent phWaitEvents)
  end.

(** The arguments [CurrentEventH, PreviousEventH ? 1 : 0,
    PreviousEventH ? &PreviousEventH : nullptr] of an append. *)
Definition append_chained (C : ze_command) : M unit :=
  s ← get; append C (CurrentEventH s) (PreviousEventH s).

(** [Device->getNewEvent()], on the pools of the device. *)
Definition Device_getNewEvent : M ze_event_handle_t :=
  s ← get;
  match getNewEvent (EventPoolSize (Device s)) (Pools s) with
  | Some (Some E, D) => modify (set_Pools D) ;; mret E
  | _ => abort
  end.

(** [Level0Queue::allocNextFreeEvent]. *)
Definition allocNextFreeEvent : M unit :=
  s ← get;
  modify (set_PreviousEventH (CurrentEventH s)) ;;
  match AvailableDeviceEvents s with
  | [] =>
      E ← Device_getNewEvent;
      modify (set_CurrentEventH (Some E)) ;;
      modify (λ s, set_DeviceEventsToReset (DeviceEventsToReset s ++ [E]) s)
  | E :: Rest =>
      modify (set_CurrentEventH (Some E)) ;;
      modify (set_AvailableDeviceEvents Rest) ;;
      modify (λ s, set_DeviceEventsToReset (DeviceEventsToReset s ++ [E]) s)
  end.

(** [Level0Queue::reset]. *)
Definition reset : M unit :=
  s ← get;
  match CmdListH s with
  | None => abort
  | Some L =>
      match QueueH s with
      | Some _ => record (zeCommandListReset L)
      | None => mret tt
      end ;;
      modify (set_CurrentEventH None) ;;
      modify (set_PreviousEventH None) ;;
      s ← get;
      assert (bool_decide (DeviceEventsToReset s = [])) ;;
      modify (set_UseMemHostPtrsToSync []) ;;
      modify (set_MemPtrsToMakeResident [])
  end.

(** The loop of [closeCmdList] over [DeviceEventsToReset], front first. *)
Fixpoint closeCmdList_loop (ToReset : list ze_event_handle_t)
    (EvtList : option (list ze_event_handle_t))
    : M (option (list ze_event_handle_t)) :=
  match ToReset with
  | [] => mret EvtList
  | E :: Rest =>
      modify (set_DeviceEventsToReset Rest) ;;
      append (EventReset E) None None ;;
      match EvtList with
      | Some Evts => closeCmdList_loop Rest (Some (Evts ++ [E]))
      | None =>
          modify (λ s,
            set_AvailableDeviceEvents (AvailableDeviceEvents s ++ [E]) s) ;;
          closeCmdList_loop Rest None
      end
  end.

(** [Level0Queue::closeCmdList]: [EvtList] is the queue the caller passes,
    if any, and the result is that queue afterwards. *)
Definition closeCmdList (EvtList : option (list ze_event_handle_t))
    : M (option (list ze_event_handle_t)) :=
  s ← get;
  append Barrier None (CurrentEventH s) ;;
  Evts ← closeCmdList_loop (DeviceEventsToReset s) EvtList;
  match QueueH s, CmdListH s with
  | Some _, Some L => record (zeCommandListClose L) ;; mret Evts
  | Some _, None => abort
  | None, _ => mret Evts
  end.

(** [Level0Queue::makeMemResident]. *)
Definition makeMemResident : M unit :=
  s ← get;
  for_each (MemPtrsToMakeResident s) (λ I,
    assert (negb (I.1 =? nullptr)%Z) ;;
    record (zeContextMakeMemoryResident I.1 I.2)) ;;
  modify (set_MemPtrsToMakeResident []).

(** [Level0Queue::syncMemHostPtrs]. *)
Definition syncMemHostPtrs : M unit :=
  s ← get;
  for_each (UseMemHostPtrsToSync s) (λ I,
    let MemHostPtr := I.1.1 in
    let DevPtr := I.1.2 in
    let Size := I.2 in
    assert (negb (MemHostPtr =? nullptr)%Z) ;;
    assert (negb (DevPtr =? nullptr)%Z) ;;
    allocNextFreeEvent ;;
    append_chained (MemoryCopy MemHostPtr DevPtr Size)) ;;
  modify (set_UseMemHostPtrsToSync []).

(** [Level0Queue::syncUseMemHostPtr], the overload with offset and size. *)
Definition syncUseMemHostPtr (MemId : pocl_mem_identifier) (Mem : cl_mem)
    (Offset Size : Z) : M unit :=
  if negb (has_flag (flags Mem) CL_MEM_USE_HOST_PTR) then mret tt
  else
    let DevPtr := mem_ptr MemId in
    let MemHostPtr := mem_host_ptr Mem in
    if (MemHostPtr =? DevPtr)%Z then mret tt
    else
      let Key := (ptr_add MemHostPtr Offset, ptr_add DevPtr Offset) in
      modify (λ s,
        set_UseMemHostPtrsToSync
          (map_emplace pair_lt Key Size (UseMemHostPtrsToSync s)) s).

(** [Level0Queue::syncUseMemHostPtr], the overload with origin and region. *)
Definition syncUseMemHostPtr_rect (MemId : pocl_mem_identifier) (Mem : cl_mem)
    (Origin Region : size3) (RowPitch SlicePitch : Z) : M unit :=
  if negb (has_flag (flags Mem) CL_MEM_USE_HOST_PTR) then mret tt
  else
    let DevPtr := mem_ptr MemId in
    let MemHostPtr := mem_host_ptr Mem in
    if (DevPtr =? MemHostPtr)%Z then mret tt
    else
      let ZeRegion := ze_region Origin Region in
      append (MemoryCopyRegion MemHostPtr ZeRegion (wrap32 RowPitch)
                (wrap32 SlicePitch) DevPtr ZeRegion (wrap32 RowPitch)
                (wrap32 SlicePitch)) None None.

(** [Level0Queue::read]. *)
Definition read (HostPtr : Z) (SrcMemId : pocl_mem_identifier)
    (Offset Size : Z) : M unit :=
  let DevPtr := mem_ptr SrcMemId in
  if (ptr_add DevPtr Offset =? HostPtr)%Z then mret tt
  else
    allocNextFreeEvent ;;
    append_chained (MemoryCopy HostPtr (ptr_add DevPtr Offset) Size).

(** [Level0Queue::write]. *)
Definition write (HostPtr : Z) (DstMemId : pocl_mem_identifier)
    (Offset Size : Z) : M unit :=
  let DevPtr := mem_ptr DstMemId in
  if (ptr_add DevPtr Offset =? HostPtr)%Z then mret tt
  else
    allocNextFreeEvent ;;
    append_chained (MemoryCopy (ptr_add DevPtr Offset) HostPtr Size).

(** [Level0Queue::copy]. *)
Definition copy (DstMemId SrcMemId : pocl_mem_identifier)
    (DstOffset SrcOffset Size : Z) : M unit :=
  let SrcPtr := mem_ptr SrcMemId in
  let DstPtr := mem_ptr DstMemId in
  allocNextFreeEvent ;;
  append_chained
    (MemoryCopy (ptr_add DstPtr DstOffset) (ptr_add SrcPtr SrcOffset) Size).

(** [Level0Queue::copyRect]. *)
Definition copyRect (DstMemId SrcMemId : pocl_mem_identifier)
    (DstOrigin SrcOrigin Region : size3)
    (DstRowPitch DstSlicePitch SrcRowPitch SrcSlicePitch : Z) : M unit :=
  let SrcPtr := mem_ptr SrcMemId in
  let DstPtr := mem_ptr DstMemId in
  let SrcRegion := ze_region SrcOrigin Region in
  let DstRegion := ze_region DstOrigin Region in
  allocNextFreeEvent ;;
  append_chained
    (MemoryCopyRegion DstPtr DstRegion (wrap32 DstRowPitch)
       (wrap32 DstSlicePitch) SrcPtr SrcRegion (wrap32 SrcRowPitch)
       (wrap32 SrcSlicePitch)).

(** The entries of a [size_t X[3]]. *)
Definition at0 (X : size3) : Z := X.1.1.
Definition at1 (X : size3) : Z := X.1.2.
Definition at2 (X : size3) : Z := X.2.

(** The address [Ptr + Origin[2] * SlicePitch + Origin[1] * RowPitch +
    Origin[0]]. *)
Definition adjusted_ptr (Ptr : Z) (Origin : size3) (RowPitch SlicePitch : Z)
    : Z :=
  wrap64 (Ptr + at2 Origin * SlicePitch + at1 Origin * RowPitch + at0 Origin).

(** Whether the rows and slices of both sides are contiguous, the condition
    under which the helpers copy the whole block at once. *)
Definition rect_is_linear (Region : size3)
    (BufferRowPitch BufferSlicePitch HostRowPitch HostSlicePitch : Z) : bool :=
  ((BufferRowPitch =? HostRowPitch)%Z && (HostRowPitch =? at0 Region)%Z)
  && ((BufferSlicePitch =? HostSlicePitch)%Z
      && (HostSlicePitch =? wrap64 (at1 Region * at0 Region))%Z).

(** [Level0Queue::readRectHelper]. *)
Definition readRectHelper (HostPtr DevicePtr : Z)
    (BufferOrigin HostOrigin Region : size3)
    (BufferRowPitch BufferSlicePitch HostRowPitch HostSlicePitch : Z)
    : M unit :=
  let AdjustedDevicePtr :=
    adjusted_ptr DevicePtr BufferOrigin BufferRowPitch BufferSlicePitch in
  let AdjustedHostPtr :=
    adjusted_ptr HostPtr HostOrigin HostRowPitch HostSlicePitch in
  if rect_is_linear Region BufferRowPitch BufferSlicePitch
       HostRowPitch HostSlicePitch
  then
    allocNextFreeEvent ;;
    append_chained
      (MemoryCopy AdjustedHostPtr AdjustedDevicePtr
         (wrap64 (at2 Region * at1 Region * at0 Region)))
  else
    for_each (seqZ 0 (at2 Region)) (λ k,
      for_each (seqZ 0 (at1 Region)) (λ j,
        allocNextFreeEvent ;;
        let Dst :=
          wrap64 (AdjustedHostPtr + HostRowPitch * j + HostSlicePitch * k) in
        let Src :=
          wrap64 (AdjustedDevicePtr + BufferRowPitch * j
                  + BufferSlicePitch * k) in
        append_chained (MemoryCopy Dst Src (at0 Region)))).

(** [Level0Queue::readRect]. *)
Definition readRect (HostPtr : Z) (SrcMemId : pocl_mem_identifier)
    (BufferOrigin HostOrigin Region : size3)
    (BufferRowPitch BufferSlicePitch HostRowPitch HostSlicePitch : Z)
    : M unit :=
  let BufferPtr := mem_ptr SrcMemId in
  readRectHelper HostPtr BufferPtr BufferOrigin HostOrigin Region
    BufferRowPitch BufferSlicePitch HostRowPitch HostSlicePitch.

(** [Level0Queue::writeRectHelper]. *)
Definition writeRectHelper (HostPtr DevicePtr : Z)
    (BufferOrigin HostOrigin Region : size3)
    (BufferRowPitch BufferSlicePitch HostRowPitch HostSlicePitch : Z)
    : M unit :=
  let AdjustedDevicePtr :=
    adjusted_ptr DevicePtr BufferOrigin BufferRowPitch BufferSlicePitch in
  let AdjustedHostPtr :=
    adjusted_ptr HostPtr HostOrigin HostRowPitch HostSlicePitch in
  if rect_is_linear Region BufferRowPitch BufferSlicePitch
       HostRowPitch HostSlicePitch
  then
    allocNextFreeEvent ;;
    append_chained
      (MemoryCopy AdjustedDevicePtr AdjustedHostPtr
         (wrap64 (at2 Region * at1 Region * at0 Region)))
  else
    for_each (seqZ 0 (at2 Region)) (λ k,
      for_each (seqZ 0 (at1 Region)) (λ j,
        allocNextFreeEvent ;;
        let Src :=
          wrap64 (AdjustedHostPtr + HostRowPitch * j + HostSlicePitch * k) in
        let Dst :=
          wrap64 (AdjustedDevicePtr + BufferRowPitch * j
                  + BufferSlicePitch * k) in
        append_chained (MemoryCopy Dst Src (at0 Region)))).

(** [Level0Queue::writeRect]. *)
Definition writeRect (HostPtr : Z) (DstMemId : pocl_mem_identifier)
    (BufferOrigin HostOrigin Region : size3)
    (BufferRowPitch BufferSlicePitch HostRowPitch HostSlicePitch : Z)
    : M unit :=
  let BufferPtr := mem_ptr DstMemId in
  writeRectHelper HostPtr BufferPtr BufferOrigin HostOrigin Region
    BufferRowPitch BufferSlicePitch HostRowPitch HostSlicePitch.

(** The loop of [memfillImpl] that halves the group count and doubles the
    group size; it runs at most 32 times on a [uint32_t]. *)
Fixpoint memfill_groups (fuel : nat) (TotalWGsX WGSizeX MaxWG : Z) : Z * Z :=
  match fuel with
  | 0 => (TotalWGsX, WGSizeX)
  | S fuel =>
      if (1 <? TotalWGsX)%Z && (Z.land TotalWGsX 1 =? 0)%Z
         && (WGSizeX <=? MaxWG)%Z
      then memfill_groups fuel (TotalWGsX `div` 2) (wrap32 (WGSizeX * 2)) MaxWG
      else (TotalWGsX, WGSizeX)
  end.

(** The pattern sizes [i] for which [initHelperKernels] creates the
    kernel [memfill_<i>]: [for (i = 1; i <= 128; i *= 2)]. *)
Definition MemfillKernels : list Z := [1; 2; 4; 8; 16; 32; 64; 128]%Z.

(** [Level0Device::getMemfillKernel]: the kernel
    [MemfillKernels[KernelName]] of the name [memfill_<PatternSize>], for
    the pattern size as an [unsigned], and [assert(K)].  The job
    scheduler, which is not part of the sources at hand, is taken to
    return the build of that kernel. *)
Definition getMemfillKernel (PatternSize : Z) : M ze_kernel_handle_t :=
  s ← get;
  let PatternSize := wrap32 PatternSize in
  assert (hasMemfillKernels (Device s)
          && bool_decide (PatternSize ∈ MemfillKernels)) ;;
  mret (MemfillKernel PatternSize).

(** [Level0Queue::memfillImpl].  The division by a pattern size of zero is
    undefined. *)
Definition memfillImpl (MemPtr Size Offset PatternSize : Z) : M unit :=
  s ← get;
  KernelH ← getMemfillKernel PatternSize;
  assert (negb (PatternSize =? 0)%Z) ;;
  let TotalWGsX := wrap32 (Size `div` PatternSize) in
  let MaxWG := wrap32 (getMaxWGSize (Device s) `div` 2) in
  let TotalWGsX := (memfill_groups 32 TotalWGsX 1 MaxWG).1 in
  allocNextFreeEvent ;;
  append_chained (LaunchKernel KernelH (TotalWGsX, 1, 1)%Z).

(** [Level0Queue::memFill]; [ENABLE_L0_MEMFILL] is not defined. *)
Definition memFill (DstMemId : pocl_mem_identifier)
    (Size Offset PatternSize : Z) : M unit :=
  let DstPtr := mem_ptr DstMemId in
  memfillImpl DstPtr Size Offset PatternSize.

(** [Level0Queue::mapMem]. *)
Definition mapMem (SrcMemId : pocl_mem_identifier) (SrcBuf : cl_mem)
    (Map : mem_mapping_t) : M unit :=
  let SrcPtr := mem_ptr SrcMemId in
  if has_flag (map_flags Map) CL_MAP_WRITE_INVALIDATE_REGION then mret tt
  else if (mem_host_ptr SrcBuf =? mem_ptr SrcMemId)%Z then
    assert (host_ptr Map =? ptr_add SrcPtr (map_offset Map))%Z
  else
    allocNextFreeEvent ;;
    append_chained
      (MemoryCopy (host_ptr Map) (ptr_add SrcPtr (map_offset Map))
         (map_size Map)).

(** [Level0Queue::unmapMem]. *)
Definition unmapMem (DstMemId : pocl_mem_identifier) (DstBuf : cl_mem)
    (Map : mem_mapping_t) : M unit :=
  let DstPtr := mem_ptr DstMemId in
  if (map_flags Map =? CL_MAP_READ)%Z then mret tt
  else if (mem_host_ptr DstBuf =? mem_ptr DstMemId)%Z then
    assert (host_ptr Map =? ptr_add DstPtr (map_offset Map))%Z
  else
    allocNextFreeEvent ;;
    append_chained
      (MemoryCopy (ptr_add DstPtr (map_offset Map)) (host_ptr Map)
         (map_size Map)).

(** [Level0Queue::copyImageRect]. *)
Definition copyImageRect (SrcMemId DstMemId : pocl_mem_identifier)
    (SrcOrigin DstOrigin Region : size3) : M unit :=
  let SrcImg := extra_ptr SrcMemId in
  let DstImg := extra_ptr DstMemId in
  let SrcRegion := ze_region SrcOrigin Region in
  let DstRegion := ze_region DstOrigin Region in
  allocNextFreeEvent ;;
  append_chained (ImageCopyRegion DstImg SrcImg DstRegion SrcRegion).

(** [needsStagingCopy]: the result, then the values of the four reference
    parameters [UserRowPitch], [UserSlicePitch], [RowPitch], [SlicePitch]
    on return. *)
Definition needsStagingCopy (DstImage : cl_mem)
    (UserRowPitch UserSlicePitch : Z) : bool * (Z * Z * Z * Z) :=
  let RowPitch :=
    wrap64 (image_elem_size DstImage * image_channels DstImage
            * image_width DstImage) in
  let SlicePitch :=
    wrap64 (RowPitch * (if (image_height DstImage =? 0)%Z then 1
                        else image_height DstImage)) in
  if negb (UserRowPitch =? 0)%Z && negb (UserRowPitch =? RowPitch)%Z then
    (true, (UserRowPitch, UserSlicePitch, RowPitch, SlicePitch))
  else
    let UserRowPitch :=
      if (UserRowPitch =? 0)%Z then RowPitch else UserRowPitch in
    if negb (UserSlicePitch =? 0)%Z && negb (UserSlicePitch =? SlicePitch)%Z
    then (true, (UserRowPitch, UserSlicePitch, RowPitch, SlicePitch))
    else
      let UserSlicePitch :=
        if (UserSlicePitch =? 0)%Z then SlicePitch else UserSlicePitch in
      (false, (UserRowPitch, UserSlicePitch, RowPitch, SlicePitch)).

(** The extent [{Origin[0] * ElemBytes, Origin[1], Origin[2]}] in bytes. *)
Definition scale0 (X : size3) (ElemBytes : Z) : size3 :=
  (wrap64 (at0 X * ElemBytes), at1 X, at2 X).

(** [Level0Queue::writeImageRect].  A null [SrcHostPtr] selects the buffer
    [SrcMemId] as the source. *)
Definition writeImageRect (DstImage : cl_mem) (DstMemId : pocl_mem_identifier)
    (SrcHostPtr : Z) (SrcMemId : option pocl_mem_identifier)
    (Origin Region : size3) (SrcRowPitch SrcSlicePitch SrcOffset : Z)
    : M unit :=
  SrcPtr ←
    (if negb (SrcHostPtr =? nullptr)%Z then mret (ptr_add SrcHostPtr SrcOffset)
     else match SrcMemId with
          | Some Id => mret (ptr_add (mem_ptr Id) SrcOffset)
          | None => abort
          end);
  let DstImg := extra_ptr DstMemId in
  let StagingPtr := mem_ptr DstMemId in
  let '(NeedsStaging, (SrcRowPitch, SrcSlicePitch, NativeRowPitch,
        NativeSlicePitch)) :=
    needsStagingCopy DstImage SrcRowPitch SrcSlicePitch in
  let ImgRegion := ze_region Origin Region in
  let ElemBytes :=
    wrap64 (image_elem_size DstImage * image_channels DstImage) in
  if NeedsStaging then
    (if (SrcHostPtr =? nullptr)%Z then
       let CopyDstRegion :=
         ze_region (scale0 Origin ElemBytes) (scale0 Region ElemBytes) in
       let CopySrcRegion :=
         ze_region (0, 0, 0)%Z (scale0 Region ElemBytes) in
       allocNextFreeEvent ;;
       append_chained
         (MemoryCopyRegion StagingPtr CopyDstRegion (wrap32 NativeRowPitch)
            (wrap32 NativeSlicePitch) SrcPtr CopySrcRegion
            (wrap32 SrcRowPitch) (wrap32 SrcSlicePitch))
     else
       let HostOrigin := (0, 0, 0)%Z in
       let DevOrigin := scale0 Origin ElemBytes in
       let DevRegion := scale0 Region ElemBytes in
       writeRectHelper SrcPtr StagingPtr DevOrigin HostOrigin DevRegion
         NativeRowPitch NativeSlicePitch SrcRowPitch SrcSlicePitch) ;;
    (allocNextFreeEvent ;;
     append_chained (ImageCopyFromMemory DstImg StagingPtr ImgRegion))
  else
    allocNextFreeEvent ;;
    append_chained (ImageCopyFromMemory DstImg SrcPtr ImgRegion).

(** [Level0Queue::readImageRect].  A null [DstHostPtr] selects the buffer
    [DstMemId] as the destination. *)
Definition readImageRect (SrcImage : cl_mem) (SrcMemId : pocl_mem_identifier)
    (DstHostPtr : Z) (DstMemId : option pocl_mem_identifier)
    (Origin Region : size3) (DstRowPitch DstSlicePitch DstOffset : Z)
    : M unit :=
  DstPtr ←
    (if negb (DstHostPtr =? nullptr)%Z then mret (ptr_add DstHostPtr DstOffset)
     else match DstMemId with
          | Some Id => mret (ptr_add (mem_ptr Id) DstOffset)
          | None => abort
          end);
  let SrcImg := extra_ptr SrcMemId in
  let StagingPtr := mem_ptr SrcMemId in
  let '(NeedsStaging, (DstRowPitch, DstSlicePitch, NativeRowPitch,
        NativeSlicePitch)) :=
    needsStagingCopy SrcImage DstRowPitch DstSlicePitch in
  let ImgRegion := ze_region Origin Region in
  let ElemBytes :=
    wrap64 (image_elem_size SrcImage * image_channels SrcImage) in
  if NeedsStaging then
    (allocNextFreeEvent ;;
     append_chained (ImageCopyToMemory StagingPtr SrcImg ImgRegion)) ;;
    (if (DstHostPtr =? nullptr)%Z then
       let CopySrcRegion :=
         ze_region (scale0 Origin ElemBytes) (scale0 Region ElemBytes) in
       let CopyDstRegion :=
         ze_region (0, 0, 0)%Z (scale0 Region ElemBytes) in
       allocNextFreeEvent ;;
       append_chained
         (MemoryCopyRegion DstPtr CopyDstRegion (wrap32 DstRowPitch)
            (wrap32 DstSlicePitch) StagingPtr CopySrcRegion
            (wrap32 NativeRowPitch) (wrap32 NativeSlicePitch))
     else
       let HostOrigin := (0, 0, 0)%Z in
       let DevOrigin := scale0 Origin ElemBytes in
       let DevRegion := scale0 Region ElemBytes in
       readRectHelper DstPtr StagingPtr DevOrigin HostOrigin DevRegion
         NativeRowPitch NativeSlicePitch DstRowPitch DstSlicePitch)
  else
    allocNextFreeEvent ;;
    append_chained (ImageCopyToMemory DstPtr SrcImg ImgRegion).

(** [Level0Queue::mapImage]. *)
Definition mapImage (MemId : pocl_mem_identifier) (SrcImage : cl_mem)
    (Map : mem_mapping_t) : M unit :=
  if has_flag (map_flags Map) CL_MAP_WRITE_INVALIDATE_REGION then mret tt
  else
    let DstHostPtr := mem_host_ptr SrcImage in
    readImageRect SrcImage MemId DstHostPtr None (map_origin Map)
      (map_region Map) (map_row_pitch Map) (map_slice_pitch Map)
      (map_offset Map).

(** [Level0Queue::unmapImage]. *)
Definition unmapImage (MemId : pocl_mem_identifier) (DstImage : cl_mem)
    (Map : mem_mapping_t) : M unit :=
  if (map_flags Map =? CL_MAP_READ)%Z then mret tt
  else
    let SrcHostPtr := mem_host_ptr DstImage in
    writeImageRect DstImage MemId SrcHostPtr None (map_origin Map)
      (map_region Map) (map_row_pitch Map) (map_slice_pitch Map)
      (map_offset Map).

(** Channel data types and image types, from [CL/cl.h]. *)
Definition CL_SIGNED_INT8 : Z := 4311.
Definition CL_SIGNED_INT16 : Z := 4312.
Definition CL_SIGNED_INT32 : Z := 4313.
Definition CL_UNSIGNED_INT8 : Z := 4314.
Definition CL_UNSIGNED_INT16 : Z := 4315.
Definition CL_UNSIGNED_INT32 : Z := 4316.
Definition CL_MEM_OBJECT_IMAGE2D : Z := 4337.
Definition CL_MEM_OBJECT_IMAGE3D : Z := 4338.
Definition CL_MEM_OBJECT_IMAGE2D_ARRAY : Z := 4339.
Definition CL_MEM_OBJECT_IMAGE1D : Z := 4340.
Definition CL_MEM_OBJECT_IMAGE1D_ARRAY : Z := 4341.
Definition CL_MEM_OBJECT_IMAGE1D_BUFFER : Z := 4342.

(** The names [initHelperKernels] creates a kernel for:
    [imagefill_<image type><pixel type>]. *)
Definition ImagefillKernels : list string :=
  ImgT ← ["2d_"; "2d_array_"; "1d_"; "1d_array_"; "1d_buffer_"; "3d_"];
  PixT ← ["f"; "ui"; "i"];
  [("imagefill_" +:+ ImgT +:+ PixT)%string].

(** The two switches of [getImagefillKernel]. *)
Definition imagefill_PixelType (ChType : Z) : string :=
  if bool_decide (ChType ∈ [CL_UNSIGNED_INT8; CL_UNSIGNED_INT16;
                            CL_UNSIGNED_INT32]) then "ui"
  else if bool_decide (ChType ∈ [CL_SIGNED_INT8; CL_SIGNED_INT16;
                                 CL_SIGNED_INT32]) then "i"
  else "f".

Definition imagefill_ImageType (ImgType : Z) : string :=
  if (ImgType =? CL_MEM_OBJECT_IMAGE1D)%Z then "1d_"
  else if (ImgType =? CL_MEM_OBJECT_IMAGE1D_ARRAY)%Z then "1d_array_"
  else if (ImgType =? CL_MEM_OBJECT_IMAGE1D_BUFFER)%Z then "1d_buffer_"
  else if (ImgType =? CL_MEM_OBJECT_IMAGE2D)%Z then "2d_"
  else if (ImgType =? CL_MEM_OBJECT_IMAGE2D_ARRAY)%Z then "2d_array_"
  else if (ImgType =? CL_MEM_OBJECT_IMAGE3D)%Z then "3d_"
  else "_unknown".

(** [Level0Device::getImagefillKernel]: the kernel
    [ImagefillKernels[KernelName]], and [assert(K)]; the channel order is
    not looked at. *)
Definition getImagefillKernel (ChType ChOrder ImgType : Z)
    : M ze_kernel_handle_t :=
  s ← get;
  let PixelType := imagefill_PixelType ChType in
  let ImageType := imagefill_ImageType ImgType in
  let KernelName := ("imagefill_" +:+ ImageType +:+ PixelType)%string in
  assert (hasImagefillKernels (Device s)
          && bool_decide (KernelName ∈ ImagefillKernels)) ;;
  mret (ImagefillKernel KernelName).

(** [Level0Queue::fillImage]. *)
Definition fillImage (Image : cl_mem) (MemId : pocl_mem_identifier)
    (Origin Region : size3) : M unit :=
  KernelH ← getImagefillKernel (image_channel_data_type Image)
              (image_channel_order Image) (image_type Image);
  let LaunchFuncArgs :=
    (wrap32 (at0 Region), wrap32 (at1 Region), wrap32 (at2 Region)) in
  allocNextFreeEvent ;;
  append_chained (LaunchKernel KernelH LaunchFuncArgs).

(** [Level0Queue::svmMap] and [Level0Queue::svmUnmap]. *)
Definition svmMap (Ptr : Z) : M unit := mret tt.
Definition svmUnmap (Ptr : Z) : M unit := mret tt.

(** [Level0Queue::svmCopy]. *)
Definition svmCopy (DstPtr SrcPtr Size : Z) : M unit :=
  allocNextFreeEvent ;;
  append_chained (MemoryCopy DstPtr SrcPtr Size).

(** [Level0Queue::svmFill]. *)
Definition svmFill (DstPtr Size PatternSize : Z) : M unit :=
  memfillImpl DstPtr Size 0 PatternSize.

(** [Level0Queue::svmMigrate]. *)
Definition svmMigrate (svm_pointers : list (Z * Z)) : M unit :=
  for_each svm_pointers (λ I, append (MemoryPrefetch I.1 I.2) None None).

(** [Level0Queue::svmAdvise]. *)
Definition svmAdvise (ptr size advice : Z) : M unit :=
  if (advice =? 0)%Z then mret tt
  else append (MemAdvise ptr size ZE_MEMORY_ADVICE_BIAS_UNCACHED) None None.

(** [Level0Queue::setupKernelArgs]; the result is always [false]. *)
Definition setupKernelArgs (arguments : list pocl_argument) : M bool :=
  for_each arguments (λ PoclArg,
    match PoclArg with
    | ArgLocal size => assert (0 <? size)%Z
    | ArgPointerBuf arg_buf is_readonly =>
        let MemPtr := mem_ptr (device_ptrs arg_buf) in
        let Adv := if is_readonly then ZE_MEMORY_ADVICE_SET_READ_MOSTLY
                   else ZE_MEMORY_ADVICE_CLEAR_READ_MOSTLY in
        append (MemAdvise MemPtr (mem_size arg_buf) Adv) None None
    | ArgPOD size => assert (0 <? size)%Z
    | _ => mret tt
    end) ;;
  mret false.

(** [Level0Queue::runBuiltinKernel]. *)
Definition runBuiltinKernel (Kernel : cl_kernel)
    (arguments : list pocl_argument) : M unit :=
  s ← get;
  if ENABLE_NPU (Device s) then
    for_each arguments (λ PoclArg,
      match PoclArg with
      | ArgPointerBuf _ _ => mret tt
      | _ => abort
      end) ;;
    (allocNextFreeEvent ;; append_chained (GraphInitialize (GraphH Kernel))) ;;
    (allocNextFreeEvent ;; append_chained (GraphExecute (GraphH Kernel)))
  else mret tt.

(** [Level0Queue::runNDRangeKernel]. *)
Definition runNDRangeKernel (Kernel : cl_kernel) (PoclCtx : pocl_context)
    (arguments : list pocl_argument) (MigInfos : list cl_mem) : M unit :=
  let TotalWGsX := wrap32 (at0 (num_groups PoclCtx)) in
  let TotalWGsY := wrap32 (at1 (num_groups PoclCtx)) in
  let TotalWGsZ := wrap32 (at2 (num_groups PoclCtx)) in
  let TotalWGs := wrap32 (TotalWGsX * TotalWGsY * TotalWGsZ) in
  if (TotalWGs =? 0)%Z then mret tt
  else
    let Needs64bitPtrs :=
      existsb (λ MI, (UINT32_MAX <? mem_size MI)%Z) MigInfos in
    let TotalLocalWGSize :=
      wrap32 (at0 (local_size PoclCtx) * at1 (local_size PoclCtx)
              * at2 (local_size PoclCtx)) in
    let KernelH :=
      BestKernel (kernel_id Kernel) Needs64bitPtrs TotalLocalWGSize in
    for_each (AccessedPointers Kernel) (λ I,
      modify (λ s,
        set_MemPtrsToMakeResident
          (map_assign Z.ltb I.1 I.2 (MemPtrsToMakeResident s)) s)) ;;
    failed ← setupKernelArgs arguments;
    if failed : bool then mret tt
    else
      let LaunchFuncArgs := (TotalWGsX, TotalWGsY, TotalWGsZ) in
      allocNextFreeEvent ;;
      append_chained (LaunchKernel KernelH LaunchFuncArgs).

(** [Level0Queue::run]. *)
Definition run (Cmd : _cl_command_node) : M unit :=
  match command Cmd with
  | cmd_run Kernel pc arguments =>
      if bool_decide (0 < num_builtin_kernels Kernel) then
        runBuiltinKernel Kernel arguments
      else runNDRangeKernel Kernel pc arguments (migr_infos Cmd)
  | _ => abort
  end.

(** The region [{image_width, image_height, image_depth}] of a whole image,
    with a height and a depth of zero replaced by one. *)
Definition whole_image_region (Mem : cl_mem) : size3 :=
  (image_width Mem,
   if (image_height Mem =? 0)%Z then 1%Z else image_height Mem,
   if (image_depth Mem =? 0)%Z then 1%Z else image_depth Mem).

(** [Level0Queue::appendEventToList]; the result is the message [*Msg].
    A node whose union member does not fit its type, a migration without
    migration info, and the [default] case of the switch abort. *)
Definition appendEventToList (Cmd : _cl_command_node) : M string :=
  s ← get;
  match type Cmd, command Cmd with
  | CL_COMMAND_READ_BUFFER, cmd_read dst_host_ptr src offset size =>
      read dst_host_ptr (device_ptrs src) offset size ;;
      mret "Event Read Buffer           "
  | CL_COMMAND_WRITE_BUFFER, cmd_write src_host_ptr dst offset size =>
      write src_host_ptr (device_ptrs dst) offset size ;;
      syncUseMemHostPtr (device_ptrs dst) dst offset size ;;
      mret "Event Write Buffer          "
  | CL_COMMAND_COPY_BUFFER, cmd_copy dst src dst_offset src_offset size =>
      copy (device_ptrs dst) (device_ptrs src) dst_offset src_offset size ;;
      syncUseMemHostPtr (device_ptrs dst) dst dst_offset size ;;
      mret "Event Copy Buffer           "
  | CL_COMMAND_FILL_BUFFER, cmd_memfill dst size offset pattern_size =>
      memFill (device_ptrs dst) size offset pattern_size ;;
      syncUseMemHostPtr (device_ptrs dst) dst offset size ;;
      mret "Event Fill Buffer           "
  | CL_COMMAND_READ_BUFFER_RECT,
    cmd_read_rect dst_host_ptr src buffer_origin host_origin region
      buffer_row_pitch buffer_slice_pitch host_row_pitch host_slice_pitch =>
      readRect dst_host_ptr (device_ptrs src) buffer_origin host_origin region
        buffer_row_pitch buffer_slice_pitch host_row_pitch host_slice_pitch ;;
      mret "Event Read Buffer Rect      "
  | CL_COMMAND_COPY_BUFFER_RECT,
    cmd_copy_rect dst src dst_origin src_origin region
      dst_row_pitch dst_slice_pitch src_row_pitch src_slice_pitch =>
      copyRect (device_ptrs dst) (device_ptrs src) dst_origin src_origin
        region dst_row_pitch dst_slice_pitch src_row_pitch src_slice_pitch ;;
      syncUseMemHostPtr_rect (device_ptrs dst) dst dst_origin region
        dst_row_pitch dst_slice_pitch ;;
      mret "Event Copy Buffer Rect      "
  | CL_COMMAND_WRITE_BUFFER_RECT,
    cmd_write_rect src_host_ptr dst buffer_origin host_origin region
      buffer_row_pitch buffer_slice_pitch host_row_pitch host_slice_pitch =>
      writeRect src_host_ptr (device_ptrs dst) buffer_origin host_origin
        region buffer_row_pitch buffer_slice_pitch host_row_pitch
        host_slice_pitch ;;
      syncUseMemHostPtr_rect (device_ptrs dst) dst buffer_origin region
        buffer_row_pitch buffer_slice_pitch ;;
      mret "Event Write Buffer Rect     "
  | CL_COMMAND_MIGRATE_MEM_OBJECTS, cmd_migrate mtype =>
      match mtype, migr_infos Cmd with
      | ENQUEUE_MIGRATE_TYPE_NOP, _ => mret tt
      | _, [] => abort
      | ENQUEUE_MIGRATE_TYPE_D2H, Mem :: _ =>
          if is_image Mem then
            readImageRect Mem (device_ptrs Mem) (mem_host_ptr Mem) None
              (0, 0, 0)%Z (whole_image_region Mem) 0 0 0
          else
            read (mem_host_ptr Mem) (device_ptrs Mem) 0 (mem_size Mem)
      | ENQUEUE_MIGRATE_TYPE_H2D, Mem :: _ =>
          if is_image Mem then
            writeImageRect Mem (device_ptrs Mem) (mem_host_ptr Mem) None
              (0, 0, 0)%Z (whole_image_region Mem) 0 0 0
          else
            write (mem_host_ptr Mem) (device_ptrs Mem) 0 (mem_size Mem)
      | ENQUEUE_MIGRATE_TYPE_D2D, Mem :: _ =>
          assert (can_migrate_d2d (Device s)) ;;
          record (ops_migrate_d2d Mem)
      end ;;
      mret "Event Migrate Buffer(s)     "
  | CL_COMMAND_MAP_BUFFER, cmd_map buffer mapping =>
      mapMem (device_ptrs buffer) buffer mapping ;;
      mret "Event Map Buffer            "
  | CL_COMMAND_COPY_IMAGE_TO_BUFFER,
    cmd_read_image src _ (Some dst) origin region
      dst_row_pitch dst_slice_pitch dst_offset =>
      readImageRect src (device_ptrs src) nullptr (Some (device_ptrs dst))
        origin region dst_row_pitch dst_slice_pitch dst_offset ;;
      mret "Event CopyImageToBuffer       "
  | CL_COMMAND_READ_IMAGE,
    cmd_read_image src dst_host_ptr _ origin region
      dst_row_pitch dst_slice_pitch dst_offset =>
      readImageRect src (device_ptrs src) dst_host_ptr None
        origin region dst_row_pitch dst_slice_pitch dst_offset ;;
      mret "Event Read Image            "
  | CL_COMMAND_COPY_BUFFER_TO_IMAGE,
    cmd_write_image dst _ (Some src) origin region
      src_row_pitch src_slice_pitch src_offset =>
      writeImageRect dst (device_ptrs dst) nullptr (Some (device_ptrs src))
        origin region src_row_pitch src_slice_pitch src_offset ;;
      mret "Event CopyBufferToImage       "
  | CL_COMMAND_WRITE_IMAGE,
    cmd_write_image dst src_host_ptr _ origin region
      src_row_pitch src_slice_pitch src_offset =>
      writeImageRect dst (device_ptrs dst) src_host_ptr None
        origin region src_row_pitch src_slice_pitch src_offset ;;
      mret "Event Write Image           "
  | CL_COMMAND_COPY_IMAGE, cmd_copy_image src dst src_origin dst_origin region =>
      copyImageRect (device_ptrs src) (device_ptrs dst) src_origin dst_origin
        region ;;
      mret "Event Copy Image            "
  | CL_COMMAND_FILL_IMAGE, cmd_fill_image dst origin region =>
      fillImage dst (device_ptrs dst) origin region ;;
      mret "Event Fill Image            "
  | CL_COMMAND_MAP_IMAGE, cmd_map buffer mapping =>
      mapImage (device_ptrs buffer) buffer mapping ;;
      mret "Event Map Image             "
  | CL_COMMAND_UNMAP_MEM_OBJECT, cmd_unmap buffer mapping =>
      (if negb (is_image buffer) || IS_IMAGE1D_BUFFER buffer then
         unmapMem (device_ptrs buffer) buffer mapping ;;
         if has_flag (map_flags mapping) CL_MAP_WRITE then
           syncUseMemHostPtr (device_ptrs buffer) buffer
             (map_offset mapping) (map_size mapping)
         else mret tt
       else unmapImage (device_ptrs buffer) buffer mapping) ;;
      mret "Unmap Mem obj         "
  | CL_COMMAND_NDRANGE_KERNEL, cmd_run _ _ _ =>
      run Cmd ;;
      for_each (migr_infos Cmd) (λ MigratedBuf,
        if has_flag (flags MigratedBuf) CL_MEM_READ_ONLY then mret tt
        else if has_flag (flags MigratedBuf) CL_MEM_HOST_NO_ACCESS then mret tt
        else
          syncUseMemHostPtr (device_ptrs MigratedBuf) MigratedBuf 0
            (mem_size MigratedBuf)) ;;
      mret "Event Enqueue NDRange       "
  | CL_COMMAND_BARRIER, _ | CL_COMMAND_MARKER, _ =>
      mret "Event Marker                "
  | CL_COMMAND_SVM_FREE, cmd_svm_free has_func svm_pointers =>
      (if has_func then record (pfn_free_func svm_pointers)
       else for_each svm_pointers (λ Ptr, record (clSVMFree Ptr))) ;;
      mret "Event SVM Free              "
  | CL_COMMAND_SVM_MAP, cmd_svm_map svm_ptr =>
      svmMap svm_ptr ;; mret "Event SVM Map              "
  | CL_COMMAND_SVM_UNMAP, cmd_svm_unmap svm_ptr =>
      svmUnmap svm_ptr ;; mret "Event SVM Unmap             "
  | CL_COMMAND_SVM_MEMCPY, cmd_svm_memcpy dst src size
  | CL_COMMAND_MEMCPY_INTEL, cmd_svm_memcpy dst src size =>
      svmCopy dst src size ;; mret "Event SVM Memcpy            "
  | CL_COMMAND_SVM_MEMFILL, cmd_svm_fill svm_ptr size pattern_size
  | CL_COMMAND_MEMFILL_INTEL, cmd_svm_fill svm_ptr size pattern_size =>
      svmFill svm_ptr size pattern_size ;;
      mret "Event SVM MemFill           "
  | CL_COMMAND_SVM_MIGRATE_MEM, cmd_svm_migrate svm_pointers
  | CL_COMMAND_MIGRATEMEM_INTEL, cmd_svm_migrate svm_pointers =>
      svmMigrate svm_pointers ;; mret "Event SVM Migrate_Mem       "
  | CL_COMMAND_MEMADVISE_INTEL, cmd_mem_advise ptr size advice =>
      svmAdvise ptr size advice ;; mret "Event SVM Mem_Advise        "
  | _, _ => abort
  end.

(** ** Executing commands *)

(** The submission [zeCommandQueueExecuteCommandLists(QueueH, 1, &L,
    nullptr)] the worker makes when it has a queue. *)
Definition execute_if_queue (L : option ze_command_list_handle_t) : M unit :=
  s ← get;
  match QueueH s, L with
  | Some Q, Some L => record (zeCommandQueueExecuteCommandLists Q L)
  | Some Q, None => abort
  | None, _ => mret tt
  end.

(** The wait for completion: on the queue, or on an immediate list. *)
Definition synchronize : M unit :=
  s ← get;
  match QueueH s, CmdListH s with
  | Some Q, _ => record (zeCommandQueueSynchronize Q)
  | None, Some L => record (zeCommandListHostSynchronize L)
  | None, None => abort
  end.

(** [Level0Queue::execCommand], on the node of [event]. *)
Definition execCommand (event : cl_event) : M unit :=
  s ← get;
  assert (bool_decide (CurrentEventH s = None)) ;;
  assert (bool_decide (PreviousEventH s = None)) ;;
  Msg ← appendEventToList (node event);
  makeMemResident ;;
  syncMemHostPtrs ;;
  closeCmdList None ;;
  s ← get;
  execute_if_queue (CmdListH s) ;;
  record (pocl_update_event_running (event_id event)) ;;
  synchronize ;;
  record (POCL_UPDATE_EVENT_COMPLETE_MSG (event_id event) Msg).

(** The first loop of [execCommandBatch]: the messages [Msgs], in order. *)
Fixpoint appendBatch (Batch : BatchType) : M (list string) :=
  match Batch with
  | [] => mret []
  | E :: Batch =>
      Msg ← appendEventToList (node E);
      Msgs ← appendBatch Batch;
      mret (Msg :: Msgs)
  end.

(** The last loop of [execCommandBatch]: it takes the messages from the
    front of [Msgs], which the code asserts not to be empty. *)
Fixpoint completeBatch (Batch : BatchType) (Msgs : list string) : M unit :=
  match Batch with
  | [] => mret tt
  | E :: Batch =>
      match Msgs with
      | [] => abort
      | Msg :: Msgs =>
          record (POCL_UPDATE_EVENT_COMPLETE_MSG (event_id E) Msg) ;;
          completeBatch Batch Msgs
      end
  end.

(** [Level0Queue::execCommandBatch]. *)
Definition execCommandBatch (Batch : BatchType) : M unit :=
  s ← get;
  assert (bool_decide (CurrentEventH s = None)) ;;
  assert (bool_decide (PreviousEventH s = None)) ;;
  Msgs ← appendBatch Batch;
  makeMemResident ;;
  syncMemHostPtrs ;;
  closeCmdList None ;;
  s ← get;
  execute_if_queue (CmdListH s) ;;
  for_each Batch (λ E,
    record (pocl_update_event_submitted (event_id E)) ;;
    record (pocl_update_event_running (event_id E))) ;;
  synchronize ;;
  completeBatch Batch Msgs.

(** [Level0Queue::createCommandBuffer]; the result is the new
    [Level0CmdBufferData], or null when the list cannot be created. *)
Definition createCommandBuffer (CmdBuf : cl_command_buffer_khr)
    : M (option Level0CmdBufferData) :=
  s ← get;
  let SaveCmdListH := CmdListH s in
  modify (set_CmdListH None) ;;
  if ListCreateFails s then mret None
  else
    let L := NextCmdListH s in
    modify (set_NextCmdListH (S L)) ;;
    record (zeCommandListCreate L) ;;
    modify (set_CmdListH (Some L)) ;;
    assert (bool_decide (CurrentEventH s = None)) ;;
    assert (bool_decide (PreviousEventH s = None)) ;;
    for_each (cmds CmdBuf) (λ Cmd, appendEventToList Cmd ;; mret tt) ;;
    syncMemHostPtrs ;;
    CmdBufEvtList ← closeCmdList (Some []);
    s ← get;
    let NewCmdListH := CmdListH s in
    modify (set_CmdListH SaveCmdListH) ;;
    let CmdBufData :=
      {| CB_CmdListH := NewCmdListH;
         CB_Events := default [] CmdBufEvtList;
         CB_MemPtrsToMakeResident := MemPtrsToMakeResident s |} in
    modify (set_MemPtrsToMakeResident []) ;;
    modify (set_CurrentEventH None) ;;
    modify (set_PreviousEventH None) ;;
    s ← get;
    assert (bool_decide (CmdListH s ≠ None)) ;;
    assert (bool_decide (UseMemHostPtrsToSync s = [])) ;;
    assert (bool_decide (MemPtrsToMakeResident s = [])) ;;
    assert (bool_decide (DeviceEventsToReset s = [])) ;;
    mret (Some CmdBufData).

(** [Level0Queue::freeCommandBuffer]. *)
Definition freeCommandBuffer (CmdBufData : Level0CmdBufferData) : M unit :=
  modify (λ s,
    set_AvailableDeviceEvents
      (AvailableDeviceEvents s ++ CB_Events CmdBufData) s) ;;
  match CB_CmdListH CmdBufData with
  | Some L => record (zeCommandListDestroy L)
  | None => mret tt
  end.

(** [CmdBufData->MemPtrsToMakeResident.swap(MemPtrsToMakeResident)], for
    the data in the slot [Slot]. *)
Definition swap_MemPtrsToMakeResident (Slot : nat * nat) : M unit :=
  s ← get;
  match CmdBufData s !! Slot with
  | None => abort
  | Some Data =>
      modify (set_CmdBufData
                (<[Slot := {| CB_CmdListH := CB_CmdListH Data;
                              CB_Events := CB_Events Data;
                              CB_MemPtrsToMakeResident :=
                                MemPtrsToMakeResident s |}]>
                   (CmdBufData s))) ;;
      modify (set_MemPtrsToMakeResident (CB_MemPtrsToMakeResident Data))
  end.

(** The block of [execCommandBuffer] that runs under the lock of the data
    of the command buffer. *)
Definition execCommandBuffer_locked (Event : cl_event) (Slot : nat * nat)
    : M unit :=
  s ← get;
  match CmdBufData s !! Slot with
  | None => abort
  | Some Data =>
      let CBCmdListH := CB_CmdListH Data in
      assert (bool_decide (MemPtrsToMakeResident s = [])) ;;
      swap_MemPtrsToMakeResident Slot ;;
      makeMemResident ;;
      swap_MemPtrsToMakeResident Slot ;;
      match QueueH s, CBCmdListH with
      | Some Q, Some L =>
          record (zeCommandQueueExecuteCommandLists Q L) ;;
          record (pocl_update_event_running (event_id Event)) ;;
          record (zeCommandQueueSynchronize Q)
      | _, _ => abort
      end
  end.

(** [Level0Queue::execCommandBuffer], on the node of [Event]. *)
Definition execCommandBuffer (Event : cl_event) : M unit :=
  match command_buffer Event with
  | None => abort
  | Some CmdBuf =>
      s ← get;
      let Slot := (cmdbuf_id CmdBuf, dev_id (Device s)) in
      match CmdBufData s !! Slot with
      | None =>
          Data ← createCommandBuffer CmdBuf;
          match Data with
          | None => abort
          | Some Data =>
              modify (λ s, set_CmdBufData (<[Slot := Data]> (CmdBufData s)) s)
          end
      | Some _ => mret tt
      end ;;
      execCommandBuffer_locked Event Slot ;;
      record (POCL_UPDATE_EVENT_COMPLETE_MSG (event_id Event)
                "Event Command Buffer")
  end.

(** ** Queue groups and the worker thread *)

(** [Level0QueueGroup]: the two work queues and the two flags. *)
Record Level0QueueGroup := {
  WorkQueue : list cl_event;
  BatchWorkQueue : list BatchType;
  ThreadExitRequested : bool;
  Available : bool
}.

(** [Level0QueueGroup::pushWork]. *)
Definition pushWork (Command : cl_event) (G : Level0QueueGroup)
    : Level0QueueGroup :=
  {| WorkQueue := WorkQueue G ++ [Command];
     BatchWorkQueue := BatchWorkQueue G;
     ThreadExitRequested := ThreadExitRequested G;
     Available := Available G |}.

(** [Level0QueueGroup::pushCommandBatch]. *)
Definition QueueGroup_pushCommandBatch (Batch : BatchType)
    (G : Level0QueueGroup) : Level0QueueGroup :=
  {| WorkQueue := WorkQueue G;
     BatchWorkQueue := BatchWorkQueue G ++ [Batch];
     ThreadExitRequested := ThreadExitRequested G;
     Available := Available G |}.

(** [Level0QueueGroup::uninit], up to the release of the lock. *)
Definition uninit (G : Level0QueueGroup) : Level0QueueGroup :=
  {| WorkQueue := WorkQueue G;
     BatchWorkQueue := BatchWorkQueue G;
     ThreadExitRequested := true;
     Available := Available G |}.

(** What [getWorkOrWait] hands to the worker: [*Node], [Batch] and the
    result [ShouldExit]. *)
Record work := {
  Node : option cl_event;
  WorkBatch : BatchType;
  ShouldExit : bool
}.

(** [Level0QueueGroup::getWorkOrWait], for a worker that runs alone: the
    result [None] is the worker blocked in [Cond.wait], which only another
    thread can end. *)
Definition getWorkOrWait (G : Level0QueueGroup)
    : option work * Level0QueueGroup :=
  let ShouldExit := ThreadExitRequested G in
  match WorkQueue G with
  | Front :: Rest =>
      (Some {| Node := Some Front; WorkBatch := []; ShouldExit := ShouldExit |},
       {| WorkQueue := Rest;
          BatchWorkQueue := BatchWorkQueue G;
          ThreadExitRequested := ThreadExitRequested G;
          Available := Available G |})
  | [] =>
      match BatchWorkQueue G with
      | Front :: Rest =>
          (Some {| Node := None; WorkBatch := Front;
                   ShouldExit := ShouldExit |},
           {| WorkQueue := WorkQueue G;
              BatchWorkQueue := Rest;
              ThreadExitRequested := ThreadExitRequested G;
              Available := Available G |})
      | [] =>
          if ShouldExit
          then (Some {| Node := None; WorkBatch := [];
                        ShouldExit := true |}, G)
          else (None, G)
      end
  end.

(** The body of the loop of [runThread] after [getWorkOrWait].  The two
    assertions on the event of the command (that it is ready and in state
    [CL_SUBMITTED]) concern the caller of the driver and are not part of
    the state here. *)
Definition runThread_body (W : work) : M unit :=
  s ← get;
  match Node W with
  | Some Command =>
      if prefersZeQueues (Device s)
         || bool_decide (type (node Command) = CL_COMMAND_NDRANGE_KERNEL)
      then
        (if bool_decide (type (node Command) = CL_COMMAND_COMMAND_BUFFER_KHR)
         then execCommandBuffer Command
         else execCommand Command) ;;
        reset
      else if prefersHostQueues (Device s) then
        record (pocl_exec_command (event_id Command))
      else abort
  | None => mret tt
  end ;;
  match WorkBatch W with
  | [] => mret tt
  | E :: Others =>
      (if bool_decide (type (node E) = CL_COMMAND_COMMAND_BUFFER_KHR) then
         assert (bool_decide (Others = [])) ;;
         record (pocl_update_event_submitted (event_id E)) ;;
         execCommandBuffer E
       else execCommandBatch (WorkBatch W)) ;;
      reset
  end.

(** How a run of the worker thread ends. *)
Inductive outcome :=
  | Exited (G : Level0QueueGroup) (s : State)
  | Blocked (G : Level0QueueGroup) (s : State)
  | Aborted
  | OutOfFuel (G : Level0QueueGroup) (s : State).

(** [Level0Queue::runThread], for a worker that runs alone, with a bound
    on the number of turns of its loop. *)
Fixpoint runThread (fuel : nat) (G : Level0QueueGroup) (s : State)
    : outcome :=
  match fuel with
  | 0 => OutOfFuel G s
  | S fuel =>
      match getWorkOrWait G with
      | (None, G') => Blocked G' s
      | (Some W, G') =>
          match runThread_body W s with
          | None => Aborted
          | Some (_, s') =>
              if ShouldExit W then Exited G' s' else runThread fuel G' s'
          end
      end
  end.

(** ** The device *)

Record Level0Device := {
  Info : Level0DeviceInfo;
  ComputeQueues : Level0QueueGroup;
  CopyQueues : Level0QueueGroup;
  UniversalQueues : Level0QueueGroup
}.

(** Modelled from the spec: [Level0QueueGroup::available] is declared in
    the header [level0-driver.hh]; a group is available once [init] has
    created its workers, which is when [init] sets [Available]. *)
Definition available (G : Level0QueueGroup) : bool := Available G.

(** The queue groups of a device. *)
Inductive group_name := Compute | Copy | Universal.

Global Instance group_name_eq_dec : EqDecision group_name.
Proof. solve_decision. Defined.

Definition group (D : Level0Device) (N : group_name) : Level0QueueGroup :=
  match N with
  | Compute => ComputeQueues D
  | Copy => CopyQueues D
  | Universal => UniversalQueues D
  end.

Definition set_group (N : group_name) (G : Level0QueueGroup)
    (D : Level0Device) : Level0Device :=
  {| Info := Info D;
     ComputeQueues := if decide (N = Compute) then G else ComputeQueues D;
     CopyQueues := if decide (N = Copy) then G else CopyQueues D;
     UniversalQueues :=
       if decide (N = Universal) then G else UniversalQueues D |}.

(** The commands [pushCommand] sends the way of kernels. *)
Definition is_compute_class (T : cl_command_type) : bool :=
  bool_decide (T = CL_COMMAND_NDRANGE_KERNEL)
  || bool_decide (T = CL_COMMAND_SVM_MEMFILL)
  || bool_decide (T = CL_COMMAND_MEMFILL_INTEL)
  || bool_decide (T = CL_COMMAND_FILL_BUFFER)
  || bool_decide (T = CL_COMMAND_FILL_IMAGE).

(** [Level0Device::pushCommand]. *)
Definition pushCommand (Command : cl_event) (D : Level0Device)
    : Level0Device :=
  if is_compute_class (type (node Command)) then
    if available (ComputeQueues D)
    then set_group Compute (pushWork Command (ComputeQueues D)) D
    else set_group Universal (pushWork Command (UniversalQueues D)) D
  else
    if available (CopyQueues D)
    then set_group Copy (pushWork Command (CopyQueues D)) D
    else set_group Universal (pushWork Command (UniversalQueues D)) D.

(** [Level0Device::pushCommandBatch]; [None] is the abort. *)
Definition pushCommandBatch (Batch : BatchType) (D : Level0Device)
    : option Level0Device :=
  if supportsCmdQBatching (Info D) then
    Some (set_group Universal
            (QueueGroup_pushCommandBatch Batch (UniversalQueues D)) D)
  else None.

(** ** Notions used to state the properties *)

(** The command [Command] went to the group [N] and nowhere else. *)
Definition pushed_to (Command : cl_event) (D D' : Level0Device)
    (N : group_name) : Prop :=
  WorkQueue (group D' N) = WorkQueue (group D N) ++ [Command]
  ∧ BatchWorkQueue (group D' N) = BatchWorkQueue (group D N)
  ∧ (∀ N', N' ≠ N → group D' N' = group D N')
  ∧ Info D' = Info D.

(** Follows the words of the design document, section 4.5: the compute
    group if it is available, else the copy group, else the universal
    group. *)
Definition spec_pushCommand_group (D : Level0Device) : group_name :=
  if available (ComputeQueues D) then Compute
  else if available (CopyQueues D) then Copy
  else Universal.

(** The group the code selects: by the class of the command first. *)
Definition pushCommand_group (D : Level0Device) (Command : cl_event)
    : group_name :=
  if is_compute_class (type (node Command))
  then (if available (ComputeQueues D) then Compute else Universal)
  else (if available (CopyQueues D) then Copy else Universal).

(** The group [G] without the front of the queue the worker takes from. *)
Definition pop_WorkQueue (G : Level0QueueGroup) : Level0QueueGroup :=
  {| WorkQueue := tail (WorkQueue G);
     BatchWorkQueue := BatchWorkQueue G;
     ThreadExitRequested := ThreadExitRequested G;
     Available := Available G |}.

Definition pop_BatchWorkQueue (G : Level0QueueGroup) : Level0QueueGroup :=
  {| WorkQueue := WorkQueue G;
     BatchWorkQueue := tail (BatchWorkQueue G);
     ThreadExitRequested := ThreadExitRequested G;
     Available := Available G |}.

(** The outcome of one turn of the loop that is the last one. *)
Definition last_turn (W : work) (G' : Level0QueueGroup) (s : State)
    : outcome :=
  match runThread_body W s with
  | Some (_, s') => Exited G' s'
  | None => Aborted
  end.

(** The events whose [pocl_exec_command], running or completion update is
    in a log: the commands that were executed. *)
Definition executed (l : list call) : list nat :=
  omap (λ c, match c with
             | POCL_UPDATE_EVENT_COMPLETE_MSG E _ => Some E
             | pocl_exec_command E => Some E
             | _ => None
             end) l.

(** *** Sample objects, for the examples *)

Definition sample_info : Level0DeviceInfo :=
  {| prefersZeQueues := true; prefersHostQueues := false;
     supportsCmdQBatching := true; supportsGlobalOffsets := true;
     getMaxWGSize := 256; dev_id := 0; can_migrate_d2d := false;
     ENABLE_NPU := false; EventPoolSize := 2;
     hasMemfillKernels := true; hasImagefillKernels := true |}.

Definition sample_state : State :=
  {| Device := sample_info; QueueH := Some 7; CmdListH := Some 1;
     CurrentEventH := None; PreviousEventH := None;
     AvailableDeviceEvents := []; DeviceEventsToReset := [];
     UseMemHostPtrsToSync := []; MemPtrsToMakeResident := [];
     Pools := {| EventPools := [Level0EventPool_new 0 2]; NextPoolH := 1 |};
     NextCmdListH := 2; ListCreateFails := false;
     CmdBufData := ∅; Log := [] |}.

(** A buffer with host pointer [hp], device pointer [dp] and flags [fl]. *)
Definition sample_buffer (hp dp fl : Z) : cl_mem :=
  {| flags := fl; mem_host_ptr := hp; mem_size := 64; is_image := false;
     IS_IMAGE1D_BUFFER := false; image_width := 0; image_height := 0;
     image_depth := 0; image_elem_size := 0; image_channels := 0;
     image_channel_data_type := 0; image_channel_order := 0; image_type := 0;
     device_ptrs := {| mem_ptr := dp; extra_ptr := 0 |} |}.

Definition sample_event (i : nat) (T : cl_command_type) (C : _cl_command_t)
    : cl_event :=
  {| event_id := i;
     node := {| type := T; command := C; migr_infos := [] |};
     command_buffer := None |}.

Definition sample_marker (i : nat) : cl_event :=
  sample_event i CL_COMMAND_MARKER cmd_none.

Definition sample_read (i : nat) : cl_event :=
  sample_event i CL_COMMAND_READ_BUFFER
    (cmd_read 5000 (sample_buffer 0 1000 0) 0 64).

Definition sample_group (Ws : list cl_event) (Bs : list BatchType)
    (Exit Avail : bool) : Level0QueueGroup :=
  {| WorkQueue := Ws; BatchWorkQueue := Bs;
     ThreadExitRequested := Exit; Available := Avail |}.

Definition sample_device (compute copy universal : bool) : Level0Device :=
  {| Info := sample_info;
     ComputeQueues := sample_group [] [] false compute;
     CopyQueues := sample_group [] [] false copy;
     UniversalQueues := sample_group [] [] false universal |}.

(** *** Building a list: what the log and the handle queues look like *)

(** The event an entry of the log signals. *)
Definition signal_of (c : call) : option ze_event_handle_t :=
  match c with
  | zeCommandListAppend _ _ hSignalEvent _ => hSignalEvent
  | _ => None
  end.

(** The events the entries of a log signal, in order. *)
Definition signals (d : list call) : list ze_event_handle_t :=
  omap signal_of d.

(** The two operations that end a list: only [closeCmdList] appends them. *)
Definition is_close_op (C : ze_command) : bool :=
  match C with
  | Barrier | EventReset _ => true
  | _ => false
  end.

(** The entries a worker adds while it fills the list [L]: operations on
    [L] other than the closing ones, residency calls, and calls into the
    rest of PoCL. *)
Definition is_build (L : option ze_command_list_handle_t) (c : call) : bool :=
  match c with
  | zeCommandListAppend L' C _ _ =>
      bool_decide (Some L' = L) && negb (is_close_op C)
  | zeContextMakeMemoryResident _ _
  | ops_migrate_d2d _ | pfn_free_func _ | clSVMFree _ => true
  | _ => false
  end.

(** The linear chain: every entry that signals an event waits for the
    event the signalling entry before it signalled, and the first one for
    [prev]. *)
Fixpoint chained (prev : option ze_event_handle_t) (d : list call) : Prop :=
  match d with
  | [] => True
  | zeCommandListAppend _ _ (Some E) phWaitEvents :: d =>
      phWaitEvents = prev ∧ chained (Some E) d
  | _ :: d => chained prev d
  end.

(** The handles a worker holds are pairwise distinct and were all handed
    out by the pools of its device, which are well formed. *)
Definition handles_wf (s : State) : Prop :=
  NoDup (AvailableDeviceEvents s ++ DeviceEventsToReset s)
  ∧ Forall (issued (Pools s))
      (AvailableDeviceEvents s ++ DeviceEventsToReset s)
  ∧ pools_wf (Pools s)
  ∧ 0 < EventPoolSize (Device s).

(** The state [s] of a worker that started to fill its list in state
    [s0], with no handle in use, and has not closed it yet. *)
Record building (s0 s : State) : Prop := {
  b_start_reset : DeviceEventsToReset s0 = [];
  b_start_cur : CurrentEventH s0 = None;
  b_Device : Device s = Device s0;
  b_QueueH : QueueH s = QueueH s0;
  b_CmdListH : CmdListH s = CmdListH s0;
  b_NextCmdListH : NextCmdListH s = NextCmdListH s0;
  b_ListCreateFails : ListCreateFails s = ListCreateFails s0;
  b_CmdBufData : CmdBufData s = CmdBufData s0;
  b_log : ∃ d, Log s = Log s0 ++ d
            ∧ Forall (λ c, is_build (CmdListH s0) c = true) d
            ∧ signals d = DeviceEventsToReset s
            ∧ chained None d;
  b_cur : CurrentEventH s = last (DeviceEventsToReset s);
  b_wf : handles_wf s0 → handles_wf s
}.

(** A computation that keeps the worker in the course of filling its
    list, and only adds to the log. *)
Definition preserves {A} (m : M A) : Prop :=
  ∀ s0 s a s', building s0 s → m s = Some (a, s') →
    building s0 s' ∧ Log s `prefix_of` Log s'.

(** The operations of the commands [Cmds] were appended one command after
    the other, in the order of the list: [d] is what they added to the
    log between the states [s] and [s']. *)
Inductive appended_in_order
    : list _cl_command_node → State → list call → State → Prop :=
  | in_order_nil s : appended_in_order [] s [] s
  | in_order_cons Cmd Cmds s Msg s1 d1 d2 s2 :
      appendEventToList Cmd s = Some (Msg, s1) →
      Log s1 = Log s ++ d1 →
      appended_in_order Cmds s1 d2 s2 →
      appended_in_order (Cmd :: Cmds) s (d1 ++ d2) s2.

(** What [closeCmdList] leaves as it is. *)
Definition close_frame (s s' : State) : Prop :=
  Device s' = Device s ∧ QueueH s' = QueueH s ∧ CmdListH s' = CmdListH s
  ∧ CurrentEventH s' = CurrentEventH s
  ∧ PreviousEventH s' = PreviousEventH s
  ∧ UseMemHostPtrsToSync s' = UseMemHostPtrsToSync s
  ∧ MemPtrsToMakeResident s' = MemPtrsToMakeResident s
  ∧ Pools s' = Pools s
  ∧ NextCmdListH s' = NextCmdListH s
  ∧ ListCreateFails s' = ListCreateFails s
  ∧ CmdBufData s' = CmdBufData s.

(** The entries [closeCmdList] adds to the log for the list [L] of a
    worker with current event [Cur], events to reset [ToReset] and
    queue [Q]. *)
Definition close_entries (L : ze_command_list_handle_t)
    (Cur : option ze_event_handle_t) (ToReset : list ze_event_handle_t)
    (Q : option ze_command_queue_handle_t) : list call :=
  [zeCommandListAppend L Barrier None Cur]
  ++ ((λ E, zeCommandListAppend L (EventReset E) None None) <$> ToReset)
  ++ match Q with Some _ => [zeCommandListClose L] | None => [] end.

(** One step of the construction of a list, before it is closed: the
    operations of a command, the residency calls, the copies to host
    pointers. *)
Inductive build_step : State → State → Prop :=
  | step_append Cmd s Msg s' :
      appendEventToList Cmd s = Some (Msg, s') → build_step s s'
  | step_resident s s' :
      makeMemResident s = Some (tt, s') → build_step s s'
  | step_sync s s' :
      syncMemHostPtrs s = Some (tt, s') → build_step s s'.

(** What [allocNextFreeEvent] leaves as it is. *)
Definition alloc_frame (s s' : State) : Prop :=
  Device s' = Device s ∧ QueueH s' = QueueH s ∧ CmdListH s' = CmdListH s
  ∧ NextCmdListH s' = NextCmdListH s
  ∧ ListCreateFails s' = ListCreateFails s
  ∧ CmdBufData s' = CmdBufData s ∧ Log s' = Log s
  ∧ UseMemHostPtrsToSync s' = UseMemHostPtrsToSync s
  ∧ MemPtrsToMakeResident s' = MemPtrsToMakeResident s.

(** The submissions and the waits for completion in a log. *)
Definition is_submit (c : call) : bool :=
  match c with
  | zeCommandQueueExecuteCommandLists _ _ => true
  | _ => false
  end.

Definition is_synchronize (c : call) : bool :=
  match c with
  | zeCommandQueueSynchronize _ | zeCommandListHostSynchronize _ => true
  | _ => false
  end.

(** The updates of [cl_event]s in a log, in order. *)
Definition is_event_update (c : call) : bool :=
  match c with
  | pocl_update_event_submitted _ | pocl_update_event_running _
  | POCL_UPDATE_EVENT_COMPLETE_MSG _ _ => true
  | _ => false
  end.

(** The entries with which [execCommandBatch] marks the events of a batch
    submitted and running, and then complete. *)
Definition batch_running (Batch : BatchType) : list call :=
  concat ((λ E, [pocl_update_event_submitted (event_id E);
                 pocl_update_event_running (event_id E)]) <$> Batch).

Definition batch_complete (Batch : BatchType) (Msgs : list string)
    : list call :=
  zip_with (λ E Msg, POCL_UPDATE_EVENT_COMPLETE_MSG (event_id E) Msg)
    Batch Msgs.

(** A launch of zero by one by one work-groups, without migrated
    buffers. *)
Definition sample_zero_launch : cl_event :=
  sample_event 1 CL_COMMAND_NDRANGE_KERNEL
    (cmd_run {| kernel_id := 0; num_builtin_kernels := 0;
                AccessedPointers := []; GraphH := 0 |}
       {| num_groups := (0, 1, 1)%Z; local_size := (1, 1, 1)%Z;
          global_offset := (0, 0, 0)%Z |} []).

(** The state in which [createCommandBuffer] starts to record, after it
    has created the new list. *)
Definition recording_start (s : State) : State :=
  set_CmdListH (Some (NextCmdListH s))
    (set_Log (Log s ++ [zeCommandListCreate (NextCmdListH s)])
       (set_NextCmdListH (S (NextCmdListH s)) (set_CmdListH None s))).

(** The residency calls for a list of pointers and sizes. *)
Definition residency_calls (Ptrs : list (Z * Z)) : list call :=
  (λ I, zeContextMakeMemoryResident I.1 I.2) <$> Ptrs.

(** The entries of one replay of the list [L] on the queue [Q] for the
    event [E]. *)
Definition replay_entries (Q : ze_command_queue_handle_t)
    (L : ze_command_list_handle_t) (E : cl_event) : list call :=
  [zeCommandQueueExecuteCommandLists Q L;
   pocl_update_event_running (event_id E);
   zeCommandQueueSynchronize Q;
   POCL_UPDATE_EVENT_COMPLETE_MSG (event_id E) "Event Command Buffer"].

(** The slot of a command buffer on the device of a worker. *)
Definition slot_of (CmdBuf : cl_command_buffer_khr) (s : State) : nat * nat :=
  (cmdbuf_id CmdBuf, dev_id (Device s)).

(** The data of a command buffer after a replay: the residency list has
    been handed to the worker and cleared by it. *)
Definition replayed (Data : Level0CmdBufferData) : Level0CmdBufferData :=
  {| CB_CmdListH := CB_CmdListH Data;
     CB_Events := CB_Events Data;
     CB_MemPtrsToMakeResident := [] |}.

(** A command buffer with a fill of 1024 bytes and a copy of them to a
    second buffer, and an event that replays it. *)
Definition sample_cmdbuf : cl_command_buffer_khr :=
  {| cmdbuf_id := 0;
     cmds :=
       [{| type := CL_COMMAND_FILL_BUFFER;
           command := cmd_memfill (sample_buffer 0 1000 0) 1024 0 1;
           migr_infos := [] |};
        {| type := CL_COMMAND_COPY_BUFFER;
           command := cmd_copy (sample_buffer 0 3000 0) (sample_buffer 0 1000 0)
                        0 0 1024;
           migr_infos := [] |}] |}.


(** A copy of a rectangle of four by four bytes into a buffer that uses a
    host pointer (6000) other than its device pointer (1000). *)
Definition sample_copy_rect : _cl_command_node :=
  {| type := CL_COMMAND_COPY_BUFFER_RECT;
     command := cmd_copy_rect (sample_buffer 6000 1000 CL_MEM_USE_HOST_PTR)
                  (sample_buffer 0 2000 0) (0, 0, 0)%Z (0, 0, 0)%Z
                  (4, 4, 1)%Z 4 16 4 16;
     migr_infos := [] |}.


(** The condition of the loop of [memfillImpl]. *)
Definition memfill_continues (TotalWGsX WGSizeX MaxWG : Z) : bool :=
  (1 <? TotalWGsX)%Z && (Z.land TotalWGsX 1 =? 0)%Z && (WGSizeX <=? MaxWG)%Z.

(** The entries with which [execCommand] submits the list [L] to the queue
    [Q], marks the event running, waits, and marks it complete. *)
Definition submit_entries (Q : ze_command_queue_handle_t)
    (L : ze_command_list_handle_t) (E : cl_event) (Msg : string) : list call :=
  [zeCommandQueueExecuteCommandLists Q L;
   pocl_update_event_running (event_id E);
   zeCommandQueueSynchronize Q;
   POCL_UPDATE_EVENT_COMPLETE_MSG (event_id E) Msg].

(** The turns of the loop of [runThread] for the single commands [Cs]
    and then for the batches [Bs], one after the other, in the order of
    the lists. *)
Definition command_turn (C : cl_event) : M unit :=
  runThread_body {| Node := Some C; WorkBatch := []; ShouldExit := false |}.

Definition batch_turn (B : BatchType) : M unit :=
  runThread_body {| Node := None; WorkBatch := B; ShouldExit := false |}.

Definition run_turns (Cs : list cl_event) (Bs : list BatchType) : M unit :=
  for_each Cs command_turn ;; for_each Bs batch_turn.

(** A group with nothing left to do. *)
Definition drained (G : Level0QueueGroup) : Level0QueueGroup :=
  {| WorkQueue := []; BatchWorkQueue := [];
     ThreadExitRequested := ThreadExitRequested G;
     Available := Available G |}.

(** The handle queues of a worker and the pools of its device are the
    same in two states. *)
Definition same_handles (s s' : State) : Prop :=
  AvailableDeviceEvents s' = AvailableDeviceEvents s
  ∧ DeviceEventsToReset s' = DeviceEventsToReset s
  ∧ Pools s' = Pools s
  ∧ Device s' = Device s.



(** The sample worker on a driver that refuses to create lists. *)
Definition sample_state_refusing : State :=
  {| Device := sample_info; QueueH := Some 7; CmdListH := Some 1;
     CurrentEventH := None; PreviousEventH := None;
     AvailableDeviceEvents := []; DeviceEventsToReset := [];
     UseMemHostPtrsToSync := []; MemPtrsToMakeResident := [];
     Pools := {| EventPools := [Level0EventPool_new 0 2]; NextPoolH := 1 |};
     NextCmdListH := 2; ListCreateFails := true;
     CmdBufData := ∅; Log := [] |}.

(** The memory copies [(Dst, Src, Size)] among the entries of a log, in
    order. *)
Definition memory_copies (d : list call) : list (Z * Z * Z) :=
  omap (λ c, match c with
             | zeCommandListAppend _ (MemoryCopy Dst Src Size) _ _ =>
                 Some (Dst, Src, Size)
             | _ => None
             end) d.

(** The bytes a memory copy moves: the pairs of the address written and
    the address read, from the first byte to the last. *)
Definition copy_bytes (c : Z * Z * Z) : list (Z * Z) :=
  (λ i, (ptr_add c.1.1 i, ptr_add c.1.2 i)) <$> seqZ 0 c.2.

(** The bytes the memory copies of a log move, in order. *)
Definition transferred (d : list call) : list (Z * Z) :=
  memory_copies d ≫= copy_bytes.

(** The address of byte [i] of row [j] of slice [k] of a region that
    starts at [Origin] in a rectangle at [Ptr] with the given pitches. *)
Definition rect_byte (Ptr : Z) (Origin : size3) (RowPitch SlicePitch : Z)
    (j k i : Z) : Z :=
  wrap64 (Ptr + at2 Origin * SlicePitch + at1 Origin * RowPitch + at0 Origin
          + RowPitch * j + SlicePitch * k + i).

(** The rows [(j, k)] of a region, slice after slice. *)
Definition rect_rows (Region : size3) : list (Z * Z) :=
  k ← seqZ 0 (at2 Region); j ← seqZ 0 (at1 Region); [(j, k)].

(** The transfer of a region between two rectangles, byte by byte: row
    after row, slice after slice. *)
Definition rect_transfer (DstPtr SrcPtr : Z)
    (DstOrigin SrcOrigin Region : size3)
    (DstRowPitch DstSlicePitch SrcRowPitch SrcSlicePitch : Z)
    : list (Z * Z) :=
  rect_rows Region ≫= λ r,
    (λ i, (rect_byte DstPtr DstOrigin DstRowPitch DstSlicePitch r.1 r.2 i,
           rect_byte SrcPtr SrcOrigin SrcRowPitch SrcSlicePitch r.1 r.2 i))
    <$> seqZ 0 (at0 Region).

(** An entry that appends a memory copy with a new handle to the list
    [L]. *)
Definition is_chained_copy (L : ze_command_list_handle_t) (c : call) : Prop :=
  ∃ Dst Src Size E W,
    c = zeCommandListAppend L (MemoryCopy Dst Src Size) (Some E) W.

(** ** The hash of the helper programs *)

(** The two characters [calculateHash] writes for a byte of the digest:
    the low four bits first, then the high four bits, each added to the
    code of ['A']. *)
Definition hash_chars (b : Z) : list Z :=
  [(Z.land b 15 + 65)%Z; (Z.shiftr (Z.land b 240) 4 + 65)%Z].

(** [calculateHash]: the string written to [BuildHash], with its final
    zero.  The digest [TempDigest] is what [pocl_SHA1_Final] returns for
    the data; characters are their codes, and ['/'] is 47. *)
Definition calculateHash (pocl_SHA1 : list Z → list Z) (Data : list Z)
    : list Z :=
  let TempDigest := pocl_SHA1 Data in
  <[2 := 47%Z]> ((TempDigest ≫= hash_chars) ++ [0%Z]).

(** A byte. *)
Definition is_byte (b : Z) : Prop := (0 ≤ b < 256)%Z.

(** ** The pools a device starts with *)

(** [EventPools.emplace_back(this, EventPoolSize)]. *)
Definition emplace_back (EventPoolSize : nat) (D : EventPoolSet)
    : EventPoolSet :=
  {| EventPools :=
       EventPools D ++ [Level0EventPool_new (NextPoolH D) EventPoolSize];
     NextPoolH := S (NextPoolH D) |}.

(** The end of [Level0Device::Level0Device]: four pools, each one added
    at the back of the list.  [H0] is the first pool handle the driver
    returns. *)
Definition Level0Device_EventPools (EventPoolSize : nat)
    (H0 : ze_event_pool_handle_t) : EventPoolSet :=
  Nat.iter 4 (emplace_back EventPoolSize)
    {| EventPools := []; NextPoolH := H0 |}.

(** The most recent pool, as the design document has it: the pool that
    was created last, which is the one with the greatest native handle,
    the driver handing them out in ascending order. *)
Definition spec_most_recent_pool (D : EventPoolSet)
    : option Level0EventPool :=
  foldr (λ P acc,
           match acc with
           | Some Q => if EvtPoolH Q <? EvtPoolH P then Some P else Some Q
           | None => Some P
           end) None (EventPools D).

(** ** The queue groups a device sets up *)

(** [ze_command_queue_group_properties_t], with the fields the device
    reads. *)
Record ze_command_queue_group_properties_t := {
  qg_flags : Z;
  numQueues : Z;
  maxMemoryFillPatternSize : Z
}.

(** Bits of [ze_command_queue_group_property_flags_t], from [ze_api.h]. *)
Definition ZE_COMMAND_QUEUE_GROUP_PROPERTY_FLAG_COMPUTE : Z := 1.
Definition ZE_COMMAND_QUEUE_GROUP_PROPERTY_FLAG_COPY : Z := 2.

(** The six local variables of [setupQueueGroupProperties]. *)
Record queue_ordinals := {
  UniversalQueueOrd : Z;
  CopyQueueOrd : Z;
  ComputeQueueOrd : Z;
  NumUniversalQueues : Z;
  NumCopyQueues : Z;
  NumComputeQueues : Z
}.

(** One turn of the loop over the properties, for the entry [P] at index
    [i]. *)
Definition scan_queue_group (i : Z) (P : ze_command_queue_group_properties_t)
    (o : queue_ordinals) : queue_ordinals :=
  let IsCompute :=
    has_flag (qg_flags P) ZE_COMMAND_QUEUE_GROUP_PROPERTY_FLAG_COMPUTE in
  let IsCopy :=
    has_flag (qg_flags P) ZE_COMMAND_QUEUE_GROUP_PROPERTY_FLAG_COPY in
  let o :=
    if IsCompute && IsCopy && (UniversalQueueOrd o =? UINT32_MAX)%Z
    then {| UniversalQueueOrd := i; CopyQueueOrd := CopyQueueOrd o;
            ComputeQueueOrd := ComputeQueueOrd o;
            NumUniversalQueues := numQueues P;
            NumCopyQueues := NumCopyQueues o;
            NumComputeQueues := NumComputeQueues o |}
    else o in
  let o :=
    if IsCompute && negb IsCopy && (ComputeQueueOrd o =? UINT32_MAX)%Z
    then {| UniversalQueueOrd := UniversalQueueOrd o;
            CopyQueueOrd := CopyQueueOrd o;
            ComputeQueueOrd := i;
            NumUniversalQueues := NumUniversalQueues o;
            NumCopyQueues := NumCopyQueues o;
            NumComputeQueues := numQueues P |}
    else o in
  if negb IsCompute && IsCopy && (CopyQueueOrd o =? UINT32_MAX)%Z
  then {| UniversalQueueOrd := UniversalQueueOrd o;
          CopyQueueOrd := i;
          ComputeQueueOrd := ComputeQueueOrd o;
          NumUniversalQueues := NumUniversalQueues o;
          NumCopyQueues := numQueues P;
          NumComputeQueues := NumComputeQueues o |}
  else o.

(** The loop, from index [i] on. *)
Fixpoint scan_queue_groups (i : Z)
    (QGroupProps : list ze_command_queue_group_properties_t)
    (o : queue_ordinals) : queue_ordinals :=
  match QGroupProps with
  | [] => o
  | P :: QGroupProps =>
      scan_queue_groups (i + 1) QGroupProps (scan_queue_group i P o)
  end.

(** A call [Group.init(Ordinal, Count, this, MaxPatternSize)]. *)
Record init_call := {
  init_group : group_name;
  init_Ordinal : Z;
  init_Count : Z;
  init_MaxPatternSize : Z
}.

(** [QGroupProps[Ord].maxMemoryFillPatternSize]. *)
Definition pattern_size_at
    (QGroupProps : list ze_command_queue_group_properties_t) (Ord : Z) : Z :=
  from_option maxMemoryFillPatternSize 0%Z (QGroupProps !! Z.to_nat Ord).

(** [Level0QueueGroup::init], as far as [setupQueueGroupProperties]
    depends on it: the call it is, after its [assert(Count > 0)] on the
    [unsigned] count; [None] is the failed assertion.  The caller does
    not look at what [init] returns. *)
Definition Level0QueueGroup_init (N : group_name)
    (Ordinal Count MaxPatternSize : Z) : option init_call :=
  if (Count =? 0)%Z then None
  else Some {| init_group := N; init_Ordinal := Ordinal;
               init_Count := Count; init_MaxPatternSize := MaxPatternSize |}.

(** [Level0Device::setupQueueGroupProperties]: the result, and the calls
    of [init] it makes, in order; [None] when an assertion of [init]
    fails.  [Res] is whether [zeDeviceGetCommandQueueGroupProperties]
    succeeds and [QGroupProps] are the [QGroupPropCount] entries it fills
    in, at most [MaxPropertyEntries] of them. *)
Definition setupQueueGroupProperties (Res : bool)
    (QGroupProps : list ze_command_queue_group_properties_t)
    : option (bool * list init_call) :=
  if negb Res then Some (false, [])
  else
    let o :=
      scan_queue_groups 0 QGroupProps
        {| UniversalQueueOrd := UINT32_MAX; CopyQueueOrd := UINT32_MAX;
           ComputeQueueOrd := UINT32_MAX; NumUniversalQueues := 0;
           NumCopyQueues := 0; NumComputeQueues := 0 |} in
    if (UniversalQueueOrd o =? UINT32_MAX)%Z
       && ((ComputeQueueOrd o =? UINT32_MAX)%Z
           || (CopyQueueOrd o =? UINT32_MAX)%Z)
    then Some (false, [])
    else
      c1 ← (if negb (ComputeQueueOrd o =? UINT32_MAX)%Z
            then c ← Level0QueueGroup_init Compute (ComputeQueueOrd o)
                       (NumComputeQueues o)
                       (pattern_size_at QGroupProps (ComputeQueueOrd o));
                 Some [c]
            else Some []);
      c2 ← (if negb (CopyQueueOrd o =? UINT32_MAX)%Z
            then c ← Level0QueueGroup_init Copy (CopyQueueOrd o)
                       (NumCopyQueues o)
                       (pattern_size_at QGroupProps (CopyQueueOrd o));
                 Some [c]
            else Some []);
      c3 ← (if negb (UniversalQueueOrd o =? UINT32_MAX)%Z
            then c ← Level0QueueGroup_init Universal (UniversalQueueOrd o)
                       (Z.max 1 (NumUniversalQueues o))
                       (pattern_size_at QGroupProps (UniversalQueueOrd o));
                 Some [c]
            else Some []);
      Some (true, c1 ++ c2 ++ c3).

(** [MaxPropertyEntries]. *)
Definition MaxPropertyEntries : nat := 32.

(** The kind of a group of queues: universal when it computes and
    copies, else what it does, if any of the two. *)
Definition queue_kind (P : ze_command_queue_group_properties_t)
    : option group_name :=
  match has_flag (qg_flags P) ZE_COMMAND_QUEUE_GROUP_PROPERTY_FLAG_COMPUTE,
        has_flag (qg_flags P) ZE_COMMAND_QUEUE_GROUP_PROPERTY_FLAG_COPY with
  | true, true => Some Universal
  | true, false => Some Compute
  | false, true => Some Copy
  | false, false => None
  end.

(** The first entry of kind [N], with its index, counted from [i]. *)
Fixpoint first_of_kind (N : group_name) (i : Z)
    (QGroupProps : list ze_command_queue_group_properties_t)
    : option (Z * ze_command_queue_group_properties_t) :=
  match QGroupProps with
  | [] => None
  | P :: QGroupProps =>
      if decide (queue_kind P = Some N) then Some (i, P)
      else first_of_kind N (i + 1) QGroupProps
  end.

(** The call of [init] for the group [N], if the properties have an
    entry of its kind: for the first such entry. *)
Definition init_for (N : group_name)
    (QGroupProps : list ze_command_queue_group_properties_t)
    : option init_call :=
  (λ iP, {| init_group := N; init_Ordinal := iP.1;
            init_Count := match N with
                          | Universal => Z.max 1 (numQueues iP.2)
                          | _ => numQueues iP.2
                          end;
            init_MaxPatternSize := maxMemoryFillPatternSize iP.2 |})
  <$> first_of_kind N 0 QGroupProps.

(** The groups for which [init] is called. *)
Definition initialised (calls : list init_call) (N : group_name) : bool :=
  bool_decide (N ∈ init_group <$> calls).

(** ** Buffers shared between devices through a DMA buffer *)

(** What [allocUSMHostMem] is given as [pNext] by [DMABufAllocation]: the
    request to export the memory, or the file descriptor to import. *)
Inductive ze_external_memory :=
| export_desc
| import_fd (fd : Z).

(** The calls of Level Zero made for an allocation, with what they
    answer: the pointer [zeMemAllocHost] writes if it succeeds, the
    result and the file descriptor of [zeMemGetAllocProperties].  A
    device is the pointer to its [Level0Device]; the call is made in its
    context.  The alignment [allocUSMHostMem] computes from the size is
    left out. *)
Inductive ze_mem_call :=
| zeMemAllocHost (D : Z) (pNext : ze_external_memory) (HostFlags Size : Z)
    (answer : option Z)
| zeMemGetAllocProperties (D Ptr : Z) (Res : bool) (fd : Z)
| zeMemFree (D Ptr : Z).

(** The fields of [DMABufAllocation]; [BufferImportMap] is a
    [std::map] from devices to pointers. *)
Record DMABufAllocation := {
  BufferImportMap : gmap Z Z;
  ExportDev : Z;
  ExportPtr : Z;
  FD : Z
}.

Definition set_BufferImportMap (M : gmap Z Z) (A : DMABufAllocation)
    : DMABufAllocation :=
  {| BufferImportMap := M; ExportDev := ExportDev A;
     ExportPtr := ExportPtr A; FD := FD A |}.

(** [Level0Device::allocUSMHostMem]: the pointer of [zeMemAllocHost], or
    null when the call fails. *)
Definition allocUSMHostMem (D : Z) (pNext : ze_external_memory)
    (HostFlags Size : Z) (answer : option Z) : Z * list ze_mem_call :=
  (from_option id nullptr answer,
   [zeMemAllocHost D pNext HostFlags Size answer]).

(** [Level0Device::freeUSMMem]. *)
Definition freeUSMMem (D Ptr : Z) : list ze_mem_call :=
  if decide (Ptr = nullptr) then [] else [zeMemFree D Ptr].

(** [DMABufAllocation::allocExport]: the pointer returned, the
    allocation afterwards and the calls made.  [None] is a failed
    [assert], or a call through a null device. *)
Definition allocExport (D HostFlags Size : Z) (answer : option Z)
    (Res : bool) (fd : Z) (A : DMABufAllocation)
    : option (Z * DMABufAllocation * list ze_mem_call) :=
  if decide (ExportPtr A ≠ nullptr) then Some (ExportPtr A, A, [])
  else if decide (D = nullptr) then None
  else
    let '(Ptr, calls) := allocUSMHostMem D export_desc HostFlags Size answer in
    if negb (FD A <? 0)%Z then None
    else
      let calls := calls ++ [zeMemGetAllocProperties D Ptr Res fd] in
      if negb Res then None
      else if (fd =? 0)%Z then None
      else if negb (Ptr =? nullptr)%Z && (0 <=? fd)%Z then
        Some (Ptr,
              {| BufferImportMap := BufferImportMap A; ExportDev := D;
                 ExportPtr := Ptr; FD := fd |},
              calls)
      else Some (nullptr, A, calls).

(** [DMABufAllocation::allocImport].  [BufferImportMap[D]] adds an entry
    with a null pointer when the device has none. *)
Definition allocImport (D HostFlags Size : Z) (answer : option Z)
    (A : DMABufAllocation)
    : option (Z * DMABufAllocation * list ze_mem_call) :=
  let cur := default nullptr (BufferImportMap A !! D) in
  let A := set_BufferImportMap (<[D := cur]> (BufferImportMap A)) A in
  if decide (cur ≠ nullptr) then Some (cur, A, [])
  else if decide (ExportDev A = nullptr) then None
  else if decide (ExportPtr A = nullptr) then None
  else if negb (0 <=? FD A)%Z then None
  else if decide (D = nullptr) then None
  else
    let '(Ptr, calls) :=
      allocUSMHostMem D (import_fd (FD A)) HostFlags Size answer in
    let A :=
      if decide (Ptr ≠ nullptr)
      then set_BufferImportMap (<[D := Ptr]> (BufferImportMap A)) A
      else A in
    Some (Ptr, A, calls).

(** [DMABufAllocation::free]. *)
Definition DMABufAllocation_free (D : Z) (A : DMABufAllocation)
    : option (bool * DMABufAllocation * list ze_mem_call) :=
  if decide (D = ExportDev A) then
    if decide (BufferImportMap A = ∅) then
      if decide (D = nullptr) then None
      else
        Some (true,
              {| BufferImportMap := BufferImportMap A; ExportDev := nullptr;
                 ExportPtr := nullptr; FD := -1 |},
              freeUSMMem D (ExportPtr A))
    else Some (false, A, [])
  else
    match BufferImportMap A !! D with
    | None => Some (false, A, [])
    | Some Ptr =>
        if decide (D = nullptr) then None
        else
          Some (true,
                set_BufferImportMap (delete D (BufferImportMap A)) A,
                freeUSMMem D Ptr)
    end.

(** [DMABufAllocation::~DMABufAllocation]: one [freeUSMMem] for each
    entry of the map, then one for the exported memory.  The entries are
    taken in the order of [map_to_list], where [std::map] takes them by
    ascending key. *)
Definition DMABufAllocation_destroy (A : DMABufAllocation)
    : list ze_mem_call :=
  (map_to_list (BufferImportMap A) ≫= λ DevPtr, freeUSMMem DevPtr.1 DevPtr.2)
  ++ (if decide (ExportDev A ≠ nullptr ∧ ExportPtr A ≠ nullptr)
      then freeUSMMem (ExportDev A) (ExportPtr A) else []).

(** A use of an allocation, with the answers of Level Zero. *)
Inductive dmabuf_op :=
| OpExport (D HostFlags Size : Z) (answer : option Z) (Res : bool) (fd : Z)
| OpImport (D HostFlags Size : Z) (answer : option Z)
| OpFree (D : Z).

Definition run_op (o : dmabuf_op) (A : DMABufAllocation)
    : option (DMABufAllocation * list ze_mem_call) :=
  match o with
  | OpExport D HostFlags Size answer Res fd =>
      r ← allocExport D HostFlags Size answer Res fd A; Some (r.1.2, r.2)
  | OpImport D HostFlags Size answer =>
      r ← allocImport D HostFlags Size answer A; Some (r.1.2, r.2)
  | OpFree D => r ← DMABufAllocation_free D A; Some (r.1.2, r.2)
  end.

Fixpoint run_ops (ops : list dmabuf_op) (A : DMABufAllocation)
    : option (DMABufAllocation * list ze_mem_call) :=
  match ops with
  | [] => Some (A, [])
  | o :: ops =>
      r ← run_op o A; r' ← run_ops ops r.1; Some (r'.1, r.2 ++ r'.2)
  end.

(** The memory a call obtains: the device and the pointer. *)
Definition obtained (c : ze_mem_call) : list (Z * Z) :=
  match c with
  | zeMemAllocHost D _ _ _ (Some Ptr) =>
      if decide (Ptr = nullptr) then [] else [(D, Ptr)]
  | _ => []
  end.

(** The memory a call frees. *)
Definition freed (c : ze_mem_call) : list (Z * Z) :=
  match c with
  | zeMemFree D Ptr => [(D, Ptr)]
  | _ => []
  end.

(** The memory for which no file descriptor was obtained. *)
Definition dropped (c : ze_mem_call) : list (Z * Z) :=
  match c with
  | zeMemGetAllocProperties D Ptr _ fd =>
      if decide (Ptr ≠ nullptr ∧ (fd < 0)%Z) then [(D, Ptr)] else []
  | _ => []
  end.

(** The memory an import map holds. *)
Definition held_imports (M : gmap Z Z) : list (Z * Z) :=
  filter (λ DevPtr, DevPtr.2 ≠ nullptr) (map_to_list M).

(** The memory an allocation holds. *)
Definition held (A : DMABufAllocation) : list (Z * Z) :=
  (if decide (ExportPtr A = nullptr) then []
   else [(ExportDev A, ExportPtr A)])
  ++ held_imports (BufferImportMap A).

(** The allocation [free] leaves when it frees the exported memory: no
    device, no pointer, no file descriptor. *)
Definition released (M : gmap Z Z) : DMABufAllocation :=
  {| BufferImportMap := M; ExportDev := nullptr; ExportPtr := nullptr;
     FD := -1 |}.

(** An allocation after a successful export. *)
Definition sample_export : DMABufAllocation :=
  {| BufferImportMap := ∅; ExportDev := 10; ExportPtr := 1000; FD := 5 |}.

(** An export, an import that fails, an import that succeeds, and the
    import freed. *)
Definition sample_ops : list dmabuf_op :=
  [OpExport 10 0 64 (Some 1000%Z) true 5; OpImport 20 0 64 None;
   OpImport 30 0 64 (Some 3000%Z); OpFree 30].

(** What an allocation keeps: exported memory has a device. *)
Definition dmabuf_wf (A : DMABufAllocation) : Prop :=
  ExportPtr A ≠ nullptr → ExportDev A ≠ nullptr.

(** ** Residency of the memory a kernel accesses *)

(** A [std::map] from pointers to sizes: the keys ascend strictly. *)
Fixpoint is_map (m : list (Z * Z)) : Prop :=
  match m with
  | [] => True
  | a :: m => Forall (λ b, (a.1 < b.1)%Z) m ∧ is_map m
  end.

(** [MemPtrsToMakeResident[Ptr] = Size] for each of the entries [Is], in
    their order. *)
Definition assign_all (Is : list (Z * Z)) (m : list (Z * Z))
    : list (Z * Z) :=
  foldl (λ m I, map_assign Z.ltb I.1 I.2 m) m Is.

(** A kernel that accesses two pointers indirectly, and its launch. *)
Definition sample_kernel : cl_kernel :=
  {| kernel_id := 1; num_builtin_kernels := 0;
     AccessedPointers := [(4096, 64); (8192, 128)]%Z; GraphH := 0 |}.

Definition sample_launch : pocl_context :=
  {| num_groups := (2, 1, 1)%Z; local_size := (8, 1, 1)%Z;
     global_offset := (0, 0, 0)%Z |}.

(** A command buffer with one launch of the sample kernel, and an event
    that replays it. *)
Definition sample_kernel_cmdbuf : cl_command_buffer_khr :=
  {| cmdbuf_id := 1;
     cmds := [{| type := CL_COMMAND_NDRANGE_KERNEL;
                 command := cmd_run sample_kernel sample_launch [];
                 migr_infos := [] |}] |}.

Definition sample_kernel_replay (i : nat) : cl_event :=
  {| event_id := i;
     node := {| type := CL_COMMAND_COMMAND_BUFFER_KHR; command := cmd_none;
                migr_infos := [] |};
     command_buffer := Some sample_kernel_cmdbuf |}.


(** The residency calls in a log. *)
Definition is_residency (c : call) : bool :=
  match c with
  | zeContextMakeMemoryResident _ _ => true
  | _ => false
  end.
(** * Properties *)

(** ** Dispatch by the device *)

Lemma group_set_group_eq N G D : group (set_group N G D) N = G.
Proof. by destruct N. Qed.

Lemma group_set_group_ne N N' G D :
  N' ≠ N → group (set_group N G D) N' = group D N'.
Proof. by destruct N, N'. Qed.

Lemma pushed_to_set_group Command D N :
  pushed_to Command D (set_group N (pushWork Command (group D N)) D) N.
Proof.
  unfold pushed_to. rewrite group_set_group_eq. repeat split.
  intros N' HN'. by apply group_set_group_ne.
Qed.

(** C6, as the code has it: [pushCommand] classifies the command as
    compute-class (kernel launches and fills) or copy-class (all others);
    a compute-class command goes to the compute group if that is
    available and else to the universal group, a copy-class command goes
    to the copy group if that is available and else to the universal
    group.  The command is appended to the work queue of that group and
    nothing else changes. *)
Theorem C6_pushCommand_by_class (Command : cl_event) (D : Level0Device) :
  pushed_to Command D (pushCommand Command D) (pushCommand_group D Command).
Proof.
  unfold pushCommand, pushCommand_group.
  destruct (is_compute_class _).
  - destruct (available (ComputeQueues D));
      [apply (pushed_to_set_group _ _ Compute)
      |apply (pushed_to_set_group _ _ Universal)].
  - destruct (available (CopyQueues D));
      [apply (pushed_to_set_group _ _ Copy)
      |apply (pushed_to_set_group _ _ Universal)].
Qed.

(** C6, as the design document words it, fails: with all three groups
    available a read-buffer command goes to the copy group, not to the
    compute group. *)
Lemma C6_counterexample :
  spec_pushCommand_group (sample_device true true true) = Compute
  ∧ ¬ pushed_to (sample_read 1) (sample_device true true true)
        (pushCommand (sample_read 1) (sample_device true true true))
        (spec_pushCommand_group (sample_device true true true)).
Proof.
  split; [reflexivity|].
  intros [H _]. vm_compute in H. discriminate H.
Qed.

(** C9: [pushCommandBatch] aborts exactly on a device without support for
    batching; with support it returns, the batch is appended to the batch
    queue of the universal group, and nothing else changes. *)
Theorem C9_pushCommandBatch (Batch : BatchType) (D : Level0Device) :
  match pushCommandBatch Batch D with
  | None => supportsCmdQBatching (Info D) = false
  | Some D' =>
      supportsCmdQBatching (Info D) = true
      ∧ BatchWorkQueue (UniversalQueues D')
        = BatchWorkQueue (UniversalQueues D) ++ [Batch]
      ∧ WorkQueue (UniversalQueues D') = WorkQueue (UniversalQueues D)
      ∧ ComputeQueues D' = ComputeQueues D
      ∧ CopyQueues D' = CopyQueues D
      ∧ Info D' = Info D
  end.
Proof.
  unfold pushCommandBatch.
  destruct (supportsCmdQBatching (Info D)); [|done].
  by repeat split.
Qed.

(** ** The loop of the worker thread *)

Lemma getWorkOrWait_ShouldExit G W G' :
  getWorkOrWait G = (Some W, G') →
  ShouldExit W = ThreadExitRequested G
  ∧ ThreadExitRequested G' = ThreadExitRequested G.
Proof.
  unfold getWorkOrWait. intros H.
  destruct (WorkQueue G) eqn:HW; [destruct (BatchWorkQueue G) eqn:HB|].
  - destruct (ThreadExitRequested G) eqn:HE; simplify_eq/=. by rewrite HE.
  - by simplify_eq/=.
  - by simplify_eq/=.
Qed.

Lemma runThread_no_exit_without_request fuel G s :
  ThreadExitRequested G = false → ∀ G' s', runThread fuel G s ≠ Exited G' s'.
Proof.
  revert G s. induction fuel as [|fuel IH]; intros G s HE G' s'; [done|].
  simpl. destruct (getWorkOrWait G) as [[W|] G1] eqn:HG; [|done].
  destruct (getWorkOrWait_ShouldExit _ _ _ HG) as [HW HG1].
  destruct (runThread_body W s) as [[[] s1]|]; [|done].
  rewrite HW, HE. apply IH. by rewrite HG1.
Qed.

(** C8, as the code has it: the loop of [runThread] ends only after
    [ThreadExitRequested] has been set.  On the turn on which
    [getWorkOrWait] sees the flag, the worker still takes and executes the
    front of the work queue, or else the front of the batch queue, if
    there is one, and then ends the loop: with no work left it ends at
    once, and what is behind the front of a queue is not executed by this
    worker. *)
Theorem C8_runThread_exit (fuel : nat) (G : Level0QueueGroup) (s : State) :
  (ThreadExitRequested G = false →
     ∀ G' s', runThread fuel G s ≠ Exited G' s')
  ∧ (ThreadExitRequested G = true →
     runThread (S fuel) G s =
       match WorkQueue G, BatchWorkQueue G with
       | C :: _, _ =>
           last_turn {| Node := Some C; WorkBatch := []; ShouldExit := true |}
             (pop_WorkQueue G) s
       | [], B :: _ =>
           last_turn {| Node := None; WorkBatch := B; ShouldExit := true |}
             (pop_BatchWorkQueue G) s
       | [], [] => Exited G s
       end).
Proof.
  split; [apply runThread_no_exit_without_request|].
  intros HE. simpl. unfold getWorkOrWait, last_turn. rewrite HE.
  destruct (WorkQueue G) as [|C Rest] eqn:HW;
    [destruct (BatchWorkQueue G) as [|B Rest] eqn:HB|]; simpl.
  - reflexivity.
  - unfold pop_BatchWorkQueue. rewrite HW, HB, HE. simpl.
    by destruct (runThread_body _ s) as [[[] ?]|].
  - unfold pop_WorkQueue. rewrite HW, HE. simpl.
    by destruct (runThread_body _ s) as [[[] ?]|].
Qed.


(** The theorem at work: shutdown requested and two markers in the work
    queue. *)
Lemma C8_runThread_exit_witness :
  runThread 1 (sample_group [sample_marker 1; sample_marker 2] [] true true)
    sample_state
  = last_turn
      {| Node := Some (sample_marker 1); WorkBatch := []; ShouldExit := true |}
      (sample_group [sample_marker 2] [] true true) sample_state.
Proof.
  rewrite (proj2 (C8_runThread_exit 0
                    (sample_group [sample_marker 1; sample_marker 2] []
                       true true)
                    sample_state) eq_refl).
  reflexivity.
Defined.

(** C8, as the design document words it, fails: the loop can end with
    shutdown requested while work remains.  With the flag set and two
    markers in the work queue the worker executes the first one only and
    ends its loop; the second stays in the queue. *)
Lemma C8_counterexample :
  ¬ (∀ fuel G s G' s',
       ThreadExitRequested G = true →
       runThread fuel G s = Exited G' s' →
       WorkQueue G' = [] ∧ BatchWorkQueue G' = []
       ∧ executed (Log s') = event_id <$> WorkQueue G).
Proof.
  intros H.
  assert (∃ G' s',
            runThread 5
              (sample_group [sample_marker 1; sample_marker 2] [] true true)
              sample_state = Exited G' s'
            ∧ WorkQueue G' = [sample_marker 2]
            ∧ executed (Log s') = [1]) as (G' & s' & Hrun & HW & _).
  { eexists _, _. split; [vm_compute; reflexivity|]. split; reflexivity. }
  apply H in Hrun as (HW' & _); [|reflexivity].
  rewrite HW in HW'. discriminate HW'.
Qed.

(** ** The event pools of the device *)

Lemma Level0EventPool_new_wf H n : 0 < n → pool_wf (Level0EventPool_new H n).
Proof. intros Hn. exists n. simpl. auto with lia. Qed.

Lemma pool_wf_lookup P i :
  pool_wf P → i < length (AvailableEvents P) →
  AvailableEvents P !! i = Some (EvtPoolH P, i).
Proof.
  intros (n & _ & HA & _) Hi. rewrite HA in *.
  rewrite length_fmap, length_seq in Hi.
  rewrite list_lookup_fmap, lookup_seq_lt by done. done.
Qed.

Lemma pool_wf_LastIdx P :
  pool_wf P → LastIdx P ≤ length (AvailableEvents P).
Proof.
  intros (n & _ & HA & Hle). by rewrite HA, length_fmap, length_seq.
Qed.

Lemma pools_same_handle D P Q :
  NoDup (EvtPoolH <$> EventPools D) →
  P ∈ EventPools D → Q ∈ EventPools D → EvtPoolH P = EvtPoolH Q → P = Q.
Proof.
  intros Hnd HP HQ Heq.
  apply list_elem_of_lookup in HP as [i Hi].
  apply list_elem_of_lookup in HQ as [j Hj].
  assert (i = j) as ->.
  { eapply NoDup_lookup; [done| |];
      rewrite list_lookup_fmap; [by rewrite Hi|by rewrite Hj, Heq]. }
  congruence.
Qed.

(** One call of [getNewEvent] on well-formed pools. *)
Lemma getNewEvent_fresh EPS D :
  0 < EPS → pools_wf D →
  ∃ E D', getNewEvent EPS D = Some (Some E, D')
    ∧ pools_wf D' ∧ ¬ issued D E ∧ issued D' E
    ∧ (∀ E0, issued D E0 → issued D' E0).
Proof.
  intros HEPS (Hne & Hwf & Hnd & Hlt). unfold getNewEvent.
  destruct (EventPools D) as [|Front Rest] eqn:HP; [done|].
  apply Forall_cons in Hwf as [HwfF HwfR].
  apply Forall_cons in Hlt as [HltF HltR].
  rewrite fmap_cons in Hnd. apply NoDup_cons in Hnd as [HninF HndR].
  unfold isEmpty. case_bool_decide as Hemp; simpl.
  - rewrite bool_decide_eq_false_2 by lia. simpl.
    unfold getEvent. simpl. rewrite length_fmap, length_seq.
    rewrite bool_decide_eq_false_2 by lia.
    destruct EPS as [|EPS]; [lia|]. simpl. rewrite HP.
    eexists _, _. split; [reflexivity|]. split; [|split; [|split]].
    + repeat split; simpl; [done| | |].
      * apply Forall_cons. split.
        { exists (S EPS). simpl. auto with lia. }
        by apply Forall_cons.
      * apply NoDup_cons. split.
        { intros Hin. apply elem_of_cons in Hin as [Hin|Hin]; [lia|].
          apply list_elem_of_fmap in Hin as (P & HPeq & HPin).
          rewrite Forall_forall in HltR. specialize (HltR _ HPin). lia. }
        by apply NoDup_cons.
      * apply Forall_cons. split; [simpl; lia|].
        apply Forall_cons. split; [simpl; lia|].
        eapply Forall_impl; [done|]. simpl. lia.
    + intros (P & HPin & HPeq & _). rewrite HP in HPin. simpl in HPeq.
      apply elem_of_cons in HPin as [->|HPin]; [lia|].
      rewrite Forall_forall in HltR. specialize (HltR _ HPin). lia.
    + eexists. split; [apply elem_of_cons; by left|]. simpl. lia.
    + intros E0 (P & HPin & HPeq & Hidx). exists P.
      rewrite HP in HPin. simpl. split; [apply elem_of_cons; by right|done].
  - unfold getEvent. rewrite HP. rewrite bool_decide_eq_false_2 by done.
    rewrite (pool_wf_lookup _ _ HwfF) by lia.
    eexists _, _. split; [reflexivity|]. split; [|split; [|split]].
    + repeat split; simpl; [done| | |].
      * apply Forall_cons. split; [|done].
        destruct HwfF as (n & Hn & HA & Hle). exists n. simpl.
        split; [done|]. split; [done|].
        rewrite HA, length_fmap, length_seq in Hemp. lia.
      * by apply NoDup_cons.
      * by apply Forall_cons.
    + intros (P & HPin & HPeq & Hidx). simpl in *.
      assert (P = Front) as ->; [|lia].
      apply (pools_same_handle D); rewrite ?HP; [| |apply elem_of_cons; by left|done].
      * rewrite fmap_cons. by apply NoDup_cons.
      * by rewrite <- HP.
    + eexists. split; [apply elem_of_cons; by left|]. simpl. lia.
    + intros E0 (P & HPin & HPeq & Hidx). rewrite HP in HPin.
      apply elem_of_cons in HPin as [->|HPin].
      * eexists. split; [apply elem_of_cons; by left|]. simpl. split; [done|lia].
      * exists P. split; [apply elem_of_cons; by right|done].
Qed.

Lemma getNewEvent_front EPS D Front Rest :
  EventPools D = Front :: Rest → pool_wf Front → isEmpty Front = false →
  getNewEvent EPS D
  = Some (Some (EvtPoolH Front, LastIdx Front),
          {| EventPools :=
               mkPool (EvtPoolH Front) (AvailableEvents Front)
                 (S (LastIdx Front)) :: Rest;
             NextPoolH := NextPoolH D |}).
Proof.
  intros HP Hwf Hemp. unfold getNewEvent. rewrite HP, Hemp. simpl. rewrite HP.
  unfold getEvent. unfold isEmpty in Hemp. rewrite Hemp.
  apply bool_decide_eq_false in Hemp.
  by rewrite (pool_wf_lookup _ _ Hwf) by lia.
Qed.

Lemma getNewEvent_grow EPS D Front Rest :
  EventPools D = Front :: Rest → 0 < EPS → isEmpty Front = true →
  getNewEvent EPS D
  = Some (Some (NextPoolH D, 0),
          {| EventPools :=
               mkPool (NextPoolH D)
                 (AvailableEvents (Level0EventPool_new (NextPoolH D) EPS)) 1
               :: Front :: Rest;
             NextPoolH := S (NextPoolH D) |}).
Proof.
  intros HP HEPS Hemp. unfold getNewEvent. rewrite HP, Hemp. simpl.
  rewrite bool_decide_eq_false_2 by lia. rewrite HP.
  unfold getEvent. simpl. rewrite length_fmap, length_seq.
  rewrite bool_decide_eq_false_2 by lia.
  destruct EPS; [lia|]. done.
Qed.

Lemma getNewEvents_app EPS a b D :
  getNewEvents EPS (a + b) D
  = match getNewEvents EPS a D with
    | Some (Es, D1) =>
        match getNewEvents EPS b D1 with
        | Some (Es', D2) => Some (Es ++ Es', D2)
        | None => None
        end
    | None => None
    end.
Proof.
  revert D. induction a as [|a IH]; intros D; simpl.
  - by destruct (getNewEvents EPS b D) as [[]|].
  - destruct (getNewEvent EPS D) as [[E D1]|]; [|done].
    rewrite IH. destruct (getNewEvents EPS a D1) as [[Es D2]|]; [|done].
    by destruct (getNewEvents EPS b D2) as [[]|].
Qed.

(** [k] acquisitions from a front pool that still has [k] handles. *)
Lemma getNewEvents_front EPS k : ∀ D H n i Rest,
  EventPools D = mkPool H ((λ Idx, (H, Idx)) <$> seq 0 n) i :: Rest →
  i + k ≤ n →
  getNewEvents EPS k D
  = Some (Some <$> ((λ Idx, (H, Idx)) <$> seq i k),
          {| EventPools := mkPool H ((λ Idx, (H, Idx)) <$> seq 0 n) (i + k)
                           :: Rest;
             NextPoolH := NextPoolH D |}).
Proof.
  induction k as [|k IH]; intros D H n i Rest HP Hle; simpl.
  - rewrite Nat.add_0_r, <- HP. by destruct D.
  - erewrite getNewEvent_front; [|done| |].
    + simpl. erewrite IH; [|done|lia]. simpl.
      replace (S (i + k)) with (i + S k) by lia. done.
    + exists n. simpl. split; [lia|]. split; [done|lia].
    + unfold isEmpty. simpl. rewrite length_fmap, length_seq.
      apply bool_decide_eq_false. lia.
Qed.

(** C4, as the code has it: on well-formed pools with a pool size that is
    not zero, [getNewEvent] always returns a handle.  If the pool at the
    front of the list still has a handle, that handle is returned and no
    pool is created; otherwise a new pool of the fixed size is put in
    front and its first handle is returned.  The handle was never handed out
    before.  In particular, [EPS + 1] calls on a fresh front pool of size
    [EPS] return its [EPS] handles and then the first handle of a new
    pool, all distinct. *)
Theorem C4_getNewEvent (EPS : nat) (D : EventPoolSet)
    (Front : Level0EventPool) (Rest : list Level0EventPool)
    (Hsize : 0 < EPS) (Hwf : pools_wf D) (HP : EventPools D = Front :: Rest) :
  ∃ E D', getNewEvent EPS D = Some (Some E, D')
    ∧ (if isEmpty Front
       then E = (NextPoolH D, 0)
            ∧ EventPools D'
              = mkPool (NextPoolH D)
                  ((λ Idx, (NextPoolH D, Idx)) <$> seq 0 EPS) 1
                :: Front :: Rest
       else AvailableEvents Front !! LastIdx Front = Some E
            ∧ EventPools D'
              = mkPool (EvtPoolH Front) (AvailableEvents Front)
                  (S (LastIdx Front)) :: Rest)
    ∧ ¬ issued D E ∧ issued D' E ∧ pools_wf D'
    ∧ (Front = Level0EventPool_new (EvtPoolH Front) EPS →
       ∃ D'',
         getNewEvents EPS (S EPS) D
         = Some (Some <$> (((λ Idx, (EvtPoolH Front, Idx)) <$> seq 0 EPS)
                           ++ [(NextPoolH D, 0)]), D'')
         ∧ NoDup (((λ Idx, (EvtPoolH Front, Idx)) <$> seq 0 EPS)
                  ++ [(NextPoolH D, 0)])
         ∧ length (EventPools D'') = S (length (EventPools D))).
Proof.
  destruct (getNewEvent_fresh EPS D Hsize Hwf)
    as (E & D' & Hget & Hwf' & Hnew & Hiss & _).
  exists E, D'. split; [done|].
  assert (pool_wf Front) as HwfF.
  { destruct Hwf as (_ & Hall & _). rewrite HP in Hall.
    by apply Forall_cons in Hall as [? _]. }
  assert (EvtPoolH Front < NextPoolH D) as HltF.
  { destruct Hwf as (_ & _ & _ & Hall). rewrite HP in Hall.
    by apply Forall_cons in Hall as [? _]. }
  split; [|split; [done|split; [done|split; [done|]]]].
  - destruct (isEmpty Front) eqn:Hemp.
    + rewrite (getNewEvent_grow _ _ _ _ HP Hsize Hemp) in Hget.
      by simplify_eq.
    + rewrite (getNewEvent_front _ _ _ _ HP HwfF Hemp) in Hget.
      simplify_eq. split; [|done].
      apply pool_wf_lookup; [done|].
      unfold isEmpty in Hemp. apply bool_decide_eq_false in Hemp. lia.
  - intros HF.
    replace (S EPS) with (EPS + 1) by lia. rewrite getNewEvents_app.
    rewrite HF in HP. unfold Level0EventPool_new in HP.
    erewrite (getNewEvents_front EPS EPS D _ EPS 0); [|done|lia].
    simpl. erewrite getNewEvent_grow; [|reflexivity|done|].
    + simpl. eexists. split; [by rewrite fmap_app|].
      split; [|simpl; by rewrite HP].
      apply NoDup_app. split; [|split].
      * apply NoDup_fmap_2; [|apply NoDup_seq]. by intros ?? [=].
      * intros x Hx Hx'. apply list_elem_of_fmap in Hx as (i & -> & _).
        apply list_elem_of_singleton in Hx'. simplify_eq. lia.
      * apply NoDup_singleton.
    + unfold isEmpty. simpl. rewrite length_fmap, length_seq.
      by apply bool_decide_eq_true.
Qed.

(** The theorem at work on one fresh pool of two handles. *)
Lemma C4_getNewEvent_witness :
  ∃ E D',
    getNewEvent 2 {| EventPools := [Level0EventPool_new 0 2]; NextPoolH := 1 |}
    = Some (Some E, D').
Proof.
  destruct (C4_getNewEvent 2
              {| EventPools := [Level0EventPool_new 0 2]; NextPoolH := 1 |}
              (Level0EventPool_new 0 2) [])
    as (E & D' & H & _).
  - lia.
  - repeat split.
    + done.
    + apply Forall_singleton. apply Level0EventPool_new_wf. lia.
    + apply NoDup_singleton.
    + apply Forall_singleton. simpl. lia.
  - reflexivity.
  - by exists E, D'.
Defined.

(** C4, as the design document words it, fails: the pool [getNewEvent]
    looks at is the one at the front of the list, which is not the most
    recent one on a device as its constructor leaves it, since the
    constructor puts its four pools at the back, one after the other.
    There the most recent pool has all its handles, and the handle
    returned is not one of them but the first handle of the oldest
    pool. *)
Lemma C4_counterexample :
  ¬ (∀ EPS D P E D',
       pools_wf D →
       spec_most_recent_pool D = Some P → isEmpty P = false →
       getNewEvent EPS D = Some (Some E, D') →
       AvailableEvents P !! LastIdx P = Some E
       ∧ length (EventPools D') = length (EventPools D)).
Proof.
  intros H.
  assert (pools_wf (Level0Device_EventPools 2 0)) as Hwf.
  { split; [done|]. split; [|split].
    - repeat constructor; by (exists 2; simpl; auto with lia).
    - apply (NoDup_seq 0 4).
    - repeat constructor; simpl; lia. }
  destruct (H 2 (Level0Device_EventPools 2 0) (Level0EventPool_new 3 2)
              (0, 0)
              {| EventPools :=
                   [mkPool 0 [(0, 0); (0, 1)] 1; Level0EventPool_new 1 2;
                    Level0EventPool_new 2 2; Level0EventPool_new 3 2];
                 NextPoolH := 4 |} Hwf eq_refl eq_refl eq_refl)
    as [HE _].
  discriminate HE.
Qed.

(** ** The monad *)

Lemma bind_Some {A B} (m : M A) (f : A → M B) s b s' :
  (m ≫= f) s = Some (b, s') ↔ ∃ a s1, m s = Some (a, s1) ∧ f a s1 = Some (b, s').
Proof.
  unfold mbind, M_bind. split.
  - destruct (m s) as [[a s1]|]; [|done]. intros H. by exists a, s1.
  - intros (a & s1 & -> & H). done.
Qed.

Lemma bind_eq {A B} (m : M A) (f : A → M B) s a s1 :
  m s = Some (a, s1) → (m ≫= f) s = f a s1.
Proof. unfold mbind, M_bind. by intros ->. Qed.

Lemma for_each_app {A} (l1 l2 : list A) (f : A → M unit) s :
  for_each (l1 ++ l2) f s = (for_each l1 f ;; for_each l2 f) s.
Proof.
  revert s. induction l1 as [|x l1 IH]; intros s; simpl; [done|].
  unfold mbind, M_bind in *. destruct (f x s) as [[[] s1]|]; [|done].
  apply IH.
Qed.

(** ** Chains and signals *)

Lemma signals_app d1 d2 : signals (d1 ++ d2) = signals d1 ++ signals d2.
Proof. apply omap_app. Qed.

Lemma chained_app prev d1 d2 :
  chained prev (d1 ++ d2)
  ↔ chained prev d1
    ∧ chained (match last (signals d1) with Some E => Some E | None => prev end)
        d2.
Proof.
  revert prev. induction d1 as [|c d1 IH]; intros prev; simpl; [tauto|].
  assert (∀ E p, match last (E :: signals d1) with
                 | Some E' => Some E' | None => p end
               = match last (signals d1) with
                 | Some E' => Some E' | None => Some E end) as Hlast.
  { intros E p. destruct (signals d1) as [|E1 l]; [done|].
    change (last (E :: E1 :: l)) with (last (E1 :: l)).
    destruct (last (E1 :: l)) eqn:H; [done|].
    by apply last_None in H. }
  destruct c as [L C [E|] W| | | | | | | | | | | | | | |]; simpl;
    rewrite ?IH; try tauto.
  unfold signals. simpl. fold (signals d1). rewrite Hlast. tauto.
Qed.

(** ** Steps that keep the list under construction *)

Lemma preserves_ret {A} (a : A) : preserves (mret a).
Proof. intros s0 s a' s' Hb H. unfold mret, M_ret in H. by simplify_eq. Qed.

Lemma preserves_bind {A B} (m : M A) (f : A → M B) :
  preserves m → (∀ a, preserves (f a)) → preserves (m ≫= f).
Proof.
  intros Hm Hf s0 s b s' Hb H.
  apply bind_Some in H as (a & s1 & H1 & H2).
  destruct (Hm _ _ _ _ Hb H1) as [Hb1 Hp1].
  destruct (Hf _ _ _ _ _ Hb1 H2) as [Hb2 Hp2].
  split; [done|by etrans].
Qed.

Lemma preserves_abort {A} : preserves (@abort A).
Proof. by intros s0 s a s' Hb H. Qed.

Lemma preserves_get : preserves get.
Proof. intros s0 s a s' Hb H. unfold get in H. by simplify_eq. Qed.

Lemma preserves_assert b : preserves (assert b).
Proof. destruct b; [apply preserves_ret|apply preserves_abort]. Qed.

Lemma preserves_for_each {A} (l : list A) (f : A → M unit) :
  (∀ x, preserves (f x)) → preserves (for_each l f).
Proof.
  intros Hf. induction l as [|x l IH]; simpl.
  - apply preserves_ret.
  - apply preserves_bind; [apply Hf|by intros _].
Qed.

(** An entry that signals nothing and belongs to the construction. *)
Lemma building_record s0 s c :
  building s0 s → is_build (CmdListH s0) c = true → signal_of c = None →
  building s0 (set_Log (Log s ++ [c]) s).
Proof.
  intros [Hr0 Hc0 HD HQ HL HN HF HCB Hlog Hcur Hwf] Hc Hsig.
  split; simpl; try done.
  destruct Hlog as (d & Hd & Hall & Hs & Hch).
  exists (d ++ [c]). rewrite Hd, (assoc_L (++)). split; [done|].
  split; [apply Forall_app; split; [done|by apply Forall_singleton]|].
  split.
  - rewrite signals_app. unfold signals at 2. simpl. rewrite Hsig.
    by rewrite app_nil_r.
  - apply chained_app. split; [done|].
    destruct c as [L C [E|] W| | | | | | | | | | | | | | |]; done.
Qed.

Lemma preserves_record c :
  (∀ L, is_build L c = true) → signal_of c = None → preserves (record c).
Proof.
  intros Hc Hsig s0 s a s' Hb H. unfold record, modify in H. simplify_eq.
  split; [by apply building_record|by apply prefix_app_r].
Qed.

Lemma preserves_append C :
  is_close_op C = false → preserves (append C None None).
Proof.
  intros HC s0 s a s' Hb H. unfold append in H.
  apply bind_Some in H as (s1 & s2 & Hget & H). unfold get in Hget.
  simplify_eq. destruct (CmdListH s2) as [L|] eqn:HL; [|done].
  unfold record, modify in H. simplify_eq.
  split; [|by apply prefix_app_r].
  apply building_record; [done| |done]. simpl.
  rewrite <- (b_CmdListH _ _ Hb), HL, HC. by rewrite bool_decide_eq_true_2.
Qed.

Lemma preserves_modify_sync (f : State → list (Z * Z * Z)) :
  preserves (modify (λ s, set_UseMemHostPtrsToSync (f s) s)).
Proof.
  intros s0 s a s' [Hr0 Hc0 HD HQ HL HN HF HCB Hlog Hcur Hwf] H.
  unfold modify in H. simplify_eq. by split.
Qed.

Lemma preserves_modify_resident (f : State → list (Z * Z)) :
  preserves (modify (λ s, set_MemPtrsToMakeResident (f s) s)).
Proof.
  intros s0 s a s' [Hr0 Hc0 HD HQ HL HN HF HCB Hlog Hcur Hwf] H.
  unfold modify in H. simplify_eq. by split.
Qed.

Ltac munfold :=
  unfold mbind, M_bind, mret, M_ret, get, record, modify, abort in *.

Lemma allocNextFreeEvent_Some s s' :
  allocNextFreeEvent s = Some (tt, s') →
  ∃ E, alloc_frame s s'
    ∧ PreviousEventH s' = CurrentEventH s
    ∧ CurrentEventH s' = Some E
    ∧ DeviceEventsToReset s' = DeviceEventsToReset s ++ [E]
    ∧ ((AvailableDeviceEvents s = E :: AvailableDeviceEvents s'
        ∧ Pools s' = Pools s)
       ∨ (AvailableDeviceEvents s = [] ∧ AvailableDeviceEvents s' = []
          ∧ getNewEvent (EventPoolSize (Device s)) (Pools s)
            = Some (Some E, Pools s'))).
Proof.
  unfold allocNextFreeEvent, Device_getNewEvent. munfold. simpl.
  destruct (AvailableDeviceEvents s) as [|E Rest] eqn:HA; simpl.
  - destruct (getNewEvent _ _) as [[[E|] D]|] eqn:HG; [|done..].
    intros H. simplify_eq. exists E. simpl. unfold alloc_frame. simpl.
    repeat split; auto.
  - intros H. simplify_eq. exists E. unfold alloc_frame. simpl.
    repeat split; auto.
Qed.

Lemma getNewEvent_total EPS D :
  0 < EPS → EventPools D ≠ [] →
  ∃ E D', getNewEvent EPS D = Some (Some E, D') ∧ EventPools D' ≠ [].
Proof.
  intros HEPS Hne. unfold getNewEvent.
  destruct (EventPools D) as [|Front Rest] eqn:HP; [done|].
  rewrite (bool_decide_eq_false_2 (EPS = 0)) by lia. rewrite andb_false_r.
  unfold isEmpty. case_bool_decide as Hemp; simpl.
  - unfold getEvent. simpl. rewrite length_fmap, length_seq.
    rewrite bool_decide_eq_false_2 by lia. destruct EPS; [lia|]. simpl.
    by eexists _, _.
  - rewrite HP. unfold getEvent. rewrite bool_decide_eq_false_2 by done.
    destruct (AvailableEvents Front !! LastIdx Front) as [E|] eqn:HE.
    + by eexists _, _.
    + apply lookup_ge_None in HE. lia.
Qed.

(** [allocNextFreeEvent] returns when the device has a pool. *)
Lemma allocNextFreeEvent_total s :
  0 < EventPoolSize (Device s) → EventPools (Pools s) ≠ [] →
  ∃ s', allocNextFreeEvent s = Some (tt, s')
    ∧ EventPools (Pools s') ≠ [].
Proof.
  intros HEPS Hne. unfold allocNextFreeEvent, Device_getNewEvent. munfold.
  simpl. destruct (AvailableDeviceEvents s) as [|E Rest]; simpl.
  - destruct (getNewEvent_total _ _ HEPS Hne) as (E & D' & -> & HD').
    by eexists.
  - by eexists.
Qed.

Lemma handles_wf_alloc s s' E :
  handles_wf s → alloc_frame s s' →
  DeviceEventsToReset s' = DeviceEventsToReset s ++ [E] →
  ((AvailableDeviceEvents s = E :: AvailableDeviceEvents s'
    ∧ Pools s' = Pools s)
   ∨ (AvailableDeviceEvents s = [] ∧ AvailableDeviceEvents s' = []
      ∧ getNewEvent (EventPoolSize (Device s)) (Pools s)
        = Some (Some E, Pools s'))) →
  handles_wf s' ∧ E ∉ DeviceEventsToReset s.
Proof.
  intros (Hnd & Hiss & Hwf & HEPS) (HD & _) HR Hcase.
  unfold handles_wf. rewrite HR, HD.
  destruct Hcase as [[HA HP]|(HA & HA' & HG)].
  - rewrite HA in Hnd, Hiss. rewrite HP. simpl in Hnd.
    apply NoDup_cons in Hnd as [Hnin Hnd].
    apply Forall_cons in Hiss as [HE Hiss].
    split; [|by intros ?; apply Hnin, elem_of_app; right].
    split; [|split; [|done]].
    + rewrite (assoc_L (++)). apply NoDup_app. split; [done|].
      split; [|apply NoDup_singleton].
      intros x Hx Hx'. apply list_elem_of_singleton in Hx'. by subst.
    + rewrite (assoc_L (++)). apply Forall_app. split; [done|].
      by apply Forall_singleton.
  - rewrite HA in Hnd, Hiss. rewrite HA'. simpl in *.
    destruct (getNewEvent_fresh _ _ HEPS Hwf)
      as (E' & D' & HG' & Hwf' & Hnew & Hiss' & Hmono).
    rewrite HG in HG'. simplify_eq.
    assert (E' ∉ DeviceEventsToReset s) as Hnin.
    { intros Hin. apply Hnew. rewrite Forall_forall in Hiss. by apply Hiss. }
    split; [|done]. split; [|split; [|done]].
    + apply NoDup_app. split; [done|]. split; [|apply NoDup_singleton].
      intros x Hx Hx'. apply list_elem_of_singleton in Hx'. by subst.
    + apply Forall_app. split; [|by apply Forall_singleton].
      eapply Forall_impl; [done|]. apply Hmono.
Qed.

(** An operation that takes a new handle and chains itself to the one
    before. *)
Lemma preserves_chained C :
  is_close_op C = false →
  preserves (allocNextFreeEvent ;; append_chained C).
Proof.
  intros HC s0 s a s2 Hb H.
  apply bind_Some in H as ([] & s1' & Halloc & H).
  apply allocNextFreeEvent_Some in Halloc
    as (E & Hfr & Hprev & Hcur & HR & Hcase).
  pose proof Hfr as (HD & HQ & HL & HN & HF & HCB & HLog & _).
  unfold append_chained, append in H. munfold. simpl in H.
  destruct (CmdListH s1') as [L|] eqn:HL1; [|done]. simplify_eq.
  destruct Hb as [Hr0 Hc0 HD0 HQ0 HL0 HN0 HF0 HCB0 Hlog Hcur0 Hwf].
  split; [|simpl; rewrite HLog; by apply prefix_app_r].
  split; simpl; try congruence.
  - destruct Hlog as (d & Hd & Hall & Hs & Hch).
    exists (d ++ [zeCommandListAppend L C (CurrentEventH s1') (PreviousEventH s1')]).
    rewrite HLog, Hd, (assoc_L (++)). split; [done|].
    split; [|split].
    + apply Forall_app. split; [done|]. apply Forall_singleton. simpl.
      rewrite HC. rewrite bool_decide_eq_true_2; [done|congruence].
    + rewrite signals_app, Hs, HR. unfold signals at 1. simpl.
      by rewrite Hcur.
    + apply chained_app. split; [done|]. simpl. rewrite Hcur.
      split; [|done]. rewrite Hprev, Hcur0, <- Hs.
      by destruct (last (signals d)).
  - rewrite Hcur, HR. by rewrite last_snoc.
  - intros Hwf0.
    destruct (handles_wf_alloc s s1' E (Hwf Hwf0) Hfr HR Hcase) as [Hw _].
    exact Hw.
Qed.

Create HintDb preserves discriminated.

Ltac preserves_step :=
  first
    [ apply preserves_chained; reflexivity
    | apply preserves_ret
    | apply preserves_abort
    | apply preserves_get
    | apply preserves_assert
    | apply preserves_append; reflexivity
    | apply preserves_modify_sync
    | apply preserves_modify_resident
    | apply preserves_record; [intros ?; reflexivity|reflexivity]
    | solve [auto 1 with preserves]
    | apply preserves_for_each; intros ?
    | apply preserves_bind; [|intros ?]
    | match goal with
      | |- preserves (if ?b then _ else _) => destruct b
      | |- preserves (match ?x with _ => _ end) => destruct x
      end ].

Ltac preserves_tac := repeat preserves_step.

Lemma preserves_makeMemResident : preserves makeMemResident.
Proof. unfold makeMemResident. preserves_tac. Qed.

Lemma preserves_syncMemHostPtrs : preserves syncMemHostPtrs.
Proof.
  unfold syncMemHostPtrs. preserves_tac.
Qed.

Lemma preserves_syncUseMemHostPtr MemId Mem Offset Size :
  preserves (syncUseMemHostPtr MemId Mem Offset Size).
Proof. unfold syncUseMemHostPtr. preserves_tac. Qed.

Lemma preserves_syncUseMemHostPtr_rect MemId Mem Origin Region RowPitch
    SlicePitch :
  preserves (syncUseMemHostPtr_rect MemId Mem Origin Region RowPitch SlicePitch).
Proof. unfold syncUseMemHostPtr_rect. preserves_tac. Qed.

Lemma preserves_read HostPtr SrcMemId Offset Size :
  preserves (read HostPtr SrcMemId Offset Size).
Proof. unfold read. preserves_tac. Qed.

Lemma preserves_write HostPtr DstMemId Offset Size :
  preserves (write HostPtr DstMemId Offset Size).
Proof. unfold write. preserves_tac. Qed.

Lemma preserves_copy DstMemId SrcMemId DstOffset SrcOffset Size :
  preserves (copy DstMemId SrcMemId DstOffset SrcOffset Size).
Proof. unfold copy. preserves_tac. Qed.

Lemma preserves_copyRect DstMemId SrcMemId DstOrigin SrcOrigin Region
    DstRowPitch DstSlicePitch SrcRowPitch SrcSlicePitch :
  preserves (copyRect DstMemId SrcMemId DstOrigin SrcOrigin Region
               DstRowPitch DstSlicePitch SrcRowPitch SrcSlicePitch).
Proof. unfold copyRect. preserves_tac. Qed.

Lemma preserves_readRectHelper HostPtr DevicePtr BufferOrigin HostOrigin
    Region BufferRowPitch BufferSlicePitch HostRowPitch HostSlicePitch :
  preserves (readRectHelper HostPtr DevicePtr BufferOrigin HostOrigin Region
               BufferRowPitch BufferSlicePitch HostRowPitch HostSlicePitch).
Proof. unfold readRectHelper. preserves_tac. Qed.

Lemma preserves_writeRectHelper HostPtr DevicePtr BufferOrigin HostOrigin
    Region BufferRowPitch BufferSlicePitch HostRowPitch HostSlicePitch :
  preserves (writeRectHelper HostPtr DevicePtr BufferOrigin HostOrigin Region
               BufferRowPitch BufferSlicePitch HostRowPitch HostSlicePitch).
Proof. unfold writeRectHelper. preserves_tac. Qed.

Lemma preserves_memfillImpl MemPtr Size Offset PatternSize :
  preserves (memfillImpl MemPtr Size Offset PatternSize).
Proof. unfold memfillImpl. preserves_tac. Qed.

Lemma preserves_mapMem SrcMemId SrcBuf Map :
  preserves (mapMem SrcMemId SrcBuf Map).
Proof. unfold mapMem. preserves_tac. Qed.

Lemma preserves_unmapMem DstMemId DstBuf Map :
  preserves (unmapMem DstMemId DstBuf Map).
Proof. unfold unmapMem. preserves_tac. Qed.

Lemma preserves_copyImageRect SrcMemId DstMemId SrcOrigin DstOrigin Region :
  preserves (copyImageRect SrcMemId DstMemId SrcOrigin DstOrigin Region).
Proof. unfold copyImageRect. preserves_tac. Qed.

#[global] Hint Resolve preserves_makeMemResident preserves_syncMemHostPtrs
  preserves_syncUseMemHostPtr preserves_syncUseMemHostPtr_rect
  preserves_read preserves_write preserves_copy preserves_copyRect
  preserves_readRectHelper preserves_writeRectHelper preserves_memfillImpl
  preserves_mapMem preserves_unmapMem preserves_copyImageRect : preserves.

Lemma preserves_writeImageRect DstImage DstMemId SrcHostPtr SrcMemId Origin
    Region SrcRowPitch SrcSlicePitch SrcOffset :
  preserves (writeImageRect DstImage DstMemId SrcHostPtr SrcMemId Origin
               Region SrcRowPitch SrcSlicePitch SrcOffset).
Proof. unfold writeImageRect. preserves_tac. Qed.

Lemma preserves_readImageRect SrcImage SrcMemId DstHostPtr DstMemId Origin
    Region DstRowPitch DstSlicePitch DstOffset :
  preserves (readImageRect SrcImage SrcMemId DstHostPtr DstMemId Origin
               Region DstRowPitch DstSlicePitch DstOffset).
Proof. unfold readImageRect. preserves_tac. Qed.

#[global] Hint Resolve preserves_writeImageRect preserves_readImageRect
  : preserves.

Lemma preserves_run Cmd : preserves (run Cmd).
Proof.
  unfold run, runBuiltinKernel, runNDRangeKernel, setupKernelArgs.
  preserves_tac.
Qed.

#[global] Hint Resolve preserves_run : preserves.

Lemma preserves_appendEventToList Cmd : preserves (appendEventToList Cmd).
Proof.
  unfold appendEventToList, readRect, writeRect, memFill, mapImage, unmapImage,
    fillImage, svmMap, svmUnmap, svmCopy, svmFill, svmMigrate, svmAdvise.
  preserves_tac.
Qed.

(** ** Closing a list *)

Lemma closeCmdList_loop_Some ToReset : ∀ EvtList s L,
  CmdListH s = Some L →
  ∃ s', closeCmdList_loop ToReset EvtList s
        = Some ((λ Evts, Evts ++ ToReset) <$> EvtList, s')
    ∧ close_frame s s'
    ∧ Log s'
      = Log s
        ++ ((λ E, zeCommandListAppend L (EventReset E) None None) <$> ToReset)
    ∧ DeviceEventsToReset s'
      = match ToReset with [] => DeviceEventsToReset s | _ => [] end
    ∧ AvailableDeviceEvents s'
      = AvailableDeviceEvents s
        ++ match EvtList with None => ToReset | Some _ => [] end.
Proof.
  induction ToReset as [|E Rest IH]; intros EvtList s L HL; simpl.
  - exists s. unfold mret, M_ret, close_frame.
    destruct EvtList; simpl; rewrite ?app_nil_r; by repeat split.
  - unfold append. munfold. simpl. rewrite HL.
    destruct EvtList as [Evts|]; simpl.
    + edestruct (IH (Some (Evts ++ [E]))) as (s' & -> & Hfr & HLog & HR & HA);
        [simpl; exact HL|].
      exists s'. simpl in *. rewrite <- (assoc_L (++)). simpl.
      split; [done|]. split; [exact Hfr|].
      rewrite HLog, <- (assoc_L (++)). simpl. split; [done|].
      split; [by destruct Rest|done].
    + edestruct (IH None) as (s' & -> & Hfr & HLog & HR & HA);
        [simpl; exact HL|].
      exists s'. simpl in *.
      split; [done|]. split; [exact Hfr|].
      rewrite HLog, HA, <- !(assoc_L (++)). simpl. split; [done|].
      split; [by destruct Rest|done].
Qed.

Lemma closeCmdList_Some EvtList s L :
  CmdListH s = Some L →
  ∃ s', closeCmdList EvtList s
        = Some ((λ Evts, Evts ++ DeviceEventsToReset s) <$> EvtList, s')
    ∧ close_frame s s'
    ∧ Log s'
      = Log s ++ close_entries L (CurrentEventH s) (DeviceEventsToReset s)
                   (QueueH s)
    ∧ DeviceEventsToReset s' = []
    ∧ AvailableDeviceEvents s'
      = AvailableDeviceEvents s
        ++ match EvtList with
           | None => DeviceEventsToReset s
           | Some _ => []
           end.
Proof.
  intros HL. unfold closeCmdList, append. munfold. simpl. rewrite HL.
  edestruct (closeCmdList_loop_Some (DeviceEventsToReset s) EvtList)
    as (s' & -> & Hfr & HLog & HR & HA); [simpl; exact HL|].
  simpl in *. unfold close_entries.
  destruct (QueueH s) as [Q|] eqn:HQ.
  - eexists. split; [reflexivity|]. simpl.
    split; [exact Hfr|]. rewrite HLog, <- !(assoc_L (++)). simpl.
    split; [done|]. split; [|done].
    rewrite HR. by destruct (DeviceEventsToReset s).
  - exists s'. split; [done|]. split; [exact Hfr|].
    rewrite HLog, <- !(assoc_L (++)). simpl. rewrite app_nil_r.
    split; [done|]. split; [|done].
    rewrite HR. by destruct (DeviceEventsToReset s).
Qed.

(** ** A list under construction *)

Lemma building_start s :
  DeviceEventsToReset s = [] → CurrentEventH s = None → building s s.
Proof.
  intros HR HC. split; try done.
  - exists []. rewrite app_nil_r, HR. by repeat split.
  - by rewrite HR, HC.
Qed.

Lemma build_step_preserves s0 s s' :
  building s0 s → build_step s s' →
  building s0 s' ∧ Log s `prefix_of` Log s'.
Proof.
  intros Hb Hstep.
  inversion Hstep as [Cmd s1 Msg s2 H|s1 s2 H|s1 s2 H]; subst.
  - exact (preserves_appendEventToList _ _ _ _ _ Hb H).
  - exact (preserves_makeMemResident _ _ _ _ Hb H).
  - exact (preserves_syncMemHostPtrs _ _ _ _ Hb H).
Qed.

Lemma build_steps_preserve s0 s s' :
  building s0 s → rtc build_step s s' → building s0 s'.
Proof.
  intros Hb Hsteps. induction Hsteps as [|s s1 s2 Hstep _ IH]; [done|].
  apply IH. by eapply build_step_preserves.
Qed.

(** C3: a worker starts a list with no handle in use and with distinct
    handles in its available queue, all from the pools of its device.
    Whatever commands, residency calls and host-pointer copies it then
    puts on the list, the handles it acquired are the signal events of the
    operations it appended, they are pairwise distinct and none of them is
    in the available queue (no handle in flight is handed out again); and
    [closeCmdList] appends, after the barrier and before it closes the
    list, one reset for each of them, empties [DeviceEventsToReset] and
    moves each of them once to the available queue of the worker, or to
    the queue of the command buffer when it is given one. *)
Theorem C3_handles_reset_before_close (s0 s1 : State)
    (L : ze_command_list_handle_t)
    (EvtList : option (list ze_event_handle_t))
    (Hreset : DeviceEventsToReset s0 = [])
    (Hcur : CurrentEventH s0 = None)
    (Hwf : handles_wf s0)
    (HL : CmdListH s0 = Some L)
    (Hbuild : rtc build_step s0 s1) :
  ∃ d s2,
    Log s1 = Log s0 ++ d
    ∧ DeviceEventsToReset s1 = signals d
    ∧ NoDup (AvailableDeviceEvents s1 ++ signals d)
    ∧ closeCmdList EvtList s1
      = Some ((λ Evts, Evts ++ signals d) <$> EvtList, s2)
    ∧ Log s2
      = Log s1 ++ close_entries L (CurrentEventH s1) (signals d) (QueueH s0)
    ∧ DeviceEventsToReset s2 = []
    ∧ AvailableDeviceEvents s2
      = AvailableDeviceEvents s1
        ++ match EvtList with None => signals d | Some _ => [] end
    ∧ handles_wf s2.
Proof.
  pose proof (build_steps_preserve s0 s0 s1 (building_start _ Hreset Hcur)
                Hbuild) as [_ _ HD HQ HL1 _ _ _ Hlog _ Hwf1].
  destruct Hlog as (d & Hd & _ & Hs & _).
  destruct (Hwf1 Hwf) as (Hnd & Hiss & Hpools & HEPS).
  rewrite HL in HL1.
  destruct (closeCmdList_Some EvtList s1 L HL1)
    as (s2 & Hclose & Hfr & HLog2 & HR2 & HA2).
  exists d, s2. rewrite Hs. rewrite <- HQ.
  do 7 (split; [done|]).
  destruct Hfr as (HD2 & _ & _ & _ & _ & _ & _ & HP2 & _).
  unfold handles_wf. rewrite HA2, HR2, app_nil_r, HP2, HD2.
  split; [|split; [|done]].
  - destruct EvtList; [|done]. rewrite app_nil_r.
    by apply NoDup_app in Hnd as [? _].
  - destruct EvtList; [|done]. rewrite app_nil_r.
    by apply Forall_app in Hiss as [? _].
Qed.

Lemma sample_state_wf : handles_wf sample_state.
Proof.
  repeat split; simpl.
  - apply NoDup_nil_2.
  - done.
  - done.
  - apply Forall_singleton. apply Level0EventPool_new_wf. lia.
  - apply NoDup_singleton.
  - apply Forall_singleton. simpl. lia.
  - lia.
Qed.

(** The theorem at work: one write-buffer command into a buffer with a
    host pointer of its own, then the copies to host pointers. *)
Lemma C3_handles_reset_before_close_witness :
  ∃ s1 d s2,
    rtc build_step sample_state s1
    ∧ signals d = [(0, 0); (0, 1)]
    ∧ closeCmdList None s1 = Some (None, s2)
    ∧ AvailableDeviceEvents s2 = [(0, 0); (0, 1)]
    ∧ DeviceEventsToReset s2 = [].
Proof.
  pose (Cmd := {| type := CL_COMMAND_WRITE_BUFFER;
                  command := cmd_write 5000 (sample_buffer 6000 1000 8) 0 64;
                  migr_infos := [] |}).
  destruct (appendEventToList Cmd sample_state) as [[Msg sa]|] eqn:Ha;
    [|vm_compute in Ha; discriminate Ha].
  destruct (syncMemHostPtrs sa) as [[[] sb]|] eqn:Hb;
    [|vm_compute in Ha; injection Ha as _ <-;
      vm_compute in Hb; discriminate Hb].
  assert (rtc build_step sample_state sb) as Hsteps.
  { eapply rtc_l; [exact (step_append _ _ _ _ Ha)|].
    eapply rtc_l; [exact (step_sync _ _ Hb)|]. apply rtc_refl. }
  destruct (C3_handles_reset_before_close sample_state sb 1 None
              eq_refl eq_refl sample_state_wf eq_refl Hsteps)
    as (d & s2 & Hd & Hs & _ & Hclose & _ & HR & HA & _).
  exists sb, d, s2. split; [done|].
  vm_compute in Ha. injection Ha as _ <-.
  vm_compute in Hb. injection Hb as <-.
  simpl in Hs, HA. rewrite <- Hs in *.
  by repeat split.
Defined.

(** ** Batches *)

Lemma set_Log_nil s : set_Log (Log s ++ []) s = s.
Proof. destruct s. unfold set_Log. simpl. by rewrite app_nil_r. Qed.

Lemma set_Log_set_Log l1 l2 s :
  set_Log (Log (set_Log (Log s ++ l1) s) ++ l2) (set_Log (Log s ++ l1) s)
  = set_Log (Log s ++ l1 ++ l2) s.
Proof. unfold set_Log. simpl. by rewrite (assoc_L (++)). Qed.

Lemma batch_running_Some Batch s :
  for_each Batch (λ E,
    record (pocl_update_event_submitted (event_id E)) ;;
    record (pocl_update_event_running (event_id E))) s
  = Some (tt, set_Log (Log s ++ batch_running Batch) s).
Proof.
  revert s. induction Batch as [|E Batch IH]; intros s; simpl.
  - unfold mret, M_ret. by rewrite set_Log_nil.
  - munfold. simpl. rewrite IH. do 2 f_equal.
    unfold set_Log. simpl. by rewrite <- !(assoc_L (++)).
Qed.

Lemma completeBatch_Some Batch : ∀ Msgs s,
  length Msgs = length Batch →
  completeBatch Batch Msgs s
  = Some (tt, set_Log (Log s ++ batch_complete Batch Msgs) s).
Proof.
  induction Batch as [|E Batch IH]; intros [|Msg Msgs] s Hlen;
    simplify_eq/=.
  - unfold mret, M_ret. by rewrite set_Log_nil.
  - munfold. simpl. rewrite IH by done. do 2 f_equal.
    unfold set_Log, batch_complete. simpl. by rewrite <- !(assoc_L (++)).
Qed.

Lemma appendBatch_in_order Batch : ∀ s0 s Msgs sA,
  building s0 s → appendBatch Batch s = Some (Msgs, sA) →
  ∃ d, appended_in_order (node <$> Batch) s d sA
    ∧ Log sA = Log s ++ d ∧ building s0 sA ∧ length Msgs = length Batch.
Proof.
  induction Batch as [|E Batch IH]; intros s0 s Msgs sA Hb H; simpl in *.
  - unfold mret, M_ret in H. simplify_eq. exists [].
    rewrite app_nil_r. split; [constructor|done].
  - apply bind_Some in H as (Msg & s1 & H1 & H).
    apply bind_Some in H as (Msgs' & s2 & H2 & H).
    unfold mret, M_ret in H. simplify_eq.
    destruct (preserves_appendEventToList _ _ _ _ _ Hb H1) as [Hb1 [d1 Hd1]].
    destruct (IH _ _ _ _ Hb1 H2) as (d2 & Hord & Hd2 & Hb2 & Hlen).
    exists (d1 ++ d2). split; [by econstructor|].
    rewrite Hd2, Hd1, (assoc_L (++)). split; [done|].
    split; [done|]. simpl. by rewrite Hlen.
Qed.

Lemma filter_none (P : call → bool) d :
  Forall (λ c, P c = false) d → filter (λ c, P c = true) d = [].
Proof.
  intros Hall. induction Hall as [|c d Hc _ IH]; [done|].
  rewrite filter_cons_False; [done|]. by rewrite Hc.
Qed.

Lemma filter_is_build_false (P : call → bool) L d :
  (∀ c, is_build L c = true → P c = false) →
  Forall (λ c, is_build L c = true) d →
  filter (λ c, P c = true) d = [].
Proof.
  intros HP Hall. apply filter_none. eapply Forall_impl; [done|]. apply HP.
Qed.

Lemma filter_close_entries (P : call → bool) L Cur ToReset Q :
  (∀ L C S W, P (zeCommandListAppend L C S W) = false) →
  (∀ L, P (zeCommandListClose L) = false) →
  filter (λ c, P c = true) (close_entries L Cur ToReset Q) = [].
Proof.
  intros HA HC. apply filter_none. unfold close_entries.
  apply Forall_app. split; [by apply Forall_singleton|].
  apply Forall_app. split.
  - apply Forall_fmap, Forall_true. intros E. apply HA.
  - destruct Q; [by apply Forall_singleton|done].
Qed.

Lemma filter_batch_running (P : call → bool) Batch :
  (∀ E, P (pocl_update_event_submitted E) = false) →
  (∀ E, P (pocl_update_event_running E) = false) →
  filter (λ c, P c = true) (batch_running Batch) = [].
Proof.
  intros H1 H2. apply filter_none.
  induction Batch as [|E Batch IH]; [done|].
  unfold batch_running in *. rewrite fmap_cons. simpl.
  apply Forall_cons. split; [done|]. by apply Forall_cons.
Qed.

Lemma filter_batch_complete (P : call → bool) Batch Msgs :
  (∀ E Msg, P (POCL_UPDATE_EVENT_COMPLETE_MSG E Msg) = false) →
  filter (λ c, P c = true) (batch_complete Batch Msgs) = [].
Proof.
  intros H. apply filter_none. revert Msgs.
  induction Batch as [|E Batch IH]; intros [|Msg Msgs]; try done.
  unfold batch_complete in *. simpl. apply Forall_cons. split; [done|].
  apply IH.
Qed.

Lemma filter_singleton (P : call → bool) c :
  filter (λ c, P c = true) [c] = if P c then [c] else [].
Proof.
  destruct (P c) eqn:Hc.
  - by rewrite filter_cons_True.
  - rewrite filter_cons_False; [done|]. by rewrite Hc.
Qed.

(** C1, as the code has it: the worker has a queue [Q] and a list [L] and
    starts with no handle in use.  If the operations of the commands of the batch, the
    residency calls and the copies to host pointers can be put on the
    list, [execCommandBatch] returns, and what it did is, in this order:
    the operations of each command, command after command in the order of
    the batch, all on the one list [L], together with the residency calls
    and the host copies; the closing barrier and the resets; one
    submission of [L] to [Q]; for each event of the batch, in order, the
    marks submitted and running; one wait for completion; for each event
    of the batch, in order, the mark complete. *)
Theorem C1_execCommandBatch (Batch : BatchType) (s sB : State)
    (Q : ze_command_queue_handle_t) (L : ze_command_list_handle_t)
    (Msgs : list string)
    (HQ : QueueH s = Some Q) (HL : CmdListH s = Some L)
    (Hcur : CurrentEventH s = None) (Hprev : PreviousEventH s = None)
    (Hreset : DeviceEventsToReset s = [])
    (Hbuild : (Msgs ← appendBatch Batch;
               makeMemResident ;; syncMemHostPtrs ;; mret Msgs) s
              = Some (Msgs, sB)) :
  ∃ sA dA dH s' delta,
    appended_in_order (node <$> Batch) s dA sA
    ∧ Log sB = Log s ++ dA ++ dH
    ∧ Forall (λ c, is_build (Some L) c = true) (dA ++ dH)
    ∧ execCommandBatch Batch s = Some (tt, s')
    ∧ Log s' = Log s ++ delta
    ∧ delta
      = dA ++ dH
        ++ close_entries L (CurrentEventH sB) (signals (dA ++ dH)) (Some Q)
        ++ [zeCommandQueueExecuteCommandLists Q L]
        ++ batch_running Batch
        ++ [zeCommandQueueSynchronize Q]
        ++ batch_complete Batch Msgs
    ∧ length Msgs = length Batch
    ∧ length (filter (λ c, is_submit c = true) delta) = 1
    ∧ length (filter (λ c, is_synchronize c = true) delta) = 1
    ∧ filter (λ c, is_event_update c = true) delta
      = batch_running Batch ++ batch_complete Batch Msgs.
Proof.
  apply bind_Some in Hbuild as (Msgs0 & sA & HA & Hbuild).
  apply bind_Some in Hbuild as ([] & sR & HR & Hbuild).
  apply bind_Some in Hbuild as ([] & sB' & HS & Hbuild).
  unfold mret, M_ret in Hbuild. simplify_eq.
  pose proof (building_start s Hreset Hcur) as Hb.
  destruct (appendBatch_in_order _ _ _ _ _ Hb HA)
    as (dA & Hord & HdA & HbA & Hlen).
  destruct (preserves_makeMemResident _ _ _ _ HbA HR) as [HbR [d1 Hd1]].
  destruct (preserves_syncMemHostPtrs _ _ _ _ HbR HS) as [HbB [d2 Hd2]].
  destruct HbB as [_ _ HDB HQB HLB _ _ _ Hlog _ _].
  destruct Hlog as (d & Hd & Hall & Hsig & _).
  assert (d = dA ++ d1 ++ d2) as ->.
  { rewrite Hd2, Hd1, HdA, <- !(assoc_L (++)) in Hd.
    by apply (inj (app (Log s))) in Hd. }
  rewrite HL in HLB, Hall. rewrite HQ in HQB.
  destruct (closeCmdList_Some None sB L HLB)
    as (sC & HC & Hfr & HLogC & HRC & HAC).
  destruct Hfr as (_ & HQC & HLC & _).
  rewrite HQB in HQC, HLogC. rewrite HLB in HLC. rewrite <- Hsig in HLogC.
  exists sA, dA, (d1 ++ d2). eexists _, _.
  split; [done|]. split; [done|]. split; [done|].
  split; [|split; [|split; [reflexivity|split; [done|]]]].
  - unfold execCommandBatch.
    rewrite (bind_eq get _ s s s) by done. cbv beta.
    rewrite Hcur, Hprev. simpl.
    rewrite (bind_eq (mret tt) _ s tt s) by done. cbv beta.
    rewrite (bind_eq (mret tt) _ s tt s) by done. cbv beta.
    rewrite (bind_eq _ _ _ _ _ HA). cbv beta.
    rewrite (bind_eq _ _ _ _ _ HR). cbv beta.
    rewrite (bind_eq _ _ _ _ _ HS). cbv beta.
    rewrite (bind_eq _ _ _ _ _ HC). cbv beta.
    unfold mbind at 1. unfold M_bind. unfold get at 1. cbv beta iota.
    unfold execute_if_queue.
    unfold mbind at 1. unfold M_bind.
    unfold mbind at 1. unfold M_bind. unfold get at 1. cbv beta iota.
    rewrite HQC, HLC. unfold record at 1. unfold modify. cbv beta iota.
    rewrite (bind_eq _ _ _ _ _ (batch_running_Some _ _)). cbv beta.
    unfold synchronize.
    unfold mbind at 1. unfold M_bind.
    unfold mbind at 1. unfold M_bind. unfold get at 1. cbv beta iota.
    assert (QueueH (set_Log
              (Log (set_Log (Log sC ++ [zeCommandQueueExecuteCommandLists Q L])
                      sC) ++ batch_running Batch)
              (set_Log (Log sC ++ [zeCommandQueueExecuteCommandLists Q L]) sC))
            = Some Q) as -> by exact HQC.
    unfold record at 1. unfold modify. cbv beta iota.
    rewrite completeBatch_Some by done. reflexivity.
  - cbn [Log set_Log]. rewrite HLogC, Hd. rewrite <- !(assoc_L (++)).
    reflexivity.
  - apply Forall_app in Hall as [HallA HallH].
    assert (filter (λ c, is_event_update c = true) (batch_running Batch)
            = batch_running Batch) as Hrun.
    { clear. induction Batch as [|E Batch IH]; [done|].
      unfold batch_running in *. rewrite fmap_cons. simpl.
      rewrite !filter_cons_True by done. by rewrite IH. }
    assert (filter (λ c, is_event_update c = true) (batch_complete Batch Msgs)
            = batch_complete Batch Msgs) as Hcmp.
    { clear. revert Msgs. induction Batch as [|E Batch IH];
        intros [|Msg Msgs]; try done.
      unfold batch_complete in *. simpl.
      rewrite filter_cons_True by done. by rewrite IH. }
    remember (d1 ++ d2) as dH eqn:HdH. clear HdH.
    rewrite !filter_app, !filter_singleton.
    rewrite !(filter_is_build_false _ (Some L) dA) by (done || by intros []).
    rewrite !(filter_is_build_false _ (Some L) dH) by (done || by intros []).
    rewrite !filter_close_entries by done.
    rewrite !filter_batch_running by done.
    rewrite !filter_batch_complete by done.
    rewrite Hrun, Hcmp. simpl. by rewrite ?app_nil_r.
Qed.

(** The theorem at work: a batch of a write and a read on the sample
    worker. *)
Lemma C1_execCommandBatch_witness :
  ∃ s' delta,
    execCommandBatch
      [sample_event 1 CL_COMMAND_WRITE_BUFFER
         (cmd_write 5000 (sample_buffer 6000 1000 8) 0 64);
       sample_read 2] sample_state = Some (tt, s')
    ∧ Log s' = delta
    ∧ length (filter (λ c, is_submit c = true) delta) = 1
    ∧ length (filter (λ c, is_synchronize c = true) delta) = 1.
Proof.
  pose (Batch := [sample_event 1 CL_COMMAND_WRITE_BUFFER
                    (cmd_write 5000 (sample_buffer 6000 1000 8) 0 64);
                  sample_read 2]).
  destruct ((Msgs ← appendBatch Batch;
             makeMemResident ;; syncMemHostPtrs ;; mret Msgs) sample_state)
    as [[Msgs sB]|] eqn:Hbuild; [|vm_compute in Hbuild; discriminate Hbuild].
  destruct (C1_execCommandBatch Batch sample_state sB 7 1 Msgs
              eq_refl eq_refl eq_refl eq_refl eq_refl Hbuild)
    as (sA & dA & dH & s' & delta & _ & _ & _ & Hexec & HLog & _ & _
        & Hsub & Hsync & _).
  exists s', delta. by repeat split.
Defined.

(** C1, as the design document words it, fails: the events are not
    marked running after the wait for completion but before it.  For a
    batch of one read on the sample worker the mark running is in the log
    before the one [zeCommandQueueSynchronize]. *)
Lemma C1_counterexample :
  ¬ (∀ Batch s s' delta,
       execCommandBatch Batch s = Some (tt, s') →
       Log s' = Log s ++ delta →
       ∀ l1 l2 E,
         delta = l1 ++ [pocl_update_event_running E] ++ l2 →
         Exists (λ c, is_synchronize c = true) l1).
Proof.
  intros H.
  assert (∃ s' l1 l2,
            execCommandBatch [sample_read 1] sample_state = Some (tt, s')
            ∧ Log s' = l1 ++ [pocl_update_event_running 1] ++ l2
            ∧ Forall (λ c, is_synchronize c = false) l1
            ∧ Exists (λ c, is_synchronize c = true) l2)
    as (s' & l1 & l2 & Hexec & HLog & Hl1 & _).
  { eexists _, [_; _; _; _; _; _], _.
    split; [vm_compute; reflexivity|]. split; [reflexivity|].
    split; [by repeat constructor|]. by repeat constructor. }
  specialize (H [sample_read 1] sample_state s' (Log s') Hexec eq_refl
                l1 l2 1 HLog).
  apply Exists_exists in H as (c & Hin & Hc).
  rewrite Forall_forall in Hl1. specialize (Hl1 c Hin). congruence.
Qed.

(** ** Single operations *)

(** An operation with a new handle, chained to the current one, on a
    worker with a list and a device with a pool. *)
Lemma chained_op_Some C s L :
  CmdListH s = Some L → 0 < EventPoolSize (Device s) →
  EventPools (Pools s) ≠ [] →
  ∃ E s', (allocNextFreeEvent ;; append_chained C) s = Some (tt, s')
    ∧ Log s' = Log s ++ [zeCommandListAppend L C (Some E) (CurrentEventH s)]
    ∧ CurrentEventH s' = Some E
    ∧ DeviceEventsToReset s' = DeviceEventsToReset s ++ [E]
    ∧ CmdListH s' = Some L ∧ Device s' = Device s
    ∧ EventPools (Pools s') ≠ [].
Proof.
  intros HL HEPS Hpools.
  destruct (allocNextFreeEvent_total s HEPS Hpools) as (s1 & Halloc & Hp1).
  destruct (allocNextFreeEvent_Some _ _ Halloc)
    as (E & Hfr & Hprev & Hcur & HR & _).
  destruct Hfr as (HD & _ & HL1 & _ & _ & _ & HLog & _).
  exists E. eexists. rewrite (bind_eq _ _ _ _ _ Halloc). cbv beta.
  unfold append_chained, append. munfold. simpl. rewrite HL1, HL.
  split; [reflexivity|]. simpl. rewrite HLog, Hcur, Hprev.
  repeat split; try done; congruence.
Qed.

Lemma syncUseMemHostPtr_Some MemId Mem Offset Size s :
  ∃ X, syncUseMemHostPtr MemId Mem Offset Size s
       = Some (tt, set_UseMemHostPtrsToSync X s).
Proof.
  unfold syncUseMemHostPtr.
  assert ((mret tt : M unit) s
          = Some (tt, set_UseMemHostPtrsToSync
                        (UseMemHostPtrsToSync s) s)) as Hid.
  { by destruct s. }
  destruct (negb _); [by eexists|].
  destruct (_ =? _)%Z; [by eexists|].
  by eexists.
Qed.

(** ** A launch of zero work-groups *)

(** The loop of [appendEventToList] after [run]: it only adds entries to
    [UseMemHostPtrsToSync]. *)
Lemma sync_migrated_Some (Bufs : list cl_mem) : ∀ s,
  ∃ X,
    for_each Bufs (λ MigratedBuf,
      if has_flag (flags MigratedBuf) CL_MEM_READ_ONLY then mret tt
      else if has_flag (flags MigratedBuf) CL_MEM_HOST_NO_ACCESS then mret tt
      else syncUseMemHostPtr (device_ptrs MigratedBuf) MigratedBuf 0
             (mem_size MigratedBuf)) s
    = Some (tt, set_UseMemHostPtrsToSync X s)
    ∧ (Forall (λ B, has_flag (flags B) CL_MEM_USE_HOST_PTR = false) Bufs →
       X = UseMemHostPtrsToSync s).
Proof.
  induction Bufs as [|B Bufs IH]; intros s; simpl.
  - exists (UseMemHostPtrsToSync s). by destruct s.
  - assert (∃ X,
      (if has_flag (flags B) CL_MEM_READ_ONLY then mret tt
       else if has_flag (flags B) CL_MEM_HOST_NO_ACCESS then mret tt
       else syncUseMemHostPtr (device_ptrs B) B 0 (mem_size B)) s
      = Some (tt, set_UseMemHostPtrsToSync X s)
      ∧ (has_flag (flags B) CL_MEM_USE_HOST_PTR = false →
         X = UseMemHostPtrsToSync s)) as (X & HX & HXeq).
    { assert ((mret tt : M unit) s
              = Some (tt, set_UseMemHostPtrsToSync
                            (UseMemHostPtrsToSync s) s)) as Hid
        by (by destruct s).
      destruct (has_flag _ CL_MEM_READ_ONLY); [by eexists|].
      destruct (has_flag _ CL_MEM_HOST_NO_ACCESS); [by eexists|].
      unfold syncUseMemHostPtr.
      destruct (has_flag _ CL_MEM_USE_HOST_PTR); simpl; [|by eexists].
      destruct (_ =? _)%Z; [by eexists|]. by eexists. }
    rewrite (bind_eq _ _ _ _ _ HX). cbv beta.
    destruct (IH (set_UseMemHostPtrsToSync X s)) as (X' & HX' & HXeq').
    exists X'. split; [exact HX'|].
    intros Hall. apply Forall_cons in Hall as [HB Hall].
    rewrite (HXeq' Hall). simpl. by apply HXeq.
Qed.

(** C7, as the code has it: for an ND-range launch of a kernel that is not
    built in and whose work-group count is zero (one of the three counts
    is), [appendEventToList] appends nothing to the list and takes no handle
    for it: all it may change is the set of host pointers to synchronize.
    The command then takes the usual path of [execCommand]: when no
    migrated buffer uses a host pointer, the list gets the closing barrier
    only, it is closed, submitted and waited for, and the event is marked
    running and then complete. *)
Theorem C7_zero_size_launch (event : cl_event) (s : State)
    (Q : ze_command_queue_handle_t) (L : ze_command_list_handle_t)
    (Kernel : cl_kernel) (pc : pocl_context) (arguments : list pocl_argument)
    (Htype : type (node event) = CL_COMMAND_NDRANGE_KERNEL)
    (Hcmd : command (node event) = cmd_run Kernel pc arguments)
    (Hker : num_builtin_kernels Kernel = 0)
    (Hzero : (at0 (num_groups pc) * at1 (num_groups pc)
              * at2 (num_groups pc))%Z = 0%Z)
    (HQ : QueueH s = Some Q) (HL : CmdListH s = Some L)
    (Hcur : CurrentEventH s = None) (Hprev : PreviousEventH s = None)
    (Hreset : DeviceEventsToReset s = [])
    (Hsync : UseMemHostPtrsToSync s = [])
    (Hres : MemPtrsToMakeResident s = []) :
  run (node event) s = Some (tt, s)
  ∧ (∃ X, appendEventToList (node event) s
          = Some ("Event Enqueue NDRange       ",
                  set_UseMemHostPtrsToSync X s))
  ∧ (Forall (λ B, has_flag (flags B) CL_MEM_USE_HOST_PTR = false)
       (migr_infos (node event)) →
     ∃ s', execCommand event s = Some (tt, s')
       ∧ Log s'
         = Log s
           ++ [zeCommandListAppend L Barrier None None;
               zeCommandListClose L;
               zeCommandQueueExecuteCommandLists Q L;
               pocl_update_event_running (event_id event);
               zeCommandQueueSynchronize Q;
               POCL_UPDATE_EVENT_COMPLETE_MSG (event_id event)
                 "Event Enqueue NDRange       "]
       ∧ AvailableDeviceEvents s' = AvailableDeviceEvents s
       ∧ DeviceEventsToReset s' = []
       ∧ Pools s' = Pools s).
Proof.
  assert (wrap32 (wrap32 (at0 (num_groups pc))
                  * wrap32 (at1 (num_groups pc))
                  * wrap32 (at2 (num_groups pc))) = 0%Z) as Hwrap.
  { apply Z.mul_eq_0 in Hzero as [Hzero| ->];
      [apply Z.mul_eq_0 in Hzero as [-> | ->]|];
      unfold wrap32; rewrite ?Z.mod_0_l by done;
      by rewrite ?Z.mul_0_l, ?Z.mul_0_r, ?Z.mod_0_l. }
  assert (run (node event) s = Some (tt, s)) as Hrun.
  { unfold run. rewrite Hcmd, Hker. simpl.
    unfold runNDRangeKernel. by rewrite Hwrap. }
  destruct (sync_migrated_Some (migr_infos (node event)) s)
    as (X & HX & HXeq).
  assert (appendEventToList (node event) s
          = Some ("Event Enqueue NDRange       ",
                  set_UseMemHostPtrsToSync X s)) as Happ.
  { unfold appendEventToList. rewrite (bind_eq get _ s s s) by done.
    cbv beta. rewrite Htype, Hcmd. cbv beta iota.
    rewrite (bind_eq _ _ _ _ _ Hrun). cbv beta.
    by rewrite (bind_eq _ _ _ _ _ HX). }
  split; [done|]. split; [by exists X|].
  intros Hmig. rewrite (HXeq Hmig) in Happ. clear X HX HXeq.
  unfold execCommand. rewrite (bind_eq get _ s s s) by done. cbv beta.
  rewrite Hcur, Hprev. simpl.
  rewrite (bind_eq (mret tt) _ s tt s) by done. cbv beta.
  rewrite (bind_eq (mret tt) _ s tt s) by done. cbv beta.
  rewrite (bind_eq _ _ _ _ _ Happ). cbv beta.
  destruct s as [Dev QH CL Cur Prev Av TR UM MR Po NL LF CB Lg].
  simpl in *. subst. unfold set_UseMemHostPtrsToSync. simpl.
  eexists. split; [reflexivity|]. simpl.
  rewrite <- !(assoc_L (++)). by repeat split.
Qed.

(** The theorem at work on the sample launch. *)
Lemma C7_zero_size_launch_witness :
  ∃ s',
    execCommand sample_zero_launch sample_state = Some (tt, s')
    ∧ Log s'
      = [zeCommandListAppend 1 Barrier None None; zeCommandListClose 1;
         zeCommandQueueExecuteCommandLists 7 1; pocl_update_event_running 1;
         zeCommandQueueSynchronize 7;
         POCL_UPDATE_EVENT_COMPLETE_MSG 1 "Event Enqueue NDRange       "].
Proof.
  destruct (C7_zero_size_launch sample_zero_launch sample_state 7 1
              {| kernel_id := 0; num_builtin_kernels := 0;
                 AccessedPointers := []; GraphH := 0 |}
              {| num_groups := (0, 1, 1)%Z; local_size := (1, 1, 1)%Z;
                 global_offset := (0, 0, 0)%Z |} []
              eq_refl eq_refl eq_refl eq_refl
              eq_refl eq_refl eq_refl eq_refl eq_refl eq_refl eq_refl)
    as (_ & _ & Hexec).
  destruct (Hexec (Forall_nil_2 _)) as (s' & Hs' & HLog & _).
  by exists s'.
Defined.

(** C7, as the design document words it, fails: a launch of zero
    work-groups does touch the list (the closing barrier is appended and
    the list is submitted) and its event is marked running before it is
    marked complete. *)
Lemma C7_counterexample :
  ¬ (∀ event s s' Kernel pc arguments,
       type (node event) = CL_COMMAND_NDRANGE_KERNEL →
       command (node event) = cmd_run Kernel pc arguments →
       (at0 (num_groups pc) * at1 (num_groups pc) * at2 (num_groups pc))%Z
       = 0%Z →
       execCommand event s = Some (tt, s') →
       ∃ d, Log s' = Log s ++ d
         ∧ Forall (λ c, match c with
                        | zeCommandListAppend _ _ _ _ => False
                        | pocl_update_event_running _ => False
                        | _ => True
                        end) d).
Proof.
  intros H.
  assert (∃ s',
            execCommand sample_zero_launch sample_state = Some (tt, s')
            ∧ Log s'
              = [zeCommandListAppend 1 Barrier None None;
                 zeCommandListClose 1;
                 zeCommandQueueExecuteCommandLists 7 1;
                 pocl_update_event_running 1;
                 zeCommandQueueSynchronize 7;
                 POCL_UPDATE_EVENT_COMPLETE_MSG 1
                   "Event Enqueue NDRange       "])
    as (s' & Hexec & HLog).
  { eexists. split; [vm_compute; reflexivity|reflexivity]. }
  destruct (H sample_zero_launch sample_state s'
              {| kernel_id := 0; num_builtin_kernels := 0;
                 AccessedPointers := []; GraphH := 0 |}
              {| num_groups := (0, 1, 1)%Z; local_size := (1, 1, 1)%Z;
                 global_offset := (0, 0, 0)%Z |} []
              eq_refl eq_refl eq_refl Hexec)
    as (d & Hd & Hall).
  rewrite HLog in Hd. simpl in Hd. subst d.
  by apply Forall_cons in Hall as [? _].
Qed.

(** ** Command buffers *)

Lemma for_each_in_order Cmds : ∀ s0 s s',
  building s0 s →
  for_each Cmds (λ Cmd, appendEventToList Cmd ;; mret tt) s = Some (tt, s') →
  ∃ d, appended_in_order Cmds s d s' ∧ Log s' = Log s ++ d ∧ building s0 s'.
Proof.
  induction Cmds as [|Cmd Cmds IH]; intros s0 s s' Hb H; simpl in *.
  - unfold mret, M_ret in H. simplify_eq. exists [].
    rewrite app_nil_r. split; [constructor|done].
  - apply bind_Some in H as ([] & s1 & H1 & H2).
    apply bind_Some in H1 as (Msg & s1' & H1 & Hret).
    unfold mret, M_ret in Hret. simplify_eq.
    destruct (preserves_appendEventToList _ _ _ _ _ Hb H1) as [Hb1 [d1 Hd1]].
    destruct (IH _ _ _ Hb1 H2) as (d2 & Hord & Hd2 & Hb2).
    exists (d1 ++ d2). split; [by econstructor|].
    by rewrite Hd2, Hd1, (assoc_L (++)).
Qed.

Lemma residency_loop_Some (Ptrs : list (Z * Z)) : ∀ s,
  Forall (λ I, I.1 ≠ nullptr) Ptrs →
  for_each Ptrs (λ I,
    assert (negb (I.1 =? nullptr)%Z) ;;
    record (zeContextMakeMemoryResident I.1 I.2)) s
  = Some (tt, set_Log (Log s ++ residency_calls Ptrs) s).
Proof.
  induction Ptrs as [|I Ptrs IH]; intros s Hall; simpl.
  - unfold mret, M_ret. by rewrite set_Log_nil.
  - apply Forall_cons in Hall as [HI Hall].
    apply Z.eqb_neq in HI. rewrite HI. munfold. simpl.
    rewrite IH by done. unfold residency_calls. do 2 f_equal.
    unfold set_Log. simpl. by rewrite <- !(assoc_L (++)).
Qed.

Lemma makeMemResident_Some s :
  Forall (λ I, I.1 ≠ nullptr) (MemPtrsToMakeResident s) →
  makeMemResident s
  = Some (tt, set_MemPtrsToMakeResident []
                (set_Log (Log s ++ residency_calls (MemPtrsToMakeResident s))
                   s)).
Proof.
  intros Hall. unfold makeMemResident.
  rewrite (bind_eq get _ s s s) by done. cbv beta.
  by rewrite (bind_eq _ _ _ _ _ (residency_loop_Some _ _ Hall)).
Qed.

Lemma syncMemHostPtrs_clears s s' :
  syncMemHostPtrs s = Some (tt, s') → UseMemHostPtrsToSync s' = [].
Proof.
  unfold syncMemHostPtrs. intros H.
  apply bind_Some in H as (s1 & s2 & Hget & H).
  apply bind_Some in H as ([] & s3 & _ & H).
  unfold modify in H. by simplify_eq.
Qed.

(** What [createCommandBuffer] returns and leaves when the recording goes
    through. *)
Lemma createCommandBuffer_Some CmdBuf s sB Q L0 :
  QueueH s = Some Q → CmdListH s = Some L0 →
  CurrentEventH s = None → PreviousEventH s = None →
  DeviceEventsToReset s = [] → ListCreateFails s = false →
  (for_each (cmds CmdBuf) (λ Cmd, appendEventToList Cmd ;; mret tt) ;;
   syncMemHostPtrs) (recording_start s) = Some (tt, sB) →
  ∃ sA dA dH s1,
    appended_in_order (cmds CmdBuf) (recording_start s) dA sA
    ∧ Log sB = Log s ++ [zeCommandListCreate (NextCmdListH s)] ++ dA ++ dH
    ∧ Forall (λ c, is_build (Some (NextCmdListH s)) c = true) (dA ++ dH)
    ∧ createCommandBuffer CmdBuf s
      = Some (Some {| CB_CmdListH := Some (NextCmdListH s);
                      CB_Events := signals (dA ++ dH);
                      CB_MemPtrsToMakeResident := MemPtrsToMakeResident sB |},
              s1)
    ∧ Log s1
      = Log sB ++ close_entries (NextCmdListH s) (CurrentEventH sB)
                    (signals (dA ++ dH)) (Some Q)
    ∧ CmdListH s1 = Some L0 ∧ QueueH s1 = Some Q
    ∧ Device s1 = Device s ∧ CmdBufData s1 = CmdBufData s
    ∧ MemPtrsToMakeResident s1 = []
    ∧ NextCmdListH s1 = S (NextCmdListH s)
    ∧ AvailableDeviceEvents s1 = AvailableDeviceEvents sB.
Proof.
  intros HQ HL Hcur Hprev Hreset Hfail Hrec.
  apply bind_Some in Hrec as ([] & sA & HA & HS).
  assert (building (recording_start s) (recording_start s)) as Hb
    by (apply building_start; unfold recording_start; simpl; done).
  destruct (for_each_in_order _ _ _ _ Hb HA) as (dA & Hord & HdA & HbA).
  destruct (preserves_syncMemHostPtrs _ _ _ _ HbA HS) as [HbB [dH HdH]].
  pose proof (syncMemHostPtrs_clears _ _ HS) as HUM.
  destruct HbB as [_ _ HDB HQB HLB HNB _ HCB Hlog _ _].
  destruct Hlog as (d & Hd & Hall & Hsig & _).
  unfold recording_start in HDB, HQB, HLB, HNB, HCB, Hd, Hall, HdA.
  simpl in HDB, HQB, HLB, HNB, HCB, Hd, Hall, HdA.
  assert (d = dA ++ dH) as ->.
  { rewrite HdH, HdA, <- !(assoc_L (++)) in Hd.
    apply (inj (app _)) in Hd. by simplify_eq/=. }
  destruct (closeCmdList_Some (Some []) sB _ HLB)
    as (sC & HC & Hfr & HLogC & HRC & HAC).
  destruct Hfr as (HDC & HQC & HLC & _ & _ & HUC & HMC & _ & HNC & _ & HCBC).
  rewrite HQB, HQ, <- Hsig in HLogC. simpl in HC. rewrite <- Hsig in HC.
  exists sA, dA, dH. eexists.
  split; [done|]. split; [by rewrite Hd, <- !(assoc_L (++))|].
  split; [done|]. split.
  - unfold createCommandBuffer.
    rewrite (bind_eq get _ s s s) by done. cbv beta.
    unfold mbind at 1. unfold M_bind. unfold modify at 1. cbv beta iota.
    rewrite Hfail.
    unfold mbind at 1. unfold M_bind. unfold modify at 1. cbv beta iota.
    unfold mbind at 1. unfold M_bind. unfold record at 1. unfold modify at 1.
    cbv beta iota.
    unfold mbind at 1. unfold M_bind. unfold modify at 1. cbv beta iota.
    rewrite Hcur, Hprev. simpl assert.
    unfold mbind at 1. unfold M_bind. unfold mret at 1. unfold M_ret.
    cbv beta iota.
    unfold mbind at 1. unfold M_bind. unfold mret at 1. unfold M_ret.
    cbv beta iota.
    change (set_CmdListH (Some (NextCmdListH s)) _) with (recording_start s).
    rewrite (bind_eq _ _ _ _ _ HA). cbv beta.
    rewrite (bind_eq _ _ _ _ _ HS). cbv beta.
    rewrite (bind_eq _ _ _ _ _ HC). cbv beta.
    unfold mbind at 1. unfold M_bind. unfold get at 1. cbv beta iota.
    munfold. simpl.
    rewrite HUC, HUM, HL. simpl.
    rewrite HLC, HLB, HMC, HRC. reflexivity.
  - simpl. rewrite HCBC, HCB, HDC, HDB, HQC, HQB, HNC, HNB, HAC, app_nil_r.
    by repeat split.
Qed.

Lemma swap_MemPtrsToMakeResident_Some Slot s Data :
  CmdBufData s !! Slot = Some Data →
  swap_MemPtrsToMakeResident Slot s
  = Some (tt, set_MemPtrsToMakeResident (CB_MemPtrsToMakeResident Data)
                (set_CmdBufData
                   (<[Slot := {| CB_CmdListH := CB_CmdListH Data;
                                 CB_Events := CB_Events Data;
                                 CB_MemPtrsToMakeResident :=
                                   MemPtrsToMakeResident s |}]>
                      (CmdBufData s)) s)).
Proof.
  intros Hslot. unfold swap_MemPtrsToMakeResident.
  rewrite (bind_eq get _ s s s) by done. cbv beta. by rewrite Hslot.
Qed.

(** The block under the lock, for a slot that holds data. *)
Lemma execCommandBuffer_locked_Some Event Slot s Data Q L :
  CmdBufData s !! Slot = Some Data →
  QueueH s = Some Q → CB_CmdListH Data = Some L →
  MemPtrsToMakeResident s = [] →
  Forall (λ I, I.1 ≠ nullptr) (CB_MemPtrsToMakeResident Data) →
  ∃ s',
    execCommandBuffer_locked Event Slot s = Some (tt, s')
    ∧ Log s'
      = Log s ++ residency_calls (CB_MemPtrsToMakeResident Data)
        ++ [zeCommandQueueExecuteCommandLists Q L;
            pocl_update_event_running (event_id Event);
            zeCommandQueueSynchronize Q]
    ∧ CmdBufData s' = <[Slot := replayed Data]> (CmdBufData s)
    ∧ NextCmdListH s' = NextCmdListH s
    ∧ CmdListH s' = CmdListH s
    ∧ QueueH s' = QueueH s
    ∧ Device s' = Device s
    ∧ MemPtrsToMakeResident s' = []
    ∧ AvailableDeviceEvents s' = AvailableDeviceEvents s
    ∧ DeviceEventsToReset s' = DeviceEventsToReset s.
Proof.
  intros Hslot HQ HLd Hres Hall.
  unfold execCommandBuffer_locked.
  rewrite (bind_eq get _ s s s) by done. cbv beta.
  rewrite Hslot, Hres, HQ, HLd. simpl assert.
  rewrite (bind_eq (mret tt) _ s tt s) by done. cbv beta.
  rewrite (bind_eq _ _ _ _ _ (swap_MemPtrsToMakeResident_Some _ _ _ Hslot)).
  cbv beta. rewrite Hres.
  rewrite (bind_eq _ _ _ _ _
             (makeMemResident_Some
                (set_MemPtrsToMakeResident (CB_MemPtrsToMakeResident Data) _)
                Hall)).
  cbv beta.
  set (s1 := set_MemPtrsToMakeResident [] _).
  assert (CmdBufData s1 !! Slot = Some (replayed Data)) as Hslot1
    by apply lookup_insert_eq.
  rewrite (bind_eq _ _ _ _ _ (swap_MemPtrsToMakeResident_Some _ _ _ Hslot1)).
  cbv beta. unfold record, modify. munfold. subst s1.
  eexists. split; [reflexivity|].
  cbn [CmdBufData set_MemPtrsToMakeResident set_Log set_CmdBufData
       MemPtrsToMakeResident Log NextCmdListH CmdListH QueueH Device
       AvailableDeviceEvents DeviceEventsToReset CB_CmdListH CB_Events
       CB_MemPtrsToMakeResident replayed].
  rewrite insert_insert_eq, <- !(assoc_L (++)).
  by repeat split.
Qed.

(** A replay of a command buffer that has its list. *)
Lemma execCommandBuffer_replay Event CmdBuf s Data Q L :
  command_buffer Event = Some CmdBuf →
  CmdBufData s !! slot_of CmdBuf s = Some Data →
  QueueH s = Some Q → CB_CmdListH Data = Some L →
  MemPtrsToMakeResident s = [] →
  Forall (λ I, I.1 ≠ nullptr) (CB_MemPtrsToMakeResident Data) →
  ∃ s',
    execCommandBuffer Event s = Some (tt, s')
    ∧ Log s'
      = Log s ++ residency_calls (CB_MemPtrsToMakeResident Data)
        ++ replay_entries Q L Event
    ∧ CmdBufData s' = <[slot_of CmdBuf s := replayed Data]> (CmdBufData s)
    ∧ NextCmdListH s' = NextCmdListH s
    ∧ CmdListH s' = CmdListH s
    ∧ AvailableDeviceEvents s' = AvailableDeviceEvents s.
Proof.
  intros Hcb Hslot HQ HLd Hres Hall.
  destruct (execCommandBuffer_locked_Some Event (slot_of CmdBuf s) s Data Q L
              Hslot HQ HLd Hres Hall)
    as (s' & Hlocked & HLog & HCB & HN & HL & _ & _ & _ & HA & _).
  unfold execCommandBuffer. rewrite Hcb.
  rewrite (bind_eq get _ s s s) by done. cbv beta zeta.
  fold (slot_of CmdBuf s). rewrite Hslot.
  rewrite (bind_eq (mret tt) _ s tt s) by done. cbv beta.
  rewrite (bind_eq _ _ _ _ _ Hlocked). cbv beta.
  unfold record, modify. eexists. split; [reflexivity|].
  cbn [Log set_Log CmdBufData NextCmdListH CmdListH AvailableDeviceEvents].
  rewrite HLog, <- !(assoc_L (++)). by repeat split.
Qed.

(** The first replay and the later ones.  A worker with a queue [Q] is
    asked to replay the command buffer of [Event], whose slot for the
    device is empty.  If the list can be created and the commands of the
    buffer can be recorded, [execCommandBuffer] creates a new list,
    appends to it the operations of the stored commands, command after
    command in their order, with the copies to host pointers, closes it,
    stores the list, the handles it used and the residency list in the
    slot of the buffer for the device, and replays it: it makes the
    residency list resident, which leaves the list in the slot empty,
    submits the new list, marks the event running, waits, and marks the
    event complete.  Any replay that finds data in the slot creates no
    list and appends nothing: it makes the stored residency list resident
    and submits the stored list. *)
Lemma command_buffer_lazy_record_and_reuse (Event : cl_event)
    (CmdBuf : cl_command_buffer_khr) (s sB : State)
    (Q : ze_command_queue_handle_t) (L0 : ze_command_list_handle_t)
    (Hcb : command_buffer Event = Some CmdBuf)
    (Hslot : CmdBufData s !! slot_of CmdBuf s = None)
    (HQ : QueueH s = Some Q) (HL : CmdListH s = Some L0)
    (Hcur : CurrentEventH s = None) (Hprev : PreviousEventH s = None)
    (Hreset : DeviceEventsToReset s = [])
    (Hfail : ListCreateFails s = false)
    (Hrec : (for_each (cmds CmdBuf) (λ Cmd, appendEventToList Cmd ;; mret tt) ;;
             syncMemHostPtrs) (recording_start s) = Some (tt, sB))
    (Hnonnull : Forall (λ I, I.1 ≠ nullptr) (MemPtrsToMakeResident sB)) :
  ∃ sA dA dH s1,
    appended_in_order (cmds CmdBuf) (recording_start s) dA sA
    ∧ Forall (λ c, is_build (Some (NextCmdListH s)) c = true) (dA ++ dH)
    ∧ execCommandBuffer Event s = Some (tt, s1)
    ∧ Log s1
      = Log s ++ [zeCommandListCreate (NextCmdListH s)] ++ dA ++ dH
        ++ close_entries (NextCmdListH s) (CurrentEventH sB)
             (signals (dA ++ dH)) (Some Q)
        ++ residency_calls (MemPtrsToMakeResident sB)
        ++ replay_entries Q (NextCmdListH s) Event
    ∧ CmdBufData s1
      = <[slot_of CmdBuf s :=
            {| CB_CmdListH := Some (NextCmdListH s);
               CB_Events := signals (dA ++ dH);
               CB_MemPtrsToMakeResident := [] |}]> (CmdBufData s)
    ∧ CmdListH s1 = Some L0
    ∧ NextCmdListH s1 = S (NextCmdListH s)
    ∧ QueueH s1 = Some Q ∧ Device s1 = Device s
    ∧ MemPtrsToMakeResident s1 = []
    ∧ ∀ Event' s2 Data Q' L,
        command_buffer Event' = Some CmdBuf →
        CmdBufData s2 !! slot_of CmdBuf s2 = Some Data →
        QueueH s2 = Some Q' → CB_CmdListH Data = Some L →
        MemPtrsToMakeResident s2 = [] →
        Forall (λ I, I.1 ≠ nullptr) (CB_MemPtrsToMakeResident Data) →
        ∃ s3,
          execCommandBuffer Event' s2 = Some (tt, s3)
          ∧ Log s3
            = Log s2 ++ residency_calls (CB_MemPtrsToMakeResident Data)
              ++ replay_entries Q' L Event'
          ∧ CmdBufData s3
            = <[slot_of CmdBuf s2 := replayed Data]> (CmdBufData s2)
          ∧ NextCmdListH s3 = NextCmdListH s2.
Proof.
  destruct (createCommandBuffer_Some CmdBuf s sB Q L0 HQ HL Hcur Hprev Hreset
              Hfail Hrec)
    as (sA & dA & dH & sc & Hord & HLogB & Hall & Hcreate & HLogc & HLc & HQc
        & HDc & HCBc & HMc & HNc & _).
  set (Data := {| CB_CmdListH := Some (NextCmdListH s);
                  CB_Events := signals (dA ++ dH);
                  CB_MemPtrsToMakeResident := MemPtrsToMakeResident sB |})
    in *.
  set (sc' := set_CmdBufData (<[slot_of CmdBuf s := Data]> (CmdBufData sc)) sc).
  destruct (execCommandBuffer_locked_Some Event (slot_of CmdBuf s) sc' Data Q
              (NextCmdListH s))
    as (sd & Hlocked & HLogd & HCBd & HNd & HLd & HQd & HDd & HMd & _);
    [apply lookup_insert_eq|exact HQc|done|exact HMc|exact Hnonnull|].
  exists sA, dA, dH. eexists.
  split; [done|]. split; [done|].
  split; [|split; [|split; [|split; [|split; [|split; [|split; [|split]]]]]]].
  - unfold execCommandBuffer. rewrite Hcb.
    rewrite (bind_eq get _ s s s) by done. cbv beta zeta.
    fold (slot_of CmdBuf s). rewrite Hslot.
    match goal with
    | |- (?m ≫= _) s = _ =>
        assert (m s = Some (tt, sc')) as H1
          by (by rewrite (bind_eq _ _ _ _ _ Hcreate))
    end.
    rewrite (bind_eq _ _ _ _ _ H1). cbv beta.
    rewrite (bind_eq _ _ _ _ _ Hlocked). cbv beta.
    unfold record, modify. reflexivity.
  - cbn [Log set_Log]. rewrite HLogd. subst sc'. cbn [Log set_CmdBufData].
    rewrite HLogc, HLogB. unfold replay_entries.
    rewrite <- !(assoc_L (++)). reflexivity.
  - cbn [CmdBufData set_Log]. rewrite HCBd. subst sc'.
    cbn [CmdBufData set_CmdBufData]. rewrite insert_insert_eq, HCBc. done.
  - cbn [CmdListH set_Log]. rewrite HLd. exact HLc.
  - cbn [NextCmdListH set_Log]. rewrite HNd. exact HNc.
  - cbn [QueueH set_Log]. rewrite HQd. exact HQc.
  - cbn [Device set_Log]. rewrite HDd. exact HDc.
  - exact HMd.
  - intros Event' s2 Data' Q' L Hcb' Hslot' HQ' HL' Hres' Hall'.
    destruct (execCommandBuffer_replay Event' CmdBuf s2 Data' Q' L
                Hcb' Hslot' HQ' HL' Hres' Hall')
      as (s3 & Hexec & HLog3 & HCB3 & HN3 & _).
    by exists s3.
Qed.

(** C5 fails on the residency list.  The first replay of a command
    buffer on a device records the list as the claim says: it creates a
    list, appends the operations of the stored commands in their order,
    closes it, and stores it in the slot of the buffer for the device;
    it makes the residency list of the recording resident and submits
    the list.  But the residency list does not stay in the slot:
    [execCommandBuffer] swaps it into the worker, [makeMemResident]
    clears it there, and the swap back puts the empty list into the
    slot.  A second replay finds the list in the slot and submits it,
    building nothing, and makes no memory resident, whatever the
    recording needed. *)
Theorem C5_residency_list_not_cached (Event Event' : cl_event)
    (CmdBuf : cl_command_buffer_khr) (s sB : State)
    (Q : ze_command_queue_handle_t) (L0 : ze_command_list_handle_t)
    (Hcb : command_buffer Event = Some CmdBuf)
    (Hcb' : command_buffer Event' = Some CmdBuf)
    (Hslot : CmdBufData s !! slot_of CmdBuf s = None)
    (HQ : QueueH s = Some Q) (HL : CmdListH s = Some L0)
    (Hcur : CurrentEventH s = None) (Hprev : PreviousEventH s = None)
    (Hreset : DeviceEventsToReset s = [])
    (Hfail : ListCreateFails s = false)
    (Hrec : (for_each (cmds CmdBuf) (λ Cmd, appendEventToList Cmd ;; mret tt) ;;
             syncMemHostPtrs) (recording_start s) = Some (tt, sB))
    (Hnonnull : Forall (λ I, I.1 ≠ nullptr) (MemPtrsToMakeResident sB)) :
  ∃ d s1 Data s2,
    execCommandBuffer Event s = Some (tt, s1)
    ∧ Log s1
      = Log s ++ [zeCommandListCreate (NextCmdListH s)] ++ d
        ++ residency_calls (MemPtrsToMakeResident sB)
        ++ replay_entries Q (NextCmdListH s) Event
    ∧ CmdBufData s1 !! slot_of CmdBuf s1 = Some Data
    ∧ CB_CmdListH Data = Some (NextCmdListH s)
    ∧ CB_MemPtrsToMakeResident Data = []
    ∧ execCommandBuffer Event' s1 = Some (tt, s2)
    ∧ Log s2 = Log s1 ++ replay_entries Q (NextCmdListH s) Event'
    ∧ CmdBufData s2 = CmdBufData s1.
Proof.
  destruct (command_buffer_lazy_record_and_reuse Event CmdBuf s sB Q L0
              Hcb Hslot HQ HL Hcur Hprev Hreset Hfail Hrec Hnonnull)
    as (sA & dA & dH & s1 & _ & _ & Hexec & HLog & HCB & _ & _ & HQ1 & HD1
        & HM1 & Hreplay).
  set (Data := {| CB_CmdListH := Some (NextCmdListH s);
                  CB_Events := signals (dA ++ dH);
                  CB_MemPtrsToMakeResident := [] |}) in *.
  assert (slot_of CmdBuf s1 = slot_of CmdBuf s) as Hs
    by (unfold slot_of; by rewrite HD1).
  assert (CmdBufData s1 !! slot_of CmdBuf s1 = Some Data) as Hslot1.
  { rewrite Hs, HCB. apply lookup_insert_eq. }
  destruct (Hreplay Event' s1 Data Q (NextCmdListH s) Hcb' Hslot1 HQ1
              eq_refl HM1 (Forall_nil_2 _))
    as (s2 & Hexec2 & HLog2 & HCB2 & _).
  exists (dA ++ dH
          ++ close_entries (NextCmdListH s) (CurrentEventH sB)
               (signals (dA ++ dH)) (Some Q)), s1, Data, s2.
  split; [exact Hexec|]. split.
  { rewrite HLog, <- !(assoc_L (++)). done. }
  split; [exact Hslot1|]. split; [done|]. split; [done|].
  split; [exact Hexec2|]. split; [exact HLog2|].
  rewrite HCB2. apply insert_id. exact Hslot1.
Qed.

(** The theorem at work: a command buffer with a launch of a kernel that
    accesses two pointers.  The first replay makes them resident; the
    second one only submits the list. *)
Lemma C5_residency_list_not_cached_witness :
  ∃ s1 s2,
    execCommandBuffer (sample_kernel_replay 1) sample_state = Some (tt, s1)
    ∧ filter (λ c, is_residency c = true) (Log s1)
      = [zeContextMakeMemoryResident 4096 64;
         zeContextMakeMemoryResident 8192 128]
    ∧ execCommandBuffer (sample_kernel_replay 2) s1 = Some (tt, s2)
    ∧ Log s2 = Log s1 ++ replay_entries 7 2 (sample_kernel_replay 2).
Proof.
  assert (∃ sB,
            (for_each (cmds sample_kernel_cmdbuf)
               (λ Cmd, appendEventToList Cmd ;; mret tt) ;;
             syncMemHostPtrs) (recording_start sample_state) = Some (tt, sB)
            ∧ MemPtrsToMakeResident sB = [(4096, 64); (8192, 128)]%Z)
    as (sB & Hrec & Hres)
    by (eexists; split; vm_compute; reflexivity).
  destruct (C5_residency_list_not_cached (sample_kernel_replay 1)
              (sample_kernel_replay 2) sample_kernel_cmdbuf sample_state sB
              7 1 eq_refl eq_refl eq_refl eq_refl eq_refl eq_refl eq_refl
              eq_refl eq_refl Hrec)
    as (d & s1 & Data & s2 & Hexec & HLog & _ & _ & _ & Hexec2 & HLog2 & _).
  { rewrite Hres. by repeat constructor. }
  exists s1, s2. split; [exact Hexec|]. split; [|split; [exact Hexec2|]].
  - assert (∃ s1', execCommandBuffer (sample_kernel_replay 1) sample_state
                   = Some (tt, s1')
                   ∧ filter (λ c, is_residency c = true) (Log s1')
                     = [zeContextMakeMemoryResident 4096 64;
                        zeContextMakeMemoryResident 8192 128])
      as (s1' & Hexec' & Hf)
      by (eexists; split; vm_compute; reflexivity).
    rewrite Hexec in Hexec'. injection Hexec' as <-. exact Hf.
  - exact HLog2.
Defined.

(** ** The chain of dependencies *)

(** What holds of every list: the operations that signal an event form a
    linear chain, each one waiting for the event of the one before. *)
Lemma signalling_operations_chained s0 s1 :
  DeviceEventsToReset s0 = [] → CurrentEventH s0 = None →
  rtc build_step s0 s1 →
  ∃ d, Log s1 = Log s0 ++ d ∧ chained None d
    ∧ CurrentEventH s1 = last (signals d).
Proof.
  intros Hreset Hcur Hsteps.
  pose proof (build_steps_preserve s0 s0 s1 (building_start _ Hreset Hcur)
                Hsteps) as [_ _ _ _ _ _ _ _ Hlog Hcur1 _].
  destruct Hlog as (d & Hd & _ & Hs & Hch).
  exists d. by rewrite Hs.
Qed.

(** C2 fails on a copy of a rectangle into a buffer that uses a host
    pointer other than its device pointer: [appendEventToList] appends the
    copy, chained as it should be, and then the copy of the rectangle from
    the device pointer to the host pointer, which reads what the first
    copy writes, without a wait event and without a signal event.  The
    pitches are passed as [uint32_t]. *)
Theorem C2_rect_host_copy_not_chained (Cmd : _cl_command_node) (s : State)
    (L : ze_command_list_handle_t) (dst src : cl_mem)
    (dst_origin src_origin region : size3)
    (dst_row_pitch dst_slice_pitch src_row_pitch src_slice_pitch : Z)
    (Htype : type Cmd = CL_COMMAND_COPY_BUFFER_RECT)
    (Hcmd : command Cmd
            = cmd_copy_rect dst src dst_origin src_origin region
                dst_row_pitch dst_slice_pitch src_row_pitch src_slice_pitch)
    (Hflag : has_flag (flags dst) CL_MEM_USE_HOST_PTR = true)
    (Hptr : mem_host_ptr dst ≠ mem_ptr (device_ptrs dst))
    (HL : CmdListH s = Some L)
    (HEPS : 0 < EventPoolSize (Device s))
    (Hpools : EventPools (Pools s) ≠ []) :
  ∃ Msg s' E,
    appendEventToList Cmd s = Some (Msg, s')
    ∧ Log s'
      = Log s
        ++ [zeCommandListAppend L
              (MemoryCopyRegion (mem_ptr (device_ptrs dst))
                 (ze_region dst_origin region)
                 (wrap32 dst_row_pitch) (wrap32 dst_slice_pitch)
                 (mem_ptr (device_ptrs src))
                 (ze_region src_origin region)
                 (wrap32 src_row_pitch) (wrap32 src_slice_pitch))
              (Some E) (CurrentEventH s);
            zeCommandListAppend L
              (MemoryCopyRegion (mem_host_ptr dst)
                 (ze_region dst_origin region)
                 (wrap32 dst_row_pitch) (wrap32 dst_slice_pitch)
                 (mem_ptr (device_ptrs dst))
                 (ze_region dst_origin region)
                 (wrap32 dst_row_pitch) (wrap32 dst_slice_pitch))
              None None].
Proof.
  unfold appendEventToList. rewrite (bind_eq get _ s s s) by done. cbv beta.
  rewrite Htype, Hcmd. cbv beta iota. unfold copyRect. cbv zeta.
  destruct (chained_op_Some
              (MemoryCopyRegion (mem_ptr (device_ptrs dst))
                 (ze_region dst_origin region)
                 (wrap32 dst_row_pitch) (wrap32 dst_slice_pitch)
                 (mem_ptr (device_ptrs src))
                 (ze_region src_origin region)
                 (wrap32 src_row_pitch) (wrap32 src_slice_pitch))
              s L HL HEPS Hpools)
    as (E & s1 & Hop & HLog & _ & _ & HL1 & _).
  rewrite (bind_eq _ _ _ _ _ Hop). cbv beta.
  unfold syncUseMemHostPtr_rect. rewrite Hflag. simpl negb. cbv iota zeta.
  apply Z.eqb_neq in Hptr. rewrite Z.eqb_sym, Hptr.
  unfold append. munfold. rewrite HL1.
  eexists _, _, E. split; [reflexivity|]. cbn [Log set_Log].
  by rewrite HLog, <- (assoc_L (++)).
Qed.

(** The theorem at work on the sample copy of a rectangle. *)
Lemma C2_rect_host_copy_not_chained_witness :
  ∃ Msg s' E C1 C2,
    appendEventToList sample_copy_rect sample_state = Some (Msg, s')
    ∧ Log s' = [zeCommandListAppend 1 C1 (Some E) None;
                zeCommandListAppend 1 C2 None None].
Proof.
  destruct (C2_rect_host_copy_not_chained sample_copy_rect sample_state 1
              (sample_buffer 6000 1000 CL_MEM_USE_HOST_PTR)
              (sample_buffer 0 2000 0) (0, 0, 0)%Z (0, 0, 0)%Z (4, 4, 1)%Z
              4 16 4 16 eq_refl eq_refl eq_refl)
    as (Msg & s' & E & Happ & HLog).
  - simpl. lia.
  - reflexivity.
  - simpl. lia.
  - discriminate.
  - exists Msg, s', E. eexists _, _. split; [exact Happ|exact HLog].
Defined.

(** ** The geometry of a fill *)

Lemma land_1_even T : (0 ≤ T)%Z → Z.land T 1 = 0%Z → (T = 2 * (T `div` 2))%Z.
Proof.
  intros HT H. change 1%Z with (Z.ones 1) in H.
  rewrite Z.land_ones in H by lia. change (2 ^ 1)%Z with 2%Z in H.
  pose proof (Z.div_mod T 2). lia.
Qed.

Lemma memfill_groups_inv fuel : ∀ T W MaxWG,
  (0 ≤ T)%Z → (0 < W)%Z → (MaxWG < 2 ^ 31)%Z →
  ((memfill_groups fuel T W MaxWG).1 * (memfill_groups fuel T W MaxWG).2
   = T * W)%Z
  ∧ (0 ≤ (memfill_groups fuel T W MaxWG).1)%Z
  ∧ (∃ k : nat, (memfill_groups fuel T W MaxWG).2 = (W * 2 ^ Z.of_nat k)%Z)
  ∧ ((memfill_groups fuel T W MaxWG).2 = W
     ∨ ((memfill_groups fuel T W MaxWG).2 ≤ 2 * MaxWG)%Z)
  ∧ ((T < 2 ^ Z.of_nat fuel)%Z →
     memfill_continues (memfill_groups fuel T W MaxWG).1
       (memfill_groups fuel T W MaxWG).2 MaxWG = false).
Proof.
  induction fuel as [|fuel IH]; intros T W MaxWG HT HW HM.
  - simpl. split; [done|]. split; [done|]. split; [exists 0%nat; simpl; lia|].
    split; [by left|]. intros Hlt. unfold memfill_continues.
    assert (T = 0%Z) as -> by (simpl in Hlt; lia). done.
  - cbn [memfill_groups]. fold (memfill_continues T W MaxWG).
    destruct (memfill_continues T W MaxWG) eqn:Hc.
    + unfold memfill_continues in Hc.
      apply andb_prop in Hc as [Hc Hc3]. apply andb_prop in Hc as [Hc1 Hc2].
      apply Z.ltb_lt in Hc1. apply Z.eqb_eq in Hc2. apply Z.leb_le in Hc3.
      pose proof (land_1_even T HT Hc2) as Heven.
      assert (wrap32 (W * 2) = (W * 2)%Z) as Hw.
      { unfold wrap32. apply Z.mod_small. lia. }
      rewrite Hw.
      destruct (IH (T `div` 2)%Z (W * 2)%Z MaxWG) as (H1 & H2 & H3 & H4 & H5);
        [lia|lia|done|].
      split; [rewrite H1; lia|]. split; [done|]. split.
      { destruct H3 as [k Hk]. exists (S k). rewrite Hk.
        rewrite Nat2Z.inj_succ, Z.pow_succ_r by lia. lia. }
      split.
      { right. destruct H4 as [->|H4]; lia. }
      intros Hlt. apply H5.
      rewrite Nat2Z.inj_succ, Z.pow_succ_r in Hlt by lia. lia.
    + simpl. split; [done|]. split; [done|].
      split; [exists 0%nat; simpl; lia|]. split; [by left|]. done.
Qed.

Lemma memfill_groups_stable n : ∀ m T W MaxWG,
  (0 ≤ T)%Z → (T < 2 ^ Z.of_nat n)%Z → n ≤ m →
  memfill_groups m T W MaxWG = memfill_groups n T W MaxWG.
Proof.
  induction n as [|n IH]; intros m T W MaxWG HT Hlt Hle.
  - assert (T = 0%Z) as -> by (simpl in Hlt; lia).
    destruct m; done.
  - destruct m as [|m]; [lia|]. cbn [memfill_groups].
    destruct ((1 <? T)%Z && (Z.land T 1 =? 0)%Z && (W <=? MaxWG)%Z) eqn:Hc;
      [|done].
    apply andb_prop in Hc as [Hc Hc3]. apply andb_prop in Hc as [Hc1 Hc2].
    apply Z.ltb_lt in Hc1. apply Z.eqb_eq in Hc2.
    pose proof (land_1_even T HT Hc2) as Heven.
    apply IH; [lia| |lia].
    rewrite Nat2Z.inj_succ, Z.pow_succ_r in Hlt by lia. lia.
Qed.

(** The fill kernel covers the buffer exactly.  For a fill of [Size] bytes
    with a pattern of [PatternSize] bytes, a size for which the device has
    a fill kernel (the helper kernels are built, and the size, as an
    [unsigned], is one of 1, 2, 4, ..., 128), on a device whose largest
    group has [getMaxWGSize] work-items, the loop of [memfillImpl] ends
    within its 32 turns, and the group count and group size it ends with
    multiply to the number [Size / PatternSize] of pattern copies; the
    group size is a power of two and not larger than the largest group of
    the device.  The launch [memfillImpl] appends is of the kernel for the
    pattern size and has that group count. *)
Theorem memfillImpl_launch_geometry (MemPtr Size Offset PatternSize : Z)
    (s : State) (L : ze_command_list_handle_t)
    (Hbuilt : hasMemfillKernels (Device s) = true)
    (Hkernel : wrap32 PatternSize ∈ MemfillKernels)
    (HP : (0 < PatternSize)%Z)
    (HS : (0 ≤ Size)%Z)
    (HT : (Size `div` PatternSize < 2 ^ 32)%Z)
    (HM : (0 < getMaxWGSize (Device s) < 2 ^ 32)%Z)
    (HL : CmdListH s = Some L)
    (HEPS : 0 < EventPoolSize (Device s))
    (Hpools : EventPools (Pools s) ≠ []) :
  ∃ TotalWGsX WGSizeX (k : nat) E s',
    (∀ fuel, 32 ≤ fuel →
       memfill_groups fuel (Size `div` PatternSize) 1
         (getMaxWGSize (Device s) `div` 2) = (TotalWGsX, WGSizeX))
    ∧ memfill_continues TotalWGsX WGSizeX (getMaxWGSize (Device s) `div` 2)
      = false
    ∧ (TotalWGsX * WGSizeX = Size `div` PatternSize)%Z
    ∧ WGSizeX = (2 ^ Z.of_nat k)%Z
    ∧ (WGSizeX ≤ getMaxWGSize (Device s))%Z
    ∧ memfillImpl MemPtr Size Offset PatternSize s = Some (tt, s')
    ∧ Log s'
      = Log s ++ [zeCommandListAppend L
                    (LaunchKernel (MemfillKernel (wrap32 PatternSize))
                       (TotalWGsX, 1, 1)%Z)
                    (Some E) (CurrentEventH s)].
Proof.
  set (T := (Size `div` PatternSize)%Z).
  set (MaxWG := (getMaxWGSize (Device s) `div` 2)%Z).
  assert (0 ≤ T)%Z as HT0 by (apply Z.div_pos; lia).
  assert (0 ≤ MaxWG < 2 ^ 31)%Z as HMW.
  { subst MaxWG. split; [apply Z.div_pos; lia|].
    apply Z.div_lt_upper_bound; lia. }
  destruct (memfill_groups_inv 32 T 1 MaxWG HT0) as (H1 & H2 & [k Hk] & H4 & H5);
    [lia|lia|].
  destruct (chained_op_Some
              (LaunchKernel (MemfillKernel (wrap32 PatternSize))
                 ((memfill_groups 32 T 1 MaxWG).1, 1, 1)%Z) s L HL HEPS Hpools)
    as (E & s' & Hop & HLog & _).
  exists (memfill_groups 32 T 1 MaxWG).1, (memfill_groups 32 T 1 MaxWG).2, k, E, s'.
  split.
  { intros fuel Hfuel. rewrite (memfill_groups_stable 32 fuel) by (done || lia).
    by destruct (memfill_groups 32 T 1 MaxWG). }
  split; [apply H5; simpl; lia|]. split; [lia|]. split; [lia|]. split.
  { destruct H4 as [->|H4]; [lia|]. subst MaxWG.
    pose proof (Z.mul_div_le (getMaxWGSize (Device s)) 2). lia. }
  split; [|done].
  unfold memfillImpl. rewrite (bind_eq get _ s s s) by done. cbv beta.
  assert (getMemfillKernel PatternSize s
          = Some (MemfillKernel (wrap32 PatternSize), s)) as HK.
  { unfold getMemfillKernel. rewrite (bind_eq get _ s s s) by done.
    cbv beta zeta. rewrite Hbuilt, bool_decide_eq_true_2 by done. done. }
  rewrite (bind_eq _ _ _ _ _ HK). cbv beta.
  assert (negb (PatternSize =? 0)%Z = true) as ->.
  { apply negb_true_iff, Z.eqb_neq. lia. }
  simpl assert. rewrite (bind_eq (mret tt) _ s tt s) by done. cbv beta zeta.
  assert (wrap32 (Size `div` PatternSize) = T) as ->.
  { unfold wrap32. apply Z.mod_small. subst T. lia. }
  assert (wrap32 (getMaxWGSize (Device s) `div` 2) = MaxWG) as ->.
  { unfold wrap32. apply Z.mod_small. subst MaxWG. lia. }
  exact Hop.
Qed.

(** The theorem at work: a fill of 4096 bytes with a pattern of four
    bytes on the sample worker, whose device has groups of up to 256
    work-items, is launched as four groups of 256. *)
Lemma memfillImpl_launch_geometry_witness :
  ∃ E s',
    memfillImpl 1000 4096 0 4 sample_state = Some (tt, s')
    ∧ Log s' = [zeCommandListAppend 1
                  (LaunchKernel (MemfillKernel 4) (4, 1, 1)%Z) (Some E) None].
Proof.
  destruct (memfillImpl_launch_geometry 1000 4096 0 4 sample_state 1)
    as (T & W & k & E & s' & Hfuel & _ & _ & _ & _ & Hrun & HLog);
    [reflexivity|by vm_compute; repeat constructor|lia|lia|by vm_compute
    |split; by vm_compute|reflexivity|simpl; lia|discriminate|].
  specialize (Hfuel 32 (le_n _)). vm_compute in Hfuel.
  injection Hfuel as <- <-. by exists E, s'.
Defined.

(** ** Host pointers waiting for their copy *)

Lemma map_emplace_twice {K V} (lt : K → K → bool) (k : K) (v1 v2 : V) m :
  lt k k = false →
  map_emplace lt k v2 (map_emplace lt k v1 m) = map_emplace lt k v1 m.
Proof.
  intros Hirr. induction m as [|[k' v'] m IH]; simpl.
  - by rewrite Hirr.
  - destruct (lt k k') eqn:H1; simpl.
    + by rewrite Hirr.
    + destruct (lt k' k) eqn:H2; simpl.
      * by rewrite H1, H2, IH.
      * by rewrite H1, H2.
Qed.

Lemma pair_lt_irrefl a : pair_lt a a = false.
Proof.
  unfold pair_lt. rewrite !Z.ltb_irrefl. by rewrite andb_false_r.
Qed.

(** The first size wins.  When the same region of a buffer that uses a
    host pointer is marked twice for its copy to the host pointer while a
    list is filled, the second mark changes nothing, whatever its size:
    the entry of the first mark stays, with the size of the first.  On a
    worker with no other mark, the one entry left is for the two
    addresses at the offset, with the first size. *)
Theorem syncUseMemHostPtr_first_size_wins (MemId : pocl_mem_identifier)
    (Mem : cl_mem) (Offset Size1 Size2 : Z) (s : State) :
  (syncUseMemHostPtr MemId Mem Offset Size1 ;;
   syncUseMemHostPtr MemId Mem Offset Size2) s
  = syncUseMemHostPtr MemId Mem Offset Size1 s
  ∧ (has_flag (flags Mem) CL_MEM_USE_HOST_PTR = true →
     mem_host_ptr Mem ≠ mem_ptr MemId →
     UseMemHostPtrsToSync s = [] →
     syncUseMemHostPtr MemId Mem Offset Size1 s
     = Some (tt, set_UseMemHostPtrsToSync
                   [(ptr_add (mem_host_ptr Mem) Offset,
                     ptr_add (mem_ptr MemId) Offset, Size1)] s)).
Proof.
  unfold syncUseMemHostPtr.
  destruct (has_flag (flags Mem) CL_MEM_USE_HOST_PTR); simpl negb; cbv iota.
  - destruct (mem_host_ptr Mem =? mem_ptr MemId)%Z eqn:Heq.
    + split; [done|]. intros _ Hne. apply Z.eqb_eq in Heq. done.
    + cbv zeta. split.
      * unfold mbind, M_bind, modify. cbv beta iota.
        cbn [UseMemHostPtrsToSync set_UseMemHostPtrsToSync].
        rewrite map_emplace_twice by apply pair_lt_irrefl.
        by destruct s.
      * intros _ _ Hempty. unfold modify. cbv [negb]. cbv beta iota. by rewrite Hempty.
  - split; [done|]. intros; discriminate.
Qed.

(** ** Mapping and unmapping a buffer *)

(** The two transfers of a mapping.  For a buffer whose host pointer is
    not its device pointer, [mapMem] copies the mapped region from the
    device to the host pointer of the mapping unless the mapping
    invalidates the region, and [unmapMem] copies the same region, of the
    same size, back from that host pointer to the device unless the
    mapping is for reading only: the two copies are between the same two
    addresses, in opposite directions. *)
Theorem mapMem_unmapMem_transfers (MemId : pocl_mem_identifier) (Buf : cl_mem)
    (Map : mem_mapping_t) (s : State) (L : ze_command_list_handle_t)
    (Hptr : mem_host_ptr Buf ≠ mem_ptr MemId)
    (HL : CmdListH s = Some L)
    (HEPS : 0 < EventPoolSize (Device s))
    (Hpools : EventPools (Pools s) ≠ []) :
  let DevPtr := ptr_add (mem_ptr MemId) (map_offset Map) in
  ∃ s1 s2 d1 d2,
    mapMem MemId Buf Map s = Some (tt, s1)
    ∧ unmapMem MemId Buf Map s1 = Some (tt, s2)
    ∧ Log s1 = Log s ++ d1 ∧ Log s2 = Log s1 ++ d2
    ∧ (if has_flag (map_flags Map) CL_MAP_WRITE_INVALIDATE_REGION
       then d1 = [] ∧ CurrentEventH s1 = CurrentEventH s
       else ∃ E, d1 = [zeCommandListAppend L
                         (MemoryCopy (host_ptr Map) DevPtr (map_size Map))
                         (Some E) (CurrentEventH s)]
                 ∧ CurrentEventH s1 = Some E)
    ∧ (if (map_flags Map =? CL_MAP_READ)%Z
       then d2 = []
       else ∃ E, d2 = [zeCommandListAppend L
                         (MemoryCopy DevPtr (host_ptr Map) (map_size Map))
                         (Some E) (CurrentEventH s1)]).
Proof.
  intros DevPtr. apply Z.eqb_neq in Hptr.
  assert (∃ s1 d1,
    mapMem MemId Buf Map s = Some (tt, s1) ∧ Log s1 = Log s ++ d1
    ∧ CmdListH s1 = Some L ∧ Device s1 = Device s
    ∧ EventPools (Pools s1) ≠ []
    ∧ (if has_flag (map_flags Map) CL_MAP_WRITE_INVALIDATE_REGION
       then d1 = [] ∧ CurrentEventH s1 = CurrentEventH s
       else ∃ E, d1 = [zeCommandListAppend L
                         (MemoryCopy (host_ptr Map) DevPtr (map_size Map))
                         (Some E) (CurrentEventH s)]
                 ∧ CurrentEventH s1 = Some E))
    as (s1 & d1 & Hmap & HLog1 & HL1 & HD1 & HP1 & Hd1).
  { unfold mapMem. cbv zeta.
    destruct (has_flag (map_flags Map) CL_MAP_WRITE_INVALIDATE_REGION).
    - exists s, []. by rewrite app_nil_r.
    - rewrite Hptr.
      destruct (chained_op_Some
                  (MemoryCopy (host_ptr Map) DevPtr (map_size Map))
                  s L HL HEPS Hpools)
        as (E & s1 & Hop & HLog & Hcur & _ & HL1 & HD1 & HP1).
      exists s1, [zeCommandListAppend L
                    (MemoryCopy (host_ptr Map) DevPtr (map_size Map))
                    (Some E) (CurrentEventH s)].
      repeat split; try done. by exists E. }
  rewrite <- HD1 in HEPS.
  exists s1. unfold unmapMem. cbv zeta.
  destruct (map_flags Map =? CL_MAP_READ)%Z.
  - exists s1, d1, []. by rewrite app_nil_r.
  - rewrite Hptr.
    destruct (chained_op_Some
                (MemoryCopy DevPtr (host_ptr Map) (map_size Map))
                s1 L HL1 HEPS HP1)
      as (E & s2 & Hop & HLog & _).
    exists s2, d1, [zeCommandListAppend L
                      (MemoryCopy DevPtr (host_ptr Map) (map_size Map))
                      (Some E) (CurrentEventH s1)].
    repeat split; try done. by exists E.
Qed.

(** The theorem at work: a mapping for writing of 16 bytes at offset 8 of
    the sample buffer is copied out to the host pointer of the mapping
    and copied back when it is unmapped. *)
Lemma mapMem_unmapMem_transfers_witness :
  ∃ s1 s2 E1 E2,
    let Map := {| map_flags := CL_MAP_WRITE; host_ptr := 4008;
                  map_offset := 8; map_size := 16;
                  map_origin := (0, 0, 0)%Z; map_region := (0, 0, 0)%Z;
                  map_row_pitch := 0; map_slice_pitch := 0 |} in
    let Buf := sample_buffer 4000 1000 CL_MEM_USE_HOST_PTR in
    mapMem (device_ptrs Buf) Buf Map sample_state = Some (tt, s1)
    ∧ unmapMem (device_ptrs Buf) Buf Map s1 = Some (tt, s2)
    ∧ Log s2
      = [zeCommandListAppend 1 (MemoryCopy 4008 1008 16) (Some E1) None;
         zeCommandListAppend 1 (MemoryCopy 1008 4008 16) (Some E2) (Some E1)].
Proof.
  intros.
  destruct (mapMem_unmapMem_transfers
              (device_ptrs (sample_buffer 4000 1000 CL_MEM_USE_HOST_PTR))
              (sample_buffer 4000 1000 CL_MEM_USE_HOST_PTR)
              {| map_flags := CL_MAP_WRITE; host_ptr := 4008;
                 map_offset := 8; map_size := 16;
                 map_origin := (0, 0, 0)%Z; map_region := (0, 0, 0)%Z;
                 map_row_pitch := 0; map_slice_pitch := 0 |}
              sample_state 1)
    as (s1 & s2 & d1 & d2 & Hmap & Hunmap & HLog1 & HLog2 & Hd1 & Hd2);
    [simpl; lia|reflexivity|simpl; lia|discriminate|].
  simpl in Hd1, Hd2. destruct Hd1 as (E1 & -> & Hcur), Hd2 as (E2 & ->).
  exists s1, s2, E1, E2. split; [done|]. split; [done|].
  rewrite HLog2, HLog1, Hcur. reflexivity.
Defined.

(** ** One command on its own list *)

(** [closeCmdList] for a worker that fills its own list keeps the handles
    in order. *)
Lemma closeCmdList_wf EvtList s L :
  CmdListH s = Some L → handles_wf s →
  ∃ s', closeCmdList EvtList s
        = Some ((λ Evts, Evts ++ DeviceEventsToReset s) <$> EvtList, s')
    ∧ close_frame s s'
    ∧ Log s'
      = Log s ++ close_entries L (CurrentEventH s) (DeviceEventsToReset s)
                   (QueueH s)
    ∧ DeviceEventsToReset s' = []
    ∧ AvailableDeviceEvents s'
      = AvailableDeviceEvents s
        ++ match EvtList with
           | None => DeviceEventsToReset s
           | Some _ => []
           end
    ∧ handles_wf s'.
Proof.
  intros HL (Hnd & Hiss & Hpools & HEPS).
  destruct (closeCmdList_Some EvtList s L HL)
    as (s' & Hclose & Hfr & HLog & HR & HA).
  exists s'. do 5 (split; [done|]).
  destruct Hfr as (HD & _ & _ & _ & _ & _ & _ & HP & _).
  unfold handles_wf. rewrite HA, HR, app_nil_r, HP, HD.
  split; [|split; [|done]].
  - destruct EvtList; [|done]. rewrite app_nil_r.
    by apply NoDup_app in Hnd as [? _].
  - destruct EvtList; [|done]. rewrite app_nil_r.
    by apply Forall_app in Hiss as [? _].
Qed.

Lemma execCommand_Some event s sB Q L Msg :
  QueueH s = Some Q → CmdListH s = Some L →
  CurrentEventH s = None → PreviousEventH s = None →
  DeviceEventsToReset s = [] →
  (Msg ← appendEventToList (node event);
   makeMemResident ;; syncMemHostPtrs ;; mret Msg) s = Some (Msg, sB) →
  ∃ d sC,
    building s sB ∧ Log sB = Log s ++ d
    ∧ Forall (λ c, is_build (Some L) c = true) d
    ∧ signals d = DeviceEventsToReset sB ∧ chained None d
    ∧ closeCmdList None sB = Some (None, sC)
    ∧ close_frame sB sC
    ∧ Log sC
      = Log sB ++ close_entries L (CurrentEventH sB) (signals d) (Some Q)
    ∧ DeviceEventsToReset sC = []
    ∧ AvailableDeviceEvents sC = AvailableDeviceEvents sB ++ signals d
    ∧ execCommand event s
      = Some (tt, set_Log (Log sC ++ submit_entries Q L event Msg) sC).
Proof.
  intros HQ HL Hcur Hprev Hreset Hbuild.
  pose proof Hbuild as Hbuild0.
  apply bind_Some in Hbuild as (Msg0 & sA & HA & Hbuild).
  apply bind_Some in Hbuild as ([] & sR & HR & Hbuild).
  apply bind_Some in Hbuild as ([] & sB' & HS & Hbuild).
  unfold mret, M_ret in Hbuild. simplify_eq.
  pose proof (building_start s Hreset Hcur) as Hb.
  destruct (preserves_appendEventToList _ _ _ _ _ Hb HA) as [HbA _].
  destruct (preserves_makeMemResident _ _ _ _ HbA HR) as [HbR _].
  destruct (preserves_syncMemHostPtrs _ _ _ _ HbR HS) as [HbB _].
  pose proof HbB as [_ _ HDB HQB HLB _ _ _ Hlog _ _].
  destruct Hlog as (d & Hd & Hall & Hsig & Hch).
  rewrite HL in HLB, Hall. rewrite HQ in HQB.
  destruct (closeCmdList_Some None sB L HLB)
    as (sC & HC & Hfr & HLogC & HRC & HAC).
  pose proof Hfr as (_ & HQC & HLC & _).
  rewrite HQB in HQC, HLogC. rewrite HLB in HLC. rewrite <- Hsig in HLogC, HAC.
  exists d, sC. do 10 (split; [done|]).
  unfold execCommand.
  rewrite (bind_eq get _ s s s) by done. cbv beta.
  rewrite Hcur, Hprev. simpl.
  rewrite (bind_eq (mret tt) _ s tt s) by done. cbv beta.
  rewrite (bind_eq (mret tt) _ s tt s) by done. cbv beta.
  rewrite (bind_eq _ _ _ _ _ HA). cbv beta.
  rewrite (bind_eq _ _ _ _ _ HR). cbv beta.
  rewrite (bind_eq _ _ _ _ _ HS). cbv beta.
  rewrite (bind_eq _ _ _ _ _ HC). cbv beta.
  unfold mbind at 1. unfold M_bind. unfold get at 1. cbv beta iota.
  unfold execute_if_queue, synchronize, record, modify, get.
  unfold mbind, M_bind. cbv beta iota.
  rewrite HQC, HLC. cbv beta iota. cbn [QueueH set_Log Log].
  rewrite HQC. cbv beta iota. cbn [QueueH set_Log Log].
  unfold submit_entries. rewrite <- !(assoc_L (++)). simpl. 
  by destruct sC.
Qed.

(** A command runs on a list of its own.  The worker has a queue [Q] and
    a list [L] and starts with no handle in use.  If the operations of the
    command, the residency calls and the copies to host pointers can be
    put on the list, [execCommand] returns, and what it did is, in this
    order: these operations [d], which are all on [L], and of which those
    that signal an event form a chain, each one waiting for the event of
    the one before (an operation without a signal event is not part of
    the chain); the closing barrier, which waits for the last event
    signalled; one reset for each event signalled; the close of the list;
    one submission of [L] to [Q]; the mark running; one wait for
    completion; the mark complete.  Afterwards no handle waits for its
    reset, the handles the operations signalled are available again, and
    the handles the worker holds are distinct if they were before. *)
Theorem execCommand_sequence (event : cl_event) (s sB : State)
    (Q : ze_command_queue_handle_t) (L : ze_command_list_handle_t)
    (Msg : string)
    (HQ : QueueH s = Some Q) (HL : CmdListH s = Some L)
    (Hcur : CurrentEventH s = None) (Hprev : PreviousEventH s = None)
    (Hreset : DeviceEventsToReset s = [])
    (Hbuild : (Msg ← appendEventToList (node event);
               makeMemResident ;; syncMemHostPtrs ;; mret Msg) s
              = Some (Msg, sB)) :
  ∃ d s',
    Log sB = Log s ++ d
    ∧ Forall (λ c, is_build (Some L) c = true) d
    ∧ chained None d
    ∧ execCommand event s = Some (tt, s')
    ∧ Log s'
      = Log s ++ d
        ++ close_entries L (last (signals d)) (signals d) (Some Q)
        ++ submit_entries Q L event Msg
    ∧ DeviceEventsToReset s' = []
    ∧ AvailableDeviceEvents s' = AvailableDeviceEvents sB ++ signals d
    ∧ (handles_wf s → NoDup (signals d) ∧ handles_wf s').
Proof.
  destruct (execCommand_Some event s sB Q L Msg HQ HL Hcur Hprev Hreset Hbuild)
    as (d & sC & HbB & Hd & Hall & Hsig & Hch & HC & Hfr & HLogC & HRC & HAC
        & Hexec).
  destruct HbB as [_ _ _ _ HLB _ _ _ _ HcurB HwfB].
  exists d. eexists. do 3 (split; [done|]). split; [exact Hexec|].
  cbn [Log set_Log DeviceEventsToReset AvailableDeviceEvents].
  split; [|split; [done|split; [done|]]].
  - rewrite HLogC, Hd, HcurB, <- Hsig, <- !(assoc_L (++)). done.
  - intros Hwf. specialize (HwfB Hwf).
    destruct (closeCmdList_wf None sB L) as (sC' & HC' & _ & _ & _ & _ & HwfC);
      [by rewrite HLB|done|].
    rewrite HC in HC'. injection HC' as <-. split.
    + destruct HwfB as (Hnd & _). rewrite <- Hsig in Hnd.
      apply NoDup_app in Hnd. by destruct Hnd as (_ & _ & ?).
    + clear -HwfC. destruct sC. exact HwfC.
Qed.

(** The theorem at work: a read of 64 bytes on the sample worker. *)
Lemma execCommand_sequence_witness :
  ∃ s' E,
    execCommand (sample_read 1) sample_state = Some (tt, s')
    ∧ Log s'
      = [zeCommandListAppend 1 (MemoryCopy 5000 1000 64) (Some E) None;
         zeCommandListAppend 1 Barrier None (Some E);
         zeCommandListAppend 1 (EventReset E) None None;
         zeCommandListClose 1;
         zeCommandQueueExecuteCommandLists 7 1;
         pocl_update_event_running 1;
         zeCommandQueueSynchronize 7;
         POCL_UPDATE_EVENT_COMPLETE_MSG 1 "Event Read Buffer           "]
    ∧ AvailableDeviceEvents s' = [E].
Proof.
  destruct ((Msg ← appendEventToList (node (sample_read 1));
             makeMemResident ;; syncMemHostPtrs ;; mret Msg) sample_state)
    as [[Msg sB]|] eqn:Hbuild; [|vm_compute in Hbuild; discriminate Hbuild].
  destruct (execCommand_sequence (sample_read 1) sample_state sB 7 1 Msg
              eq_refl eq_refl eq_refl eq_refl eq_refl Hbuild)
    as (d & s' & Hd & _ & _ & Hexec & HLog & _ & HA & _).
  vm_compute in Hbuild. injection Hbuild as <- <-.
  simpl in Hd. subst d. exists s', (0, 0). split; [done|]. split; [|done].
  rewrite HLog. reflexivity.
Defined.

(** ** A write into a buffer that uses a host pointer *)

(** An operation with a new handle, chained to the current one: what it
    changes and what it leaves. *)
Lemma chained_op_frame C s L :
  CmdListH s = Some L → 0 < EventPoolSize (Device s) →
  EventPools (Pools s) ≠ [] →
  ∃ E s1,
    allocNextFreeEvent s = Some (tt, s1)
    ∧ alloc_frame s s1
    ∧ PreviousEventH s1 = CurrentEventH s
    ∧ CurrentEventH s1 = Some E
    ∧ DeviceEventsToReset s1 = DeviceEventsToReset s ++ [E]
    ∧ EventPools (Pools s1) ≠ []
    ∧ (allocNextFreeEvent ;; append_chained C) s
      = Some (tt, set_Log
                    (Log s ++ [zeCommandListAppend L C (Some E)
                                 (CurrentEventH s)]) s1).
Proof.
  intros HL HEPS Hpools.
  destruct (allocNextFreeEvent_total s HEPS Hpools) as (s1 & Halloc & Hp1).
  destruct (allocNextFreeEvent_Some _ _ Halloc)
    as (E & Hfr & Hprev & Hcur & HR & _).
  exists E, s1. do 6 (split; [done|]).
  destruct Hfr as (HD & _ & HL1 & _ & _ & _ & HLog & _).
  rewrite (bind_eq _ _ _ _ _ Halloc). cbv beta.
  unfold append_chained, append. munfold. simpl. rewrite HL1, HL.
  by rewrite HLog, Hcur, Hprev.
Qed.

Lemma syncUseMemHostPtr_empty MemId Mem Offset Size s :
  has_flag (flags Mem) CL_MEM_USE_HOST_PTR = true →
  mem_host_ptr Mem ≠ mem_ptr MemId →
  UseMemHostPtrsToSync s = [] →
  syncUseMemHostPtr MemId Mem Offset Size s
  = Some (tt, set_UseMemHostPtrsToSync
                [(ptr_add (mem_host_ptr Mem) Offset,
                  ptr_add (mem_ptr MemId) Offset, Size)] s).
Proof.
  intros Hflag Hptr Hempty. unfold syncUseMemHostPtr. rewrite Hflag.
  cbv [negb]. cbv beta iota. apply Z.eqb_neq in Hptr. rewrite Hptr.
  cbv zeta. unfold modify. by rewrite Hempty.
Qed.

(** The host pointer is brought up to date after the write.  A
    write-buffer command into a buffer that uses a host pointer other
    than its device pointer, run by [execCommand] on an idle worker, puts
    two copies on the list: the write into the device memory, and then
    the copy of the written bytes from the device memory to the host
    pointer of the buffer, which waits for the event of the write; the
    closing barrier waits for the event of that second copy. *)
Theorem write_buffer_refreshes_host_ptr (event : cl_event) (s : State)
    (Q : ze_command_queue_handle_t) (L : ze_command_list_handle_t)
    (HostPtr : Z) (Buf : cl_mem) (Offset Size : Z)
    (Htype : type (node event) = CL_COMMAND_WRITE_BUFFER)
    (Hcmd : command (node event) = cmd_write HostPtr Buf Offset Size)
    (Hflag : has_flag (flags Buf) CL_MEM_USE_HOST_PTR = true)
    (Hptr : mem_host_ptr Buf ≠ mem_ptr (device_ptrs Buf))
    (Hsrc : ptr_add (mem_ptr (device_ptrs Buf)) Offset ≠ HostPtr)
    (Hhost : ptr_add (mem_host_ptr Buf) Offset ≠ nullptr)
    (Hdev : ptr_add (mem_ptr (device_ptrs Buf)) Offset ≠ nullptr)
    (HQ : QueueH s = Some Q) (HL : CmdListH s = Some L)
    (Hcur : CurrentEventH s = None) (Hprev : PreviousEventH s = None)
    (Hreset : DeviceEventsToReset s = [])
    (Hsync : UseMemHostPtrsToSync s = [])
    (Hres : MemPtrsToMakeResident s = [])
    (Hwf : handles_wf s) :
  ∃ E1 E2 s',
    E1 ≠ E2
    ∧ execCommand event s = Some (tt, s')
    ∧ Log s'
      = Log s
        ++ [zeCommandListAppend L
              (MemoryCopy (ptr_add (mem_ptr (device_ptrs Buf)) Offset)
                 HostPtr Size) (Some E1) None;
            zeCommandListAppend L
              (MemoryCopy (ptr_add (mem_host_ptr Buf) Offset)
                 (ptr_add (mem_ptr (device_ptrs Buf)) Offset) Size)
              (Some E2) (Some E1);
            zeCommandListAppend L Barrier None (Some E2);
            zeCommandListAppend L (EventReset E1) None None;
            zeCommandListAppend L (EventReset E2) None None;
            zeCommandListClose L]
        ++ submit_entries Q L event "Event Write Buffer          ".
Proof.
  pose proof Hwf as (_ & _ & (Hpools & _) & HEPS).
  set (Dev := ptr_add (mem_ptr (device_ptrs Buf)) Offset) in *.
  set (Host := ptr_add (mem_host_ptr Buf) Offset) in *.
  (* the write *)
  destruct (chained_op_frame (MemoryCopy Dev HostPtr Size) s L HL HEPS Hpools)
    as (E1 & s1 & Ha1 & Hfr1 & Hprev1 & Hcur1 & HR1 & Hp1 & Hop1).
  pose proof Hfr1 as (HD1 & HQ1 & HL1 & _ & _ & _ & HLog1 & HU1 & HM1).
  set (sW := set_Log (Log s ++ [zeCommandListAppend L
                                  (MemoryCopy Dev HostPtr Size) (Some E1)
                                  (CurrentEventH s)]) s1) in *.
  assert (appendEventToList (node event) s
          = Some ("Event Write Buffer          ",
                  set_UseMemHostPtrsToSync [(Host, Dev, Size)] sW)) as Happ.
  { unfold appendEventToList. rewrite (bind_eq get _ s s s) by done.
    cbv beta. rewrite Htype, Hcmd. cbv beta iota.
    unfold write. cbv zeta. fold Dev.
    apply Z.eqb_neq in Hsrc. rewrite Hsrc.
    rewrite (bind_eq _ _ _ _ _ Hop1). cbv beta.
    rewrite (bind_eq _ _ _ _ _
               (syncUseMemHostPtr_empty _ _ _ _ sW Hflag Hptr
                  (eq_trans HU1 Hsync))).
    done. }
  set (sA := set_UseMemHostPtrsToSync [(Host, Dev, Size)] sW) in *.
  (* no residency call *)
  assert (makeMemResident sA = Some (tt, sA)) as Hres1.
  { rewrite makeMemResident_Some;
      [|change (MemPtrsToMakeResident sA) with (MemPtrsToMakeResident s1);
        rewrite HM1, Hres; constructor].
    change (MemPtrsToMakeResident sA) with (MemPtrsToMakeResident s1).
    rewrite HM1, Hres. simpl. rewrite app_nil_r.
    f_equal. f_equal. subst sA sW. clear -HM1 Hres. destruct s1. simpl in *.
    unfold set_UseMemHostPtrsToSync, set_MemPtrsToMakeResident, set_Log.
    simpl. by rewrite HM1, Hres. }
  (* the copy to the host pointer *)
  assert (CmdListH sA = Some L) as HLA by (by rewrite <- HL, <- HL1).
  assert (0 < EventPoolSize (Device sA)) as HEPSA.
  { change (Device sA) with (Device s1). by rewrite HD1. }
  destruct (chained_op_frame (MemoryCopy Host Dev Size) sA L HLA HEPSA Hp1)
    as (E2 & s2 & Ha2 & Hfr2 & Hprev2 & Hcur2 & HR2 & Hp2 & Hop2).
  change (CurrentEventH sA) with (CurrentEventH s1) in Hop2.
  change (Log sA) with (Log s ++ [zeCommandListAppend L
                                    (MemoryCopy Dev HostPtr Size) (Some E1)
                                    (CurrentEventH s)]) in Hop2.
  rewrite Hcur1, Hcur in Hop2.
  set (sS := set_Log ((Log s ++ [zeCommandListAppend L
                                   (MemoryCopy Dev HostPtr Size) (Some E1)
                                   None])
                      ++ [zeCommandListAppend L (MemoryCopy Host Dev Size)
                            (Some E2) (Some E1)]) s2) in *.
  assert (syncMemHostPtrs sA
          = Some (tt, set_UseMemHostPtrsToSync [] sS)) as Hsync1.
  { unfold syncMemHostPtrs. rewrite (bind_eq get _ sA sA sA) by done.
    cbv beta. change (UseMemHostPtrsToSync sA) with [(Host, Dev, Size)].
    match goal with
    | |- (?m ≫= _) sA = _ => assert (m sA = Some (tt, sS)) as Hloop
    end.
    { cbn [for_each].
      match goal with
      | |- (?b ≫= _) sA = _ => assert (b sA = Some (tt, sS)) as Hb
      end.
      { cbv zeta. cbn [fst snd].
        apply Z.eqb_neq in Hhost, Hdev. rewrite Hhost, Hdev.
        cbv [negb assert].
        rewrite (bind_eq (mret tt) _ sA tt sA) by done. cbv beta.
        rewrite (bind_eq (mret tt) _ sA tt sA) by done. cbv beta.
        exact Hop2. }
      by rewrite (bind_eq _ _ _ _ _ Hb). }
    by rewrite (bind_eq _ _ _ _ _ Hloop). }
  set (sB := set_UseMemHostPtrsToSync [] sS) in *.
  assert ((Msg ← appendEventToList (node event);
           makeMemResident ;; syncMemHostPtrs ;; mret Msg) s
          = Some ("Event Write Buffer          ", sB)) as Hbuild.
  { rewrite (bind_eq _ _ _ _ _ Happ). cbv beta.
    rewrite (bind_eq _ _ _ _ _ Hres1). cbv beta.
    by rewrite (bind_eq _ _ _ _ _ Hsync1). }
  destruct (execCommand_Some event s sB Q L _ HQ HL Hcur Hprev Hreset Hbuild)
    as (d & sC & HbB & Hd & _ & _ & _ & _ & _ & HLogC & _ & _ & Hexec).
  change (Log sB) with ((Log s ++ [zeCommandListAppend L
                                     (MemoryCopy Dev HostPtr Size) (Some E1)
                                     None])
                        ++ [zeCommandListAppend L (MemoryCopy Host Dev Size)
                              (Some E2) (Some E1)]) in Hd, HLogC.
  rewrite <- (assoc_L (++)) in Hd. apply (inj (app (Log s))) in Hd. subst d.
  change (CurrentEventH sB) with (CurrentEventH s2) in HLogC.
  rewrite Hcur2 in HLogC.
  exists E1, E2. eexists. split; [|split; [exact Hexec|]].
  - destruct HbB as [_ _ _ _ _ _ _ _ _ _ HwfB].
    destruct (HwfB Hwf) as (Hnd & _).
    change (DeviceEventsToReset sB) with (DeviceEventsToReset s2) in Hnd.
    rewrite HR2 in Hnd.
    change (DeviceEventsToReset sA) with (DeviceEventsToReset s1) in Hnd.
    rewrite HR1, Hreset in Hnd. simpl in Hnd.
    apply NoDup_app in Hnd as (_ & _ & Hnd).
    apply NoDup_cons in Hnd as [Hnd _]. intros ->. apply Hnd. by left.
  - cbn [Log set_Log]. rewrite HLogC. unfold close_entries. simpl.
    rewrite <- !(assoc_L (++)). reflexivity.
Qed.

(** The theorem at work: 64 bytes written from the host address 5000
    into the sample buffer at 1000, whose host pointer is 6000. *)
Lemma write_buffer_refreshes_host_ptr_witness :
  ∃ E1 E2 s',
    execCommand
      (sample_event 1 CL_COMMAND_WRITE_BUFFER
         (cmd_write 5000 (sample_buffer 6000 1000 CL_MEM_USE_HOST_PTR) 0 64))
      sample_state = Some (tt, s')
    ∧ Log s'
      = [zeCommandListAppend 1 (MemoryCopy 1000 5000 64) (Some E1) None;
         zeCommandListAppend 1 (MemoryCopy 6000 1000 64) (Some E2) (Some E1);
         zeCommandListAppend 1 Barrier None (Some E2);
         zeCommandListAppend 1 (EventReset E1) None None;
         zeCommandListAppend 1 (EventReset E2) None None;
         zeCommandListClose 1;
         zeCommandQueueExecuteCommandLists 7 1;
         pocl_update_event_running 1;
         zeCommandQueueSynchronize 7;
         POCL_UPDATE_EVENT_COMPLETE_MSG 1 "Event Write Buffer          "].
Proof.
  destruct (write_buffer_refreshes_host_ptr
              (sample_event 1 CL_COMMAND_WRITE_BUFFER
                 (cmd_write 5000
                    (sample_buffer 6000 1000 CL_MEM_USE_HOST_PTR) 0 64))
              sample_state 7 1 5000
              (sample_buffer 6000 1000 CL_MEM_USE_HOST_PTR) 0 64
              eq_refl eq_refl eq_refl)
    as (E1 & E2 & s' & _ & Hexec & HLog);
    [simpl; lia|by vm_compute|by vm_compute|by vm_compute
    |reflexivity|reflexivity|reflexivity|reflexivity|reflexivity|reflexivity
    |reflexivity|exact sample_state_wf|].
  by exists E1, E2, s'.
Defined.

(** ** The worker empties its queues *)

Lemma runThread_batches Bs : ∀ fuel Av s,
  length Bs < fuel →
  runThread fuel {| WorkQueue := []; BatchWorkQueue := Bs;
                    ThreadExitRequested := false; Available := Av |} s
  = match for_each Bs batch_turn s with
    | Some (_, s') =>
        Blocked {| WorkQueue := []; BatchWorkQueue := [];
                   ThreadExitRequested := false; Available := Av |} s'
    | None => Aborted
    end.
Proof.
  induction Bs as [|B Bs IH]; intros fuel Av s Hfuel.
  - destruct fuel; [simpl in Hfuel; lia|]. done.
  - destruct fuel as [|fuel]; [simpl in Hfuel; lia|].
    cbn [runThread getWorkOrWait WorkQueue BatchWorkQueue ThreadExitRequested
         Available ShouldExit for_each].
    unfold mbind at 1. unfold M_bind. fold (batch_turn B).
    destruct (batch_turn B s) as [[[] s1]|]; [|done].
    apply IH. simpl in Hfuel. lia.
Qed.

Lemma runThread_commands Cs : ∀ Bs fuel Av s,
  length Cs + length Bs < fuel →
  runThread fuel {| WorkQueue := Cs; BatchWorkQueue := Bs;
                    ThreadExitRequested := false; Available := Av |} s
  = match run_turns Cs Bs s with
    | Some (_, s') =>
        Blocked {| WorkQueue := []; BatchWorkQueue := [];
                   ThreadExitRequested := false; Available := Av |} s'
    | None => Aborted
    end.
Proof.
  induction Cs as [|C Cs IH]; intros Bs fuel Av s Hfuel.
  - unfold run_turns. cbn [for_each].
    rewrite (bind_eq (mret tt) _ s tt s) by done.
    apply runThread_batches. simpl in Hfuel. lia.
  - destruct fuel as [|fuel]; [simpl in Hfuel; lia|].
    cbn [runThread getWorkOrWait WorkQueue BatchWorkQueue ThreadExitRequested
         Available ShouldExit].
    fold (command_turn C). unfold run_turns. cbn [for_each].
    unfold mbind at 1 2. unfold M_bind.
    destruct (command_turn C s) as [[[] s1]|]; [|done].
    rewrite IH by (simpl in Hfuel; lia). done.
Qed.

(** Without a request to exit, a worker that runs alone takes the single
    commands of its group in the order they were pushed, then the batches
    in the order they were pushed, runs one turn of its loop for each, and
    then waits for more work with both queues empty; it stops early only
    by an abort of one of the turns.  A bound on the turns of one more
    than the number of commands and batches is enough. *)
Theorem runThread_drains_queues (fuel : nat) (G : Level0QueueGroup)
    (s : State)
    (Hexit : ThreadExitRequested G = false)
    (Hfuel : length (WorkQueue G) + length (BatchWorkQueue G) < fuel) :
  runThread fuel G s
  = match run_turns (WorkQueue G) (BatchWorkQueue G) s with
    | Some (_, s') => Blocked (drained G) s'
    | None => Aborted
    end.
Proof.
  destruct G as [Cs Bs Ex Av]. simpl in *. subst Ex.
  by rewrite runThread_commands.
Qed.

(** The theorem at work: two markers and one batch with a read, on the
    sample worker. *)
Lemma runThread_drains_queues_witness :
  ∃ s',
    runThread 4
      (sample_group [sample_marker 1; sample_marker 2] [[sample_read 3]]
         false true) sample_state
    = Blocked (sample_group [] [] false true) s'
    ∧ executed (Log s') = [1; 2; 3].
Proof.
  rewrite (runThread_drains_queues 4) by (done || (simpl; lia)).
  eexists. split; [vm_compute; reflexivity|]. vm_compute. reflexivity.
Defined.

(** ** What leaves the handles alone *)



Lemma handles_wf_same s s' : same_handles s s' → handles_wf s → handles_wf s'.
Proof.
  intros (H1 & H2 & H3 & H4). unfold handles_wf. by rewrite H1, H2, H3, H4.
Qed.
















(** ** The worker between two turns *)

Lemma assert_inv b s a s' : assert b s = Some (a, s') → b = true ∧ s' = s.
Proof.
  destruct b; [|done]. unfold assert, mret, M_ret. intros H. by simplify_eq.
Qed.

Lemma closeCmdList_inv EvtList s r s' :
  closeCmdList EvtList s = Some (r, s') → ∃ L, CmdListH s = Some L.
Proof.
  unfold closeCmdList. intros H.
  apply bind_Some in H as (s0 & s0' & Hget & H). unfold get in Hget.
  simplify_eq.
  apply bind_Some in H as ([] & s1 & H1 & _). unfold append in H1.
  apply bind_Some in H1 as (s2 & s2' & Hget & H1). unfold get in Hget.
  simplify_eq. destruct (CmdListH s2') as [L|]; [by exists L|done].
Qed.

(** A list that was filled from an idle worker and is closed: the handles
    are in order again and none waits for its reset.  With no queue for
    the events given, the handles that were in use are available. *)
Lemma closed_list_wf EvtList s sB r sC :
  building s sB → handles_wf s →
  closeCmdList EvtList sB = Some (r, sC) →
  handles_wf sB ∧ handles_wf sC ∧ DeviceEventsToReset sC = []
  ∧ close_frame sB sC
  ∧ r = (λ Evts, Evts ++ DeviceEventsToReset sB) <$> EvtList
  ∧ AvailableDeviceEvents sC
    = AvailableDeviceEvents sB
      ++ match EvtList with
         | None => DeviceEventsToReset sB
         | Some _ => []
         end
  ∧ ∃ L, CmdListH sB = Some L
      ∧ Log sC = Log sB ++ close_entries L (CurrentEventH sB)
                             (DeviceEventsToReset sB) (QueueH sB).
Proof.
  intros Hb Hwf HC. destruct (closeCmdList_inv _ _ _ _ HC) as [L HL].
  pose proof (b_wf _ _ Hb Hwf) as HwfB.
  destruct (closeCmdList_wf EvtList sB L HL HwfB)
    as (sC' & HC' & Hfr & HLog & HR & HA & HwfC).
  rewrite HC in HC'. simplify_eq. do 6 (split; [done|]). by exists L.
Qed.





(** [createCommandBuffer] seen from its result. *)
Lemma createCommandBuffer_inv CmdBuf s r s1 :
  CurrentEventH s = None → DeviceEventsToReset s = [] → handles_wf s →
  createCommandBuffer CmdBuf s = Some (r, s1) →
  match r with
  | None =>
      ListCreateFails s = true ∧ s1 = set_CmdListH None s
  | Some Data =>
      ListCreateFails s = false
      ∧ ∃ sB sC,
          building (recording_start s) sB
          ∧ handles_wf sB
          ∧ closeCmdList (Some []) sB = Some (Some (CB_Events Data), sC)
          ∧ CB_Events Data = DeviceEventsToReset sB
          ∧ CB_CmdListH Data = Some (NextCmdListH s)
          ∧ Log sC
            = Log sB ++ close_entries (NextCmdListH s) (CurrentEventH sB)
                          (DeviceEventsToReset sB) (QueueH s)
          ∧ s1 = set_PreviousEventH None
                   (set_CurrentEventH None
                      (set_MemPtrsToMakeResident []
                         (set_CmdListH (CmdListH s) sC)))
          ∧ handles_wf sC ∧ DeviceEventsToReset sC = []
          ∧ AvailableDeviceEvents sC = AvailableDeviceEvents sB
          ∧ close_frame sB sC
  end.
Proof.
  intros Hcur Hreset Hwf H. unfold createCommandBuffer in H.
  apply bind_Some in H as (s0 & s0' & Hget & H). unfold get in Hget.
  simplify_eq.
  apply bind_Some in H as ([] & s1' & H1 & H). unfold modify in H1.
  simplify_eq.
  destruct (ListCreateFails s0') eqn:Hfail.
  { unfold mret, M_ret in H. by simplify_eq. }
  apply bind_Some in H as ([] & s2 & H2 & H). unfold modify in H2.
  simplify_eq.
  apply bind_Some in H as ([] & s3 & H3 & H). unfold record, modify in H3.
  simplify_eq.
  apply bind_Some in H as ([] & s4 & H4 & H). unfold modify in H4.
  simplify_eq.
  apply bind_Some in H as ([] & s5 & H5 & H). apply assert_inv in H5 as [_ ->].
  apply bind_Some in H as ([] & s5 & H5 & H). apply assert_inv in H5 as [_ ->].
  change (set_CmdListH (Some (NextCmdListH s0')) _)
    with (recording_start s0') in H.
  apply bind_Some in H as ([] & sA & HA & H).
  apply bind_Some in H as ([] & sB & HS & H).
  apply bind_Some in H as (Evts & sC & HC & H).
  apply bind_Some in H as (sC0 & sC' & Hget & H). unfold get in Hget.
  simplify_eq.
  apply bind_Some in H as ([] & s6 & H6 & H). unfold modify in H6.
  simplify_eq.
  apply bind_Some in H as ([] & s7 & H7 & H). unfold modify in H7.
  simplify_eq.
  apply bind_Some in H as ([] & s8 & H8 & H). unfold modify in H8.
  simplify_eq.
  apply bind_Some in H as ([] & s9 & H9 & H). unfold modify in H9.
  simplify_eq.
  apply bind_Some in H as (sD & sD' & Hget & H). unfold get in Hget.
  simplify_eq.
  apply bind_Some in H as ([] & s10 & H10 & H).
  apply assert_inv in H10 as [_ ->].
  apply bind_Some in H as ([] & s10 & H10 & H).
  apply assert_inv in H10 as [_ ->].
  apply bind_Some in H as ([] & s10 & H10 & H).
  apply assert_inv in H10 as [_ ->].
  apply bind_Some in H as ([] & s10 & H10 & H).
  apply assert_inv in H10 as [_ ->].
  unfold mret, M_ret in H. simplify_eq.
  assert (building (recording_start s0') (recording_start s0')) as Hb.
  { by apply building_start. }
  assert (handles_wf (recording_start s0')) as Hwf0.
  { apply (handles_wf_same s0'); [by repeat split|done]. }
  destruct (for_each_in_order _ _ _ _ Hb HA) as (_ & _ & _ & HbA).
  destruct (preserves_syncMemHostPtrs _ _ _ _ HbA HS) as [HbB _].
  destruct (closed_list_wf _ _ _ _ _ HbB Hwf0 HC)
    as (HwfB & HwfC & HRC & Hfr & -> & HAC & L & HL & HLogC).
  rewrite (b_CmdListH _ _ HbB) in HL. simpl in HL. simplify_eq.
  rewrite (b_QueueH _ _ HbB) in HLogC. simpl in HLogC, HAC.
  rewrite app_nil_r in HAC. pose proof Hfr as (_ & _ & HLC & _).
  rewrite (b_CmdListH _ _ HbB) in HLC. simpl in HLC.
  split; [done|]. exists sB, sC'. simpl. rewrite HLC.
  split_and!; done.
Qed.







(** ** Recording a command buffer and freeing it *)

(** The handles of a command buffer come back.  When [createCommandBuffer]
    on an idle worker with handles in order returns the data of a new
    list, the handles the recorded operations signal are the handles
    stored in the data, they are pairwise distinct, and none of them is
    available to the worker while the data lives; [freeCommandBuffer] on
    that data puts each of them at the back of the available queue,
    destroys the list that was created for the buffer, and leaves the
    handles of the worker in order: no handle is lost and none is held
    twice. *)
Theorem freeCommandBuffer_returns_handles (CmdBuf : cl_command_buffer_khr)
    (s s1 : State) (Data : Level0CmdBufferData)
    (Hcur : CurrentEventH s = None)
    (Hreset : DeviceEventsToReset s = [])
    (Hwf : handles_wf s)
    (Hcreate : createCommandBuffer CmdBuf s = Some (Some Data, s1)) :
  ∃ d s2,
    Log s1 = Log s ++ [zeCommandListCreate (NextCmdListH s)] ++ d
             ++ close_entries (NextCmdListH s) (last (signals d)) (signals d)
                  (QueueH s)
    ∧ CB_Events Data = signals d
    ∧ NoDup (CB_Events Data)
    ∧ (∀ E, E ∈ CB_Events Data → E ∉ AvailableDeviceEvents s1)
    ∧ handles_wf s1
    ∧ freeCommandBuffer Data s1 = Some (tt, s2)
    ∧ Log s2 = Log s1 ++ [zeCommandListDestroy (NextCmdListH s)]
    ∧ AvailableDeviceEvents s2 = AvailableDeviceEvents s1 ++ CB_Events Data
    ∧ DeviceEventsToReset s2 = []
    ∧ handles_wf s2.
Proof.
  destruct (createCommandBuffer_inv _ _ _ _ Hcur Hreset Hwf Hcreate)
    as (_ & sB & sC & HbB & HwfB & _ & HEv & HCL & HLogC & -> & HwfC & HRC
        & HAC & Hfr).
  pose proof HbB as [_ _ HDB _ _ _ _ _ Hlog HcurB _].
  destruct Hlog as (d & Hd & _ & Hsig & _). simpl in Hd.
  destruct Hfr as (HDC & _ & _ & _ & _ & _ & _ & HPC & _).
  destruct HwfB as (Hnd & Hiss & Hpools & HEPS).
  exists d. eexists. cbn [Log set_PreviousEventH set_CurrentEventH
    set_MemPtrsToMakeResident set_CmdListH AvailableDeviceEvents
    DeviceEventsToReset].
  split.
  { rewrite HLogC, Hd, HcurB, <- Hsig, <- !(assoc_L (++)). done. }
  split; [by rewrite HEv|].
  split; [rewrite HEv; by apply NoDup_app in Hnd as (_ & _ & ?)|].
  split.
  { intros E HE HA. rewrite HEv in HE. rewrite HAC in HA.
    apply NoDup_app in Hnd as (_ & Hdisj & _). by apply (Hdisj E). }
  split.
  { apply (handles_wf_same sC); [by repeat split|done]. }
  unfold freeCommandBuffer. rewrite HCL.
  split; [reflexivity|]. cbn [Log set_Log AvailableDeviceEvents
    DeviceEventsToReset set_AvailableDeviceEvents].
  split; [done|]. split; [done|]. split; [done|].
  unfold handles_wf.
  cbn [AvailableDeviceEvents DeviceEventsToReset Pools Device set_Log
       set_AvailableDeviceEvents set_PreviousEventH set_CurrentEventH
       set_MemPtrsToMakeResident set_CmdListH].
  rewrite HRC, app_nil_r, HAC, HEv, HPC, HDC. done.
Qed.

(** The theorem at work: the sample command buffer recorded on the sample
    worker and freed again. *)
Lemma freeCommandBuffer_returns_handles_witness :
  ∃ Data s1 s2,
    createCommandBuffer sample_cmdbuf sample_state = Some (Some Data, s1)
    ∧ AvailableDeviceEvents s1 = []
    ∧ freeCommandBuffer Data s1 = Some (tt, s2)
    ∧ AvailableDeviceEvents s2 = [(0, 0); (0, 1)]
    ∧ handles_wf s2.
Proof.
  destruct (createCommandBuffer sample_cmdbuf sample_state)
    as [[[Data|] s1]|] eqn:Hcreate;
    [|vm_compute in Hcreate; discriminate Hcreate
     |vm_compute in Hcreate; discriminate Hcreate].
  destruct (freeCommandBuffer_returns_handles sample_cmdbuf sample_state s1
              Data eq_refl eq_refl sample_state_wf Hcreate)
    as (d & s2 & _ & _ & _ & _ & _ & Hfree & _ & HA & _ & Hwf2).
  exists Data, s1, s2. split; [done|].
  vm_compute in Hcreate. injection Hcreate as <- <-.
  split; [done|]. split; [done|]. split; [|done]. by rewrite HA.
Defined.

(** A list that cannot be created costs the worker its own list.  When
    [zeCommandListCreate] fails, [createCommandBuffer] returns null
    without any call recorded, and it leaves [CmdListH] of the worker
    null: the handle it had saved is not put back.  And a worker whose
    [CmdListH] is null never records a command buffer again: whatever
    the buffer and the rest of the state, a later [createCommandBuffer]
    returns null or aborts. *)
Theorem createCommandBuffer_failure_loses_list (CmdBuf : cl_command_buffer_khr)
    (s : State) (Hfail : ListCreateFails s = true) :
  ∃ s1,
    createCommandBuffer CmdBuf s = Some (None, s1)
    ∧ Log s1 = Log s
    ∧ CmdListH s1 = None
    ∧ ∀ CmdBuf' s2 Data s3,
        CmdListH s2 = None →
        createCommandBuffer CmdBuf' s2 ≠ Some (Some Data, s3).
Proof.
  exists (set_CmdListH None s). split; [|split; [done|split; [done|]]].
  { unfold createCommandBuffer. rewrite (bind_eq get _ s s s) by done.
    cbv beta zeta. unfold mbind, M_bind, modify. by rewrite Hfail. }
  intros CmdBuf' s2 Data s3 HL H. unfold createCommandBuffer in H.
  apply bind_Some in H as (s0 & s0' & Hget & H). unfold get in Hget.
  simplify_eq.
  apply bind_Some in H as ([] & s1' & H1 & H). unfold modify in H1.
  simplify_eq.
  destruct (ListCreateFails s0'); [done|].
  apply bind_Some in H as ([] & ? & H2 & H). unfold modify in H2.
  simplify_eq.
  apply bind_Some in H as ([] & ? & H3 & H). unfold record, modify in H3.
  simplify_eq.
  apply bind_Some in H as ([] & ? & H4 & H). unfold modify in H4.
  simplify_eq.
  apply bind_Some in H as ([] & ? & H5 & H). apply assert_inv in H5 as [_ ->].
  apply bind_Some in H as ([] & ? & H5 & H). apply assert_inv in H5 as [_ ->].
  apply bind_Some in H as ([] & sA & HA & H).
  apply bind_Some in H as ([] & sB & HS & H).
  apply bind_Some in H as (Evts & sC & HC & H).
  apply bind_Some in H as (sC0 & sC' & Hget & H). unfold get in Hget.
  simplify_eq.
  apply bind_Some in H as ([] & ? & H6 & H). unfold modify in H6.
  simplify_eq.
  apply bind_Some in H as ([] & ? & H7 & H). unfold modify in H7.
  simplify_eq.
  apply bind_Some in H as ([] & ? & H8 & H). unfold modify in H8.
  simplify_eq.
  apply bind_Some in H as ([] & ? & H9 & H). unfold modify in H9.
  simplify_eq.
  apply bind_Some in H as (sD & sD' & Hget & H). unfold get in Hget.
  simplify_eq.
  apply bind_Some in H as ([] & ? & H10 & _).
  apply assert_inv in H10 as [H10 _]. simpl in H10. rewrite HL in H10.
  by apply bool_decide_eq_true in H10.
Qed.

(** The theorem at work on the sample worker, when the driver refuses to
    create lists. *)
Lemma createCommandBuffer_failure_loses_list_witness :
  ∃ s1,
    createCommandBuffer sample_cmdbuf
      sample_state_refusing
    = Some (None, s1)
    ∧ CmdListH s1 = None.
Proof.
  destruct (createCommandBuffer_failure_loses_list sample_cmdbuf
              sample_state_refusing eq_refl)
    as (s1 & H & _ & HL & _).
  by exists s1.
Defined.

(** ** Rectangles, byte by byte *)

Lemma for_each_ext {A} (l : list A) (f g : A → M unit) s :
  (∀ x s, f x s = g x s) → for_each l f s = for_each l g s.
Proof.
  intros Hfg. revert s. induction l as [|x l IH]; intros s; simpl; [done|].
  unfold mbind, M_bind. rewrite Hfg. destruct (g x s) as [[[] s1]|]; [|done].
  apply IH.
Qed.

Lemma for_each_bind {A B} (l : list A) (h : A → list B) (f : B → M unit) s :
  for_each (l ≫= h) f s = for_each l (λ x, for_each (h x) f) s.
Proof.
  revert s. induction l as [|x l IH]; intros s; [done|].
  rewrite bind_cons, for_each_app. cbn [for_each].
  unfold mbind at 1 3. unfold M_bind.
  destruct (for_each (h x) f s) as [[[] s1]|]; [|done]. apply IH.
Qed.

Lemma for_each_singleton {A} (x : A) (f : A → M unit) s :
  for_each [x] f s = f x s.
Proof.
  simpl. unfold mbind, M_bind. by destruct (f x s) as [[[] s1]|].
Qed.

(** A loop of chained copies. *)
Lemma chained_copies {X} (D S N : X → Z) (xs : list X) : ∀ s L,
  CmdListH s = Some L → 0 < EventPoolSize (Device s) →
  EventPools (Pools s) ≠ [] →
  ∃ s' d,
    for_each xs (λ x, allocNextFreeEvent ;;
                      append_chained (MemoryCopy (D x) (S x) (N x))) s
    = Some (tt, s')
    ∧ Log s' = Log s ++ d
    ∧ Forall (is_chained_copy L) d
    ∧ chained (CurrentEventH s) d
    ∧ memory_copies d = (λ x, (D x, S x, N x)) <$> xs
    ∧ CmdListH s' = Some L ∧ Device s' = Device s
    ∧ EventPools (Pools s') ≠ [].
Proof.
  induction xs as [|x xs IH]; intros s L HL HEPS Hpools.
  - exists s, []. rewrite app_nil_r. by repeat split.
  - destruct (chained_op_Some (MemoryCopy (D x) (S x) (N x)) s L HL HEPS Hpools)
      as (E & s1 & Hop & HLog1 & Hcur1 & _ & HL1 & HD1 & Hp1).
    rewrite <- HD1 in HEPS.
    destruct (IH s1 L HL1 HEPS Hp1)
      as (s' & d & Hloop & HLog & Hall & Hch & Hcopies & HL' & HD' & Hp').
    exists s', (zeCommandListAppend L (MemoryCopy (D x) (S x) (N x)) (Some E)
                  (CurrentEventH s) :: d).
    cbn [for_each]. rewrite (bind_eq _ _ _ _ _ Hop). cbv beta.
    split; [done|]. split.
    { rewrite HLog, HLog1, <- (assoc_L (++)). done. }
    split.
    { constructor; [|done]. by eexists _, _, _, _, _. }
    split; [simpl; by rewrite <- Hcur1|].
    split; [simpl; by rewrite Hcopies|].
    split; [done|]. split; [congruence|done].
Qed.

Lemma wrap64_add_l a b : wrap64 (wrap64 a + b) = wrap64 (a + b).
Proof. unfold wrap64. apply Zplus_mod_idemp_l. Qed.

(** The rows of a block of [b] rows of [a] bytes follow each other. *)
Lemma seqZ_rows {B} (h : Z → B) (a b : Z) :
  (0 ≤ a)%Z → (0 ≤ b)%Z →
  (seqZ 0 b ≫= λ j, (λ i, h (a * j + i)%Z) <$> seqZ 0 a)
  = h <$> seqZ 0 (a * b).
Proof.
  intros Ha Hb. rewrite <- (Z2Nat.id b) by done.
  induction (Z.to_nat b) as [|m IH]; [by rewrite Z.mul_0_r|].
  rewrite seqZ_S, bind_app, IH. cbn [mbind list_bind]. rewrite app_nil_r.
  rewrite Nat2Z.inj_succ, Z.mul_succ_r, seqZ_app by lia.
  rewrite fmap_app. f_equal.
  replace (0 + a * Z.of_nat m)%Z with (a * Z.of_nat m + 0)%Z by lia.
  rewrite <- fmap_add_seqZ, <- list_fmap_compose.
  apply list_fmap_ext. intros _ i _. simpl. f_equal; lia.
Qed.

Lemma list_bind_bind {A B C} (f : A → list B) (g : B → list C) (l : list A) :
  (l ≫= f) ≫= g = l ≫= λ x, f x ≫= g.
Proof.
  induction l as [|x l IH]; [done|].
  by rewrite !bind_cons, bind_app, IH.
Qed.

Lemma rect_rows_bind {B} (F : Z * Z → list B) (Region : size3) :
  rect_rows Region ≫= F
  = seqZ 0 (at2 Region) ≫= λ k, seqZ 0 (at1 Region) ≫= λ j, F (j, k).
Proof.
  unfold rect_rows. rewrite list_bind_bind.
  apply list_bind_ext; [|done]. intros k. rewrite list_bind_bind.
  apply list_bind_ext; [|done]. intros j.
  cbn [mbind list_bind]. by rewrite app_nil_r.
Qed.

(** The bytes of the rows of a region, when each row has the length of
    the region and each slice the size of its rows, are the bytes of one
    block. *)
Lemma rect_rows_block {B} (h : Z → B) (Region : size3) :
  (0 ≤ at0 Region)%Z → (0 ≤ at1 Region)%Z → (0 ≤ at2 Region)%Z →
  (rect_rows Region ≫= λ r,
     (λ i, h (at0 Region * r.1 + at0 Region * at1 Region * r.2 + i)%Z)
     <$> seqZ 0 (at0 Region))
  = h <$> seqZ 0 (at0 Region * at1 Region * at2 Region).
Proof.
  intros H0 H1 H2. rewrite rect_rows_bind. cbn [fst snd].
  rewrite <- (seqZ_rows h (at0 Region * at1 Region) (at2 Region)) by lia.
  apply list_bind_ext; [|done]. intros k.
  rewrite <- (seqZ_rows (λ n, h (at0 Region * at1 Region * k + n)%Z)
               (at0 Region) (at1 Region)) by lia.
  apply list_bind_ext; [|done]. intros j.
  apply list_fmap_ext. intros _ i _. f_equal. lia.
Qed.

Lemma rect_byte_row Ptr Origin RowPitch SlicePitch j k i :
  ptr_add (wrap64 (adjusted_ptr Ptr Origin RowPitch SlicePitch
                   + RowPitch * j + SlicePitch * k)) i
  = rect_byte Ptr Origin RowPitch SlicePitch j k i.
Proof.
  unfold ptr_add, adjusted_ptr, rect_byte.
  rewrite wrap64_add_l.
  rewrite <- (Z.add_assoc (wrap64 _)), <- (Z.add_assoc (wrap64 _)).
  rewrite wrap64_add_l. f_equal. lia.
Qed.

Lemma rect_byte_block Ptr Origin RowPitch SlicePitch j k i :
  ptr_add (adjusted_ptr Ptr Origin RowPitch SlicePitch)
    (RowPitch * j + SlicePitch * k + i)
  = rect_byte Ptr Origin RowPitch SlicePitch j k i.
Proof.
  unfold ptr_add, adjusted_ptr, rect_byte.
  rewrite wrap64_add_l. f_equal. lia.
Qed.

Lemma length_rect_rows Region :
  length (rect_rows Region)
  = Z.to_nat (at2 Region) * Z.to_nat (at1 Region).
Proof.
  unfold rect_rows.
  rewrite <- (length_seqZ 0 (at1 Region)), <- (length_seqZ 0 (at2 Region)).
  induction (seqZ 0 (at2 Region)) as [|k ks IH]; [done|].
  rewrite bind_cons, length_app, IH. cbn [length].
  assert (∀ js : list Z, length (js ≫= λ j, [(j, k)]) = length js) as ->;
    [|lia].
  intros js. induction js as [|j js IHj]; [done|].
  rewrite bind_cons. cbn [length app]. by f_equal.
Qed.

(** The two paths of the helpers, for a copy from the rectangle at
    [SrcPtr] to the rectangle at [DstPtr]. *)
Lemma rect_helper_paths (DstPtr SrcPtr : Z) (DstOrigin SrcOrigin Region : size3)
    (DstRowPitch DstSlicePitch SrcRowPitch SrcSlicePitch : Z)
    (linear : bool) (s : State) (L : ze_command_list_handle_t) :
  let AdjustedDst := adjusted_ptr DstPtr DstOrigin DstRowPitch DstSlicePitch in
  let AdjustedSrc := adjusted_ptr SrcPtr SrcOrigin SrcRowPitch SrcSlicePitch in
  (linear = true →
   DstRowPitch = at0 Region ∧ SrcRowPitch = at0 Region
   ∧ DstSlicePitch = (at0 Region * at1 Region)%Z
   ∧ SrcSlicePitch = (at0 Region * at1 Region)%Z) →
  (0 ≤ at0 Region)%Z → (0 ≤ at1 Region)%Z → (0 ≤ at2 Region)%Z →
  (at0 Region * at1 Region * at2 Region < 2 ^ 64)%Z →
  CmdListH s = Some L → 0 < EventPoolSize (Device s) →
  EventPools (Pools s) ≠ [] →
  ∃ s' d,
    (if linear then
       allocNextFreeEvent ;;
       append_chained
         (MemoryCopy AdjustedDst AdjustedSrc
            (wrap64 (at2 Region * at1 Region * at0 Region)))
     else
       for_each (seqZ 0 (at2 Region)) (λ k,
         for_each (seqZ 0 (at1 Region)) (λ j,
           allocNextFreeEvent ;;
           append_chained
             (MemoryCopy
                (wrap64 (AdjustedDst + DstRowPitch * j + DstSlicePitch * k))
                (wrap64 (AdjustedSrc + SrcRowPitch * j + SrcSlicePitch * k))
                (at0 Region))))) s
    = Some (tt, s')
    ∧ Log s' = Log s ++ d
    ∧ Forall (is_chained_copy L) d
    ∧ chained (CurrentEventH s) d
    ∧ length d = (if linear then 1
                  else Z.to_nat (at1 Region) * Z.to_nat (at2 Region))
    ∧ transferred d
      = rect_transfer DstPtr SrcPtr DstOrigin SrcOrigin Region
          DstRowPitch DstSlicePitch SrcRowPitch SrcSlicePitch.
Proof.
  intros AdjustedDst AdjustedSrc Hlin H0 H1 H2 Hsize HL HEPS Hpools.
  destruct linear.
  - destruct (Hlin eq_refl) as (-> & -> & -> & ->).
    destruct (chained_copies (λ _ : unit, AdjustedDst) (λ _, AdjustedSrc)
                (λ _, wrap64 (at2 Region * at1 Region * at0 Region)) [tt]
                s L HL HEPS Hpools)
      as (s' & d & Hloop & HLog & Hall & Hch & Hcopies & _).
    rewrite for_each_singleton in Hloop.
    exists s', d. do 4 (split; [done|]). split.
    { apply (f_equal length) in Hcopies. unfold memory_copies in Hcopies.
      simpl in Hcopies. clear -Hall Hcopies.
      destruct d as [|c [|c' d]]; simpl in *; [|done|].
      - done.
      - apply Forall_cons in Hall as [(? & ? & ? & ? & ? & ->) Hall].
        apply Forall_cons in Hall as [(? & ? & ? & ? & ? & ->) Hall].
        simpl in Hcopies. lia. }
    unfold transferred. rewrite Hcopies. cbn [fmap list_fmap mbind list_bind].
    rewrite app_nil_r. unfold copy_bytes. cbn [fst snd].
    assert (wrap64 (at2 Region * at1 Region * at0 Region)
            = (at0 Region * at1 Region * at2 Region)%Z) as ->.
    { unfold wrap64. rewrite Z.mod_small; lia. }
    unfold rect_transfer.
    rewrite <- (rect_rows_block
                  (λ n, (ptr_add AdjustedDst n, ptr_add AdjustedSrc n))
                  Region) by done.
    apply list_bind_ext; [|done]. intros [j k]. cbn [fst snd].
    apply list_fmap_ext. intros _ i _.
    rewrite <- !rect_byte_block. subst AdjustedDst AdjustedSrc.
    f_equal; f_equal; lia.
  - set (D := λ r : Z * Z,
               wrap64 (AdjustedDst + DstRowPitch * r.1 + DstSlicePitch * r.2)).
    set (S := λ r : Z * Z,
               wrap64 (AdjustedSrc + SrcRowPitch * r.1 + SrcSlicePitch * r.2)).
    destruct (chained_copies D S (λ _, at0 Region) (rect_rows Region)
                s L HL HEPS Hpools)
      as (s' & d & Hloop & HLog & Hall & Hch & Hcopies & _).
    exists s', d. split.
    { rewrite <- Hloop. unfold rect_rows. rewrite for_each_bind.
      apply for_each_ext. intros k s1. rewrite for_each_bind.
      apply for_each_ext. intros j s2. by rewrite for_each_singleton. }
    do 3 (split; [done|]). split.
    { clear -Hall Hcopies. apply (f_equal length) in Hcopies.
      rewrite length_fmap in Hcopies.
      assert (length (memory_copies d) = length d) as Hlen.
      { clear Hcopies. induction Hall as [|c d (? & ? & ? & ? & ? & ->) _ IH];
          [done|]. simpl. by rewrite <- IH. }
      rewrite <- Hlen, Hcopies.
      rewrite length_rect_rows. lia. }
    unfold transferred, rect_transfer. rewrite Hcopies, list_fmap_bind.
    apply list_bind_ext; [|done]. intros [j k]. unfold copy_bytes.
    cbn [fst snd compose]. apply list_fmap_ext. intros _ i _.
    subst D S AdjustedDst AdjustedSrc. cbn [fst snd].
    by rewrite !rect_byte_row.
Qed.

Lemma rect_is_linear_pitches Region BufferRowPitch BufferSlicePitch
    HostRowPitch HostSlicePitch :
  (0 ≤ at0 Region)%Z → (0 ≤ at1 Region)%Z →
  (at0 Region * at1 Region < 2 ^ 64)%Z →
  rect_is_linear Region BufferRowPitch BufferSlicePitch HostRowPitch
    HostSlicePitch = true →
  HostRowPitch = at0 Region ∧ BufferRowPitch = at0 Region
  ∧ HostSlicePitch = (at0 Region * at1 Region)%Z
  ∧ BufferSlicePitch = (at0 Region * at1 Region)%Z.
Proof.
  intros H0 H1 Hrow H. unfold rect_is_linear in H.
  apply andb_prop in H as [Ha Hb].
  apply andb_prop in Ha as [Ha1 Ha2]. apply andb_prop in Hb as [Hb1 Hb2].
  apply Z.eqb_eq in Ha1, Ha2, Hb1, Hb2.
  assert (wrap64 (at1 Region * at0 Region) = (at0 Region * at1 Region)%Z)
    as Hw.
  { unfold wrap64. rewrite Z.mod_small; lia. }
  rewrite Hw in Hb2. repeat split; congruence.
Qed.

(** What a read of a rectangle transfers.  For a region of
    [Region[0]] bytes by [Region[1]] rows by [Region[2]] slices,
    [readRectHelper] appends memory copies only, each with a new handle
    and chained to the one before: one copy when the rows and slices of
    both sides are contiguous, and else one copy for each row.  On both
    paths the bytes the copies move are, in order, byte [i] of row [j] of
    slice [k] of the region in the device rectangle to the same byte of
    the region in the host rectangle, each with its own origin and
    pitches: the one copy of the contiguous case moves what the copies of
    the rows would move. *)
Theorem readRectHelper_transfer (HostPtr DevicePtr : Z)
    (BufferOrigin HostOrigin Region : size3)
    (BufferRowPitch BufferSlicePitch HostRowPitch HostSlicePitch : Z)
    (s : State) (L : ze_command_list_handle_t)
    (H0 : (0 ≤ at0 Region)%Z) (H1 : (0 ≤ at1 Region)%Z)
    (H2 : (0 ≤ at2 Region)%Z)
    (Hrow : (at0 Region * at1 Region < 2 ^ 64)%Z)
    (Hsize : (at0 Region * at1 Region * at2 Region < 2 ^ 64)%Z)
    (HL : CmdListH s = Some L)
    (HEPS : 0 < EventPoolSize (Device s))
    (Hpools : EventPools (Pools s) ≠ []) :
  ∃ s' d,
    readRectHelper HostPtr DevicePtr BufferOrigin HostOrigin Region
      BufferRowPitch BufferSlicePitch HostRowPitch HostSlicePitch s
    = Some (tt, s')
    ∧ Log s' = Log s ++ d
    ∧ Forall (is_chained_copy L) d
    ∧ chained (CurrentEventH s) d
    ∧ length d
      = (if rect_is_linear Region BufferRowPitch BufferSlicePitch
              HostRowPitch HostSlicePitch
         then 1 else Z.to_nat (at1 Region) * Z.to_nat (at2 Region))
    ∧ transferred d
      = rect_transfer HostPtr DevicePtr HostOrigin BufferOrigin Region
          HostRowPitch HostSlicePitch BufferRowPitch BufferSlicePitch.
Proof.
  destruct (rect_helper_paths HostPtr DevicePtr HostOrigin BufferOrigin Region
              HostRowPitch HostSlicePitch BufferRowPitch BufferSlicePitch
              (rect_is_linear Region BufferRowPitch BufferSlicePitch
                 HostRowPitch HostSlicePitch) s L)
    as (s' & d & Hrun & Hrest); try done.
  { intros Hlin.
    by destruct (rect_is_linear_pitches _ _ _ _ _ H0 H1 Hrow Hlin)
      as (? & ? & ? & ?). }
  exists s', d. split; [|done]. exact Hrun.
Qed.

(** The theorem at work: two rows of two bytes, with rows four bytes
    apart on the device and two bytes apart on the host. *)
Lemma readRectHelper_transfer_witness :
  ∃ s' d,
    readRectHelper 5000 1000 (0, 0, 0)%Z (0, 0, 0)%Z (2, 2, 1)%Z 4 8 2 4
      sample_state = Some (tt, s')
    ∧ Log s' = d
    ∧ length d = 2
    ∧ transferred d
      = [(5000, 1000); (5001, 1001); (5002, 1004); (5003, 1005)]%Z.
Proof.
  destruct (readRectHelper_transfer 5000 1000 (0, 0, 0)%Z (0, 0, 0)%Z
              (2, 2, 1)%Z 4 8 2 4 sample_state 1)
    as (s' & d & Hrun & HLog & _ & _ & Hlen & Htr);
    [by vm_compute|by vm_compute|by vm_compute|by vm_compute|by vm_compute
    |reflexivity|simpl; lia|discriminate|].
  exists s', d. split; [exact Hrun|]. split; [exact HLog|].
  split; [exact Hlen|]. rewrite Htr. vm_compute. reflexivity.
Defined.

(** What a write of a rectangle transfers: the same as a read, in the
    other direction.  [writeRectHelper] appends memory copies only, each
    with a new handle and chained to the one before, one copy when the
    rows and slices of both sides are contiguous and else one for each
    row; on both paths the bytes the copies move are, in order, byte [i]
    of row [j] of slice [k] of the region in the host rectangle to the
    same byte of the region in the device rectangle. *)
Theorem writeRectHelper_transfer (HostPtr DevicePtr : Z)
    (BufferOrigin HostOrigin Region : size3)
    (BufferRowPitch BufferSlicePitch HostRowPitch HostSlicePitch : Z)
    (s : State) (L : ze_command_list_handle_t)
    (H0 : (0 ≤ at0 Region)%Z) (H1 : (0 ≤ at1 Region)%Z)
    (H2 : (0 ≤ at2 Region)%Z)
    (Hrow : (at0 Region * at1 Region < 2 ^ 64)%Z)
    (Hsize : (at0 Region * at1 Region * at2 Region < 2 ^ 64)%Z)
    (HL : CmdListH s = Some L)
    (HEPS : 0 < EventPoolSize (Device s))
    (Hpools : EventPools (Pools s) ≠ []) :
  ∃ s' d,
    writeRectHelper HostPtr DevicePtr BufferOrigin HostOrigin Region
      BufferRowPitch BufferSlicePitch HostRowPitch HostSlicePitch s
    = Some (tt, s')
    ∧ Log s' = Log s ++ d
    ∧ Forall (is_chained_copy L) d
    ∧ chained (CurrentEventH s) d
    ∧ length d
      = (if rect_is_linear Region BufferRowPitch BufferSlicePitch
              HostRowPitch HostSlicePitch
         then 1 else Z.to_nat (at1 Region) * Z.to_nat (at2 Region))
    ∧ transferred d
      = rect_transfer DevicePtr HostPtr BufferOrigin HostOrigin Region
          BufferRowPitch BufferSlicePitch HostRowPitch HostSlicePitch.
Proof.
  destruct (rect_helper_paths DevicePtr HostPtr BufferOrigin HostOrigin Region
              BufferRowPitch BufferSlicePitch HostRowPitch HostSlicePitch
              (rect_is_linear Region BufferRowPitch BufferSlicePitch
                 HostRowPitch HostSlicePitch) s L)
    as (s' & d & Hrun & Hrest); try done.
  { intros Hlin.
    by destruct (rect_is_linear_pitches _ _ _ _ _ H0 H1 Hrow Hlin)
      as (? & ? & ? & ?). }
  exists s', d. split; [|done]. exact Hrun.
Qed.

(** The theorem at work: a block of two rows of four bytes that is
    contiguous on both sides goes in one copy of eight bytes. *)
Lemma writeRectHelper_transfer_witness :
  ∃ s' E,
    writeRectHelper 5000 1000 (0, 0, 0)%Z (0, 0, 0)%Z (4, 2, 1)%Z 4 8 4 8
      sample_state = Some (tt, s')
    ∧ Log s' = [zeCommandListAppend 1 (MemoryCopy 1000 5000 8) (Some E) None]
    ∧ transferred (Log s')
      = [(1000, 5000); (1001, 5001); (1002, 5002); (1003, 5003);
         (1004, 5004); (1005, 5005); (1006, 5006); (1007, 5007)]%Z.
Proof.
  destruct (writeRectHelper_transfer 5000 1000 (0, 0, 0)%Z (0, 0, 0)%Z
              (4, 2, 1)%Z 4 8 4 8 sample_state 1)
    as (s' & d & Hrun & HLog & _ & _ & _ & Htr);
    [by vm_compute|by vm_compute|by vm_compute|by vm_compute|by vm_compute
    |reflexivity|simpl; lia|discriminate|].
  exists s', (0, 0). split; [exact Hrun|].
  simpl in HLog. rewrite HLog, Htr.
  split; [|vm_compute; reflexivity].
  clear -Hrun HLog. vm_compute in Hrun. injection Hrun as <-. simpl in HLog.
  by subst d.
Defined.

(** The chain at work: a write into a buffer with a host pointer of its
    own, then the copies to host pointers, on the sample worker. *)
Lemma signalling_operations_chained_witness :
  ∃ s1 d,
    rtc build_step sample_state s1
    ∧ Log s1 = d ∧ chained None d
    ∧ CurrentEventH s1 = last (signals d)
    ∧ length (signals d) = 2.
Proof.
  pose (Cmd := {| type := CL_COMMAND_WRITE_BUFFER;
                  command := cmd_write 5000 (sample_buffer 6000 1000 8) 0 64;
                  migr_infos := [] |}).
  destruct (appendEventToList Cmd sample_state) as [[Msg sa]|] eqn:Ha;
    [|vm_compute in Ha; discriminate Ha].
  destruct (syncMemHostPtrs sa) as [[[] sb]|] eqn:Hb;
    [|vm_compute in Ha; injection Ha as _ <-;
      vm_compute in Hb; discriminate Hb].
  assert (rtc build_step sample_state sb) as Hsteps.
  { eapply rtc_l; [exact (step_append _ _ _ _ Ha)|].
    eapply rtc_l; [exact (step_sync _ _ Hb)|]. apply rtc_refl. }
  destruct (signalling_operations_chained sample_state sb
              eq_refl eq_refl Hsteps)
    as (d & Hd & Hch & Hcur).
  exists sb, d. split; [done|]. split; [done|]. split; [done|].
  split; [done|].
  vm_compute in Ha. injection Ha as _ <-.
  vm_compute in Hb. injection Hb as <-.
  simpl in Hd. by subst d.
Defined.

(** ** The hash of the helper programs *)

Lemma byte_cases (P : Z → Prop) `{!∀ b, Decision (P b)} :
  bool_decide (Forall P (seqZ 0 256)) = true → ∀ b, is_byte b → P b.
Proof.
  intros Hall b Hb. apply bool_decide_eq_true in Hall.
  rewrite Forall_seqZ in Hall. apply Hall. unfold is_byte in Hb. lia.
Qed.

Lemma hash_chars_range b :
  is_byte b → Forall (λ c, (65 ≤ c ≤ 80)%Z) (hash_chars b).
Proof.
  revert b. apply (byte_cases (λ b, Forall (λ c, (65 ≤ c ≤ 80)%Z)
                                     (hash_chars b))).
  by vm_compute.
Qed.

Lemma hash_chars_byte b :
  is_byte b →
  (b = (Z.land b 15 + 65 - 65) + 16 * (Z.shiftr (Z.land b 240) 4 + 65 - 65))%Z
  ∧ (Z.land b 240 = 16 * (Z.shiftr (Z.land b 240) 4 + 65 - 65))%Z.
Proof.
  revert b.
  apply (byte_cases
           (λ b, (b = (Z.land b 15 + 65 - 65)
                      + 16 * (Z.shiftr (Z.land b 240) 4 + 65 - 65))%Z
                 ∧ (Z.land b 240
                    = 16 * (Z.shiftr (Z.land b 240) 4 + 65 - 65))%Z)).
  by vm_compute.
Qed.

Lemma hash_chars_inj b b' :
  is_byte b → is_byte b' → hash_chars b = hash_chars b' → b = b'.
Proof.
  intros Hb Hb' H. unfold hash_chars in H. injection H as H1 H2.
  destruct (hash_chars_byte b Hb) as [-> _].
  destruct (hash_chars_byte b' Hb') as [-> _]. by rewrite H1, H2.
Qed.

Lemma hash_string_inj d d' :
  Forall is_byte d → Forall is_byte d' →
  (d ≫= hash_chars) ++ [0%Z] = (d' ≫= hash_chars) ++ [0%Z] → d = d'.
Proof.
  intros Hd. revert d'. induction Hd as [|b d Hb Hd IH]; intros d' Hd' H.
  - destruct Hd' as [|b' d' Hb' Hd']; [done|].
    rewrite bind_cons in H. simpl in H. injection H as H _.
    pose proof (hash_chars_range b' Hb') as Hr. unfold hash_chars in Hr.
    apply Forall_cons in Hr as [Hr _]. lia.
  - destruct Hd' as [|b' d' Hb' Hd'].
    { rewrite bind_cons in H. simpl in H. injection H as H _.
      pose proof (hash_chars_range b Hb) as Hr. unfold hash_chars in Hr.
      apply Forall_cons in Hr as [Hr _]. lia. }
    rewrite !bind_cons in H. unfold hash_chars at 1 3 in H. simpl in H.
    injection H as H1 H2 H.
    f_equal; [|by apply IH].
    apply hash_chars_inj; [done..|]. unfold hash_chars. by rewrite H1, H2.
Qed.

Lemma hash_string_range d :
  Forall is_byte d → Forall (λ c, (65 ≤ c ≤ 80)%Z) (d ≫= hash_chars).
Proof.
  induction 1 as [|b d Hb Hd IH]; [done|].
  rewrite bind_cons. apply Forall_app. split; [by apply hash_chars_range|done].
Qed.

(** The form of the hash.  For a digest of [n] bytes, with [n] at least
    two, the string [calculateHash] writes has [2 * n] characters before
    its final zero; the third character is ['/'], and every other one is
    a letter from ['A'] to ['P']: the zero at the end is the only zero,
    and the ['/'] in third place the only one. *)
Theorem calculateHash_form (pocl_SHA1 : list Z → list Z) (Data : list Z)
    (Hbytes : Forall is_byte (pocl_SHA1 Data))
    (Hlen : 2 ≤ length (pocl_SHA1 Data)) :
  length (calculateHash pocl_SHA1 Data) = 2 * length (pocl_SHA1 Data) + 1
  ∧ last (calculateHash pocl_SHA1 Data) = Some 0%Z
  ∧ calculateHash pocl_SHA1 Data !! 2 = Some 47%Z
  ∧ ∀ i c,
      i < 2 * length (pocl_SHA1 Data) → i ≠ 2 →
      calculateHash pocl_SHA1 Data !! i = Some c → (65 ≤ c ≤ 80)%Z.
Proof.
  unfold calculateHash. cbv zeta.
  set (d := pocl_SHA1 Data) in *.
  assert (length (d ≫= hash_chars) = 2 * length d) as Hl.
  { clear. induction d as [|b d IH]; [done|].
    rewrite bind_cons, length_app, IH. simpl. lia. }
  split; [rewrite length_insert, length_app, Hl; simpl; lia|].
  split.
  { rewrite last_lookup, length_insert, length_app, Hl. simpl.
    rewrite list_lookup_insert_ne by lia.
    rewrite lookup_app_r by lia. rewrite Hl.
    match goal with |- _ !! ?i = _ => replace i with 0 by lia end.
    done. }
  split.
  { apply list_lookup_insert_eq. rewrite length_app, Hl. simpl. lia. }
  intros i c Hi Hne Hc. rewrite list_lookup_insert_ne in Hc by done.
  rewrite lookup_app_l in Hc by lia.
  pose proof (hash_string_range d Hbytes) as Hr.
  rewrite Forall_lookup in Hr. by apply (Hr i).
Qed.

(** The theorem at work, with the identity in the place of the digest
    function: the string for the three bytes 171, 205 and 239. *)
Lemma calculateHash_form_witness :
  length (calculateHash id [171; 205; 239]%Z) = 7
  ∧ last (calculateHash id [171; 205; 239]%Z) = Some 0%Z
  ∧ calculateHash id [171; 205; 239]%Z !! 2 = Some 47%Z.
Proof.
  destruct (calculateHash_form id [171; 205; 239]%Z) as (H0 & H1 & H2 & _).
  - repeat constructor; by vm_compute.
  - simpl. lia.
  - by repeat split.
Defined.

(** What the hash keeps of the digest.  Two digests of at least two
    bytes give the same string exactly when they are equal up to the low
    four bits of their second byte: the ['/'] written in third place
    replaces the character of these four bits, and every other character
    is kept. *)
Theorem calculateHash_keeps (pocl_SHA1 : list Z → list Z) (Data Data' : list Z)
    (Hbytes : Forall is_byte (pocl_SHA1 Data))
    (Hbytes' : Forall is_byte (pocl_SHA1 Data'))
    (Hlen : 2 ≤ length (pocl_SHA1 Data))
    (Hlen' : 2 ≤ length (pocl_SHA1 Data')) :
  calculateHash pocl_SHA1 Data = calculateHash pocl_SHA1 Data'
  ↔ alter (λ b, Z.land b 240) 1 (pocl_SHA1 Data)
    = alter (λ b, Z.land b 240) 1 (pocl_SHA1 Data').
Proof.
  unfold calculateHash. cbv zeta.
  destruct (pocl_SHA1 Data) as [|a0 [|a1 d]]; [simpl in Hlen; lia..|].
  destruct (pocl_SHA1 Data') as [|a0' [|a1' d']]; [simpl in Hlen'; lia..|].
  clear Hlen Hlen'.
  apply Forall_cons in Hbytes as [Ha0 Hbytes].
  apply Forall_cons in Hbytes as [Ha1 Hd].
  apply Forall_cons in Hbytes' as [Ha0' Hbytes'].
  apply Forall_cons in Hbytes' as [Ha1' Hd'].
  rewrite !bind_cons. unfold hash_chars at 1 2 4 5. simpl.
  destruct (hash_chars_byte a1 Ha1) as [_ H1].
  destruct (hash_chars_byte a1' Ha1') as [_ H1']. split.
  - intros H. injection H as Hlo Hhi Hhi1 H.
    apply hash_string_inj in H; [|done..]. subst d'.
    rewrite H1, H1', Hhi1. f_equal.
    apply hash_chars_inj; [done..|]. unfold hash_chars. by rewrite Hlo, Hhi.
  - intros H. injection H as -> H ->. by rewrite H.
Qed.

(** The theorem at work: two digests that differ in the low four bits of
    the second byte only. *)
Lemma calculateHash_keeps_witness :
  calculateHash id [171; 205; 239]%Z = calculateHash id [171; 195; 239]%Z.
Proof.
  apply (calculateHash_keeps id [171; 205; 239]%Z [171; 195; 239]%Z).
  - repeat constructor; by vm_compute.
  - repeat constructor; by vm_compute.
  - simpl. lia.
  - simpl. lia.
  - reflexivity.
Defined.

(** ** The pools a device starts with *)

Lemma Level0Device_EventPools_wf EPS H0 :
  0 < EPS → pools_wf (Level0Device_EventPools EPS H0).
Proof.
  intros HEPS. unfold Level0Device_EventPools, pools_wf. simpl.
  split; [done|]. split.
  { repeat constructor; by apply Level0EventPool_new_wf. }
  split.
  { apply (NoDup_seq H0 4). }
  repeat constructor; simpl; lia.
Qed.

(** A run of [getNewEvent]: the handles are new, and distinct. *)
Lemma getNewEvents_fresh EPS n : ∀ D,
  0 < EPS → pools_wf D →
  ∃ Es D',
    getNewEvents EPS n D = Some (Some <$> Es, D')
    ∧ length Es = n
    ∧ pools_wf D'
    ∧ Forall (λ E, ¬ issued D E ∧ issued D' E) Es
    ∧ NoDup Es
    ∧ (∀ E, issued D E → issued D' E).
Proof.
  induction n as [|n IH]; intros D HEPS Hwf.
  - exists [], D. split; [done|]. split; [done|]. split; [done|].
    split; [constructor|]. split; [constructor|done].
  - destruct (getNewEvent_fresh EPS D HEPS Hwf)
      as (E & D1 & HG & Hwf1 & Hni & Hi & Hmono).
    destruct (IH D1 HEPS Hwf1) as (Es & D' & HGs & Hlen & Hwf' & Hall & Hnd
                                   & Hmono').
    exists (E :: Es), D'. cbn [getNewEvents]. rewrite HG, HGs.
    split; [done|]. split; [simpl; by rewrite Hlen|]. split; [done|].
    split.
    { constructor; [by auto|].
      eapply Forall_impl; [exact Hall|]. intros E' [Hn' Hi']. by auto. }
    split; [|by auto].
    constructor; [|done]. intros Hin.
    rewrite Forall_forall in Hall. by destruct (Hall E Hin).
Qed.

(** A run of [getNewEvent] never looks behind the pool at the front it
    started with: the pools behind it stay as they are, at the back of
    the list, and every handle comes from that first pool or from a pool
    created during the run. *)
Lemma getNewEvents_back_untouched EPS n : ∀ D Front Rest Es D',
  0 < EPS → EventPools D = Front :: Rest → pool_wf Front →
  getNewEvents EPS n D = Some (Some <$> Es, D') →
  Rest `suffix_of` EventPools D'
  ∧ Forall (λ E : ze_event_handle_t,
              E.1 = EvtPoolH Front ∨ NextPoolH D ≤ E.1) Es.
Proof.
  induction n as [|n IH]; intros D Front Rest Es D' HEPS HP Hwf H.
  - simpl in H. destruct Es; [|done]. simplify_eq. rewrite HP.
    split; [by apply suffix_cons_r|done].
  - cbn [getNewEvents] in H.
    destruct (isEmpty Front) eqn:Hemp.
    + rewrite (getNewEvent_grow EPS D Front Rest HP HEPS Hemp) in H.
      destruct (getNewEvents EPS n _) as [[Es1 D1]|] eqn:HGs; [|done].
      destruct Es as [|E Es]; [done|]. simpl in H. simplify_eq.
      pose proof (λ F R Heq Hwf0, IH _ F R _ _ HEPS Heq Hwf0 HGs) as IH'.
      destruct (IH' _ (Front :: Rest) eq_refl) as [Hsuf Hall]; clear IH'.
      { exists EPS. simpl. split; [done|]. split; [done|lia]. }
      split.
      { etrans; [|exact Hsuf]. by apply suffix_cons_r. }
      constructor; [simpl; lia|].
      eapply Forall_impl; [exact Hall|]. simpl. intros E [->|?]; lia.
    + rewrite (getNewEvent_front EPS D Front Rest HP Hwf Hemp) in H.
      destruct (getNewEvents EPS n _) as [[Es1 D1]|] eqn:HGs; [|done].
      destruct Es as [|E Es]; [done|]. simpl in H. simplify_eq.
      pose proof (λ F R Heq Hwf0, IH _ F R _ _ HEPS Heq Hwf0 HGs) as IH'.
      destruct (IH' _ Rest eq_refl) as [Hsuf Hall]; clear IH'.
      { destruct Hwf as (m & Hm & HA & HL). exists m. simpl.
        split; [done|]. split; [done|].
        unfold isEmpty in Hemp. apply bool_decide_eq_false in Hemp.
        rewrite HA, length_fmap, length_seq in Hemp. lia. }
      split; [done|].
      constructor; [simpl; by left|]. exact Hall.
Qed.

(** Of the four pools the constructor of the device creates, only the
    first is ever used.  However many handles are asked of
    [getNewEvent], each call returns one, they are pairwise distinct,
    the three pools the constructor put behind the first are still at the
    back of the list as they were created, and every handle is from the
    first pool or from a pool created after the four: when the first pool
    is used up a new pool is put in front of it, and the three are never
    looked at. *)
Theorem getNewEvent_uses_first_pool_only (EPS n : nat)
    (H0 : ze_event_pool_handle_t) (HEPS : 0 < EPS) :
  ∃ Es D',
    getNewEvents EPS n (Level0Device_EventPools EPS H0)
    = Some (Some <$> Es, D')
    ∧ length Es = n
    ∧ NoDup Es
    ∧ [Level0EventPool_new (H0 + 1) EPS; Level0EventPool_new (H0 + 2) EPS;
       Level0EventPool_new (H0 + 3) EPS] `suffix_of` EventPools D'
    ∧ Forall (λ E : ze_event_handle_t, E.1 = H0 ∨ H0 + 4 ≤ E.1) Es.
Proof.
  destruct (getNewEvents_fresh EPS n (Level0Device_EventPools EPS H0) HEPS
              (Level0Device_EventPools_wf EPS H0 HEPS))
    as (Es & D' & HG & Hlen & _ & _ & Hnd & _).
  exists Es, D'. do 3 (split; [done|]).
  destruct (getNewEvents_back_untouched EPS n
              (Level0Device_EventPools EPS H0)
              (Level0EventPool_new H0 EPS)
              [Level0EventPool_new (S H0) EPS;
               Level0EventPool_new (S (S H0)) EPS;
               Level0EventPool_new (S (S (S H0))) EPS] Es D' HEPS eq_refl)
    as [Hsuf Hall]; [by apply Level0EventPool_new_wf|done|].
  replace (H0 + 1) with (S H0) by lia.
  replace (H0 + 2) with (S (S H0)) by lia.
  replace (H0 + 3) with (S (S (S H0))) by lia.
  split; [done|].
  eapply Forall_impl; [exact Hall|]. simpl. intros E [?|?]; [by left|right; lia].
Qed.

(** The theorem at work: five handles from a device with pools of two. *)
Lemma getNewEvent_uses_first_pool_only_witness :
  ∃ Es D',
    getNewEvents 2 5 (Level0Device_EventPools 2 0) = Some (Some <$> Es, D')
    ∧ length Es = 5 ∧ NoDup Es
    ∧ Forall (λ E : ze_event_handle_t, E.1 = 0 ∨ 4 ≤ E.1) Es.
Proof.
  destruct (getNewEvent_uses_first_pool_only 2 5 0)
    as (Es & D' & HG & Hlen & Hnd & _ & Hall); [lia|].
  by exists Es, D'.
Defined.

(** ** The queue groups a device sets up *)

Lemma first_of_kind_lookup N Ps : ∀ i j P,
  (0 ≤ i)%Z → first_of_kind N i Ps = Some (j, P) →
  (i ≤ j < i + Z.of_nat (length Ps))%Z
  ∧ Ps !! Z.to_nat (j - i) = Some P
  ∧ queue_kind P = Some N
  ∧ ∀ k P', k < Z.to_nat (j - i) → Ps !! k = Some P' →
            queue_kind P' ≠ Some N.
Proof.
  induction Ps as [|P0 Ps IH]; intros i j P Hi H; [done|].
  cbn [first_of_kind] in H. destruct (decide (queue_kind P0 = Some N)) as [HK|HK].
  - simplify_eq. rewrite Z.sub_diag. cbn [length].
    rewrite Nat2Z.inj_succ. split; [lia|].
    split; [done|]. split; [done|]. intros k P' Hlt. simpl in Hlt. lia.
  - destruct (IH (i + 1)%Z j P ltac:(lia) H) as (Hr & Hl & Hk & Hfirst).
    split; [cbn [length]; rewrite Nat2Z.inj_succ; lia|].
    replace (Z.to_nat (j - i)) with (S (Z.to_nat (j - (i + 1)))) by lia.
    split; [done|]. split; [done|].
    intros [|k] P' Hlt HP'; simpl in HP'; [by simplify_eq|].
    apply (Hfirst k); [lia|done].
Qed.

(** What the loop computes, for each of the three kinds: an ordinal that
    is set stays, and one that is not set becomes the index of the first
    entry of the kind, with its number of queues. *)
Lemma scan_queue_groups_spec Ps : ∀ i o,
  (0 ≤ i)%Z → (i + Z.of_nat (length Ps) ≤ UINT32_MAX)%Z →
  let o' := scan_queue_groups i Ps o in
  (UniversalQueueOrd o', NumUniversalQueues o')
  = (if (UniversalQueueOrd o =? UINT32_MAX)%Z
     then match first_of_kind Universal i Ps with
          | Some (j, P) => (j, numQueues P)
          | None => (UINT32_MAX, NumUniversalQueues o)
          end
     else (UniversalQueueOrd o, NumUniversalQueues o))
  ∧ (ComputeQueueOrd o', NumComputeQueues o')
    = (if (ComputeQueueOrd o =? UINT32_MAX)%Z
       then match first_of_kind Compute i Ps with
            | Some (j, P) => (j, numQueues P)
            | None => (UINT32_MAX, NumComputeQueues o)
            end
       else (ComputeQueueOrd o, NumComputeQueues o))
  ∧ (CopyQueueOrd o', NumCopyQueues o')
    = (if (CopyQueueOrd o =? UINT32_MAX)%Z
       then match first_of_kind Copy i Ps with
            | Some (j, P) => (j, numQueues P)
            | None => (UINT32_MAX, NumCopyQueues o)
            end
       else (CopyQueueOrd o, NumCopyQueues o)).
Proof.
  induction Ps as [|P Ps IH]; intros i o Hi Hlen; cbn [scan_queue_groups].
  - cbn [first_of_kind]. cbv zeta.
    destruct (UniversalQueueOrd o =? UINT32_MAX)%Z eqn:EU,
             (ComputeQueueOrd o =? UINT32_MAX)%Z eqn:EC,
             (CopyQueueOrd o =? UINT32_MAX)%Z eqn:EP;
      rewrite ?Z.eqb_eq in *; repeat split; congruence.
  - cbn [length] in Hlen. rewrite Nat2Z.inj_succ in Hlen.
    destruct (IH (i + 1)%Z (scan_queue_group i P o)) as (HU & HC & HP);
      [lia|lia|].
    rewrite HU, HC, HP. clear IH HU HC HP.
    assert ((i =? UINT32_MAX)%Z = false) as Hne by (apply Z.eqb_neq; lia).
    cbn [first_of_kind]. unfold scan_queue_group, queue_kind.
    destruct (has_flag (qg_flags P) ZE_COMMAND_QUEUE_GROUP_PROPERTY_FLAG_COMPUTE),
             (has_flag (qg_flags P) ZE_COMMAND_QUEUE_GROUP_PROPERTY_FLAG_COPY);
      cbn [andb negb];
      destruct (UniversalQueueOrd o =? UINT32_MAX)%Z eqn:EU,
               (ComputeQueueOrd o =? UINT32_MAX)%Z eqn:EC,
               (CopyQueueOrd o =? UINT32_MAX)%Z eqn:EP;
      cbn [UniversalQueueOrd ComputeQueueOrd CopyQueueOrd NumUniversalQueues
           NumComputeQueues NumCopyQueues];
      rewrite ?EU, ?EC, ?EP, ?Hne;
      repeat (destruct (decide _) as [?|?]; try done); done.
Qed.

Lemma first_of_kind_Exists N Ps : ∀ i,
  is_Some (first_of_kind N i Ps) ↔ Exists (λ P, queue_kind P = Some N) Ps.
Proof.
  induction Ps as [|P Ps IH]; intros i; cbn [first_of_kind].
  - split; [by intros [? ?]|by intros ?%Exists_nil].
  - destruct (decide (queue_kind P = Some N)) as [HK|HK].
    + split; [by left|by eexists].
    + rewrite IH. split; [by right|]. intros H.
      by apply Exists_cons in H as [?|?].
Qed.

Lemma pattern_size_at_first N Ps j P :
  first_of_kind N 0 Ps = Some (j, P) →
  pattern_size_at Ps j = maxMemoryFillPatternSize P.
Proof.
  intros H. apply first_of_kind_lookup in H as (_ & Hl & _); [|done].
  unfold pattern_size_at. rewrite Z.sub_0_r in Hl. by rewrite Hl.
Qed.

Lemma first_of_kind_ordinal N Ps j P :
  length Ps ≤ MaxPropertyEntries →
  first_of_kind N 0 Ps = Some (j, P) → (j =? UINT32_MAX)%Z = false.
Proof.
  intros Hlen H. apply first_of_kind_lookup in H as (Hr & _); [|done].
  apply Z.eqb_neq. unfold MaxPropertyEntries in Hlen.
  assert (UINT32_MAX = 4294967295%Z) as -> by done. lia.
Qed.

(** The loop, the tests on its result and the assertions of [init], in
    one equation. *)
Lemma setupQueueGroupProperties_eq Ps :
  length Ps ≤ MaxPropertyEntries →
  setupQueueGroupProperties true Ps
  = if bool_decide (is_Some (init_for Universal Ps))
       || (bool_decide (is_Some (init_for Compute Ps))
           && bool_decide (is_Some (init_for Copy Ps)))
    then
      let calls := omap (λ N, init_for N Ps) [Compute; Copy; Universal] in
      if forallb (λ c, negb (init_Count c =? 0)%Z) calls
      then Some (true, calls) else None
    else Some (false, []).
Proof.
  intros Hlen. unfold setupQueueGroupProperties. cbn [negb]. cbv zeta.
  destruct (scan_queue_groups_spec Ps 0
              {| UniversalQueueOrd := UINT32_MAX; CopyQueueOrd := UINT32_MAX;
                 ComputeQueueOrd := UINT32_MAX; NumUniversalQueues := 0;
                 NumCopyQueues := 0; NumComputeQueues := 0 |})
    as (HU & HC & HP); [done| |].
  { unfold MaxPropertyEntries in Hlen.
    assert (UINT32_MAX = 4294967295%Z) as -> by done. lia. }
  cbn [UniversalQueueOrd ComputeQueueOrd CopyQueueOrd NumUniversalQueues
       NumComputeQueues NumCopyQueues] in HU, HC, HP.
  rewrite Z.eqb_refl in HU, HC, HP.
  set (o := scan_queue_groups 0 Ps _) in *.
  assert (∀ n, (Z.max 1 n =? 0)%Z = false) as Hmax
    by (intros n; apply Z.eqb_neq; lia).
  unfold init_for, omap, Level0QueueGroup_init.
  destruct (first_of_kind Universal 0 Ps) as [[ju PU]|] eqn:EU;
    destruct (first_of_kind Compute 0 Ps) as [[jc PC]|] eqn:EC;
    destruct (first_of_kind Copy 0 Ps) as [[jp PP]|] eqn:EP;
    apply pair_equal_spec in HU as [HU1 HU2];
    apply pair_equal_spec in HC as [HC1 HC2];
    apply pair_equal_spec in HP as [HP1 HP2];
    rewrite ?HU1, ?HU2, ?HC1, ?HC2, ?HP1, ?HP2;
    rewrite ?(first_of_kind_ordinal _ _ _ _ Hlen EU),
            ?(first_of_kind_ordinal _ _ _ _ Hlen EC),
            ?(first_of_kind_ordinal _ _ _ _ Hlen EP), ?Z.eqb_refl;
    rewrite ?(pattern_size_at_first _ _ _ _ EU),
            ?(pattern_size_at_first _ _ _ _ EC),
            ?(pattern_size_at_first _ _ _ _ EP);
    cbn [fmap option_fmap option_map];
    rewrite ?(bool_decide_eq_true_2 (is_Some (Some _))) by (by eexists);
    rewrite ?(bool_decide_eq_false_2 (is_Some None)) by (by intros [? ?]);
    cbn [orb andb negb list_omap]; rewrite ?EU, ?EC, ?EP;
    cbn -[Z.eqb Z.max]; rewrite ?Hmax;
    try (destruct (numQueues PC =? 0)%Z);
    try (destruct (numQueues PP =? 0)%Z);
    reflexivity.
Qed.

Lemma init_for_is_Some N Ps :
  is_Some (init_for N Ps) ↔ Exists (λ P, queue_kind P = Some N) Ps.
Proof. unfold init_for. rewrite fmap_is_Some. apply first_of_kind_Exists. Qed.

Lemma init_for_group N Ps c : init_for N Ps = Some c → init_group c = N.
Proof.
  unfold init_for. destruct (first_of_kind N 0 Ps); intros; by simplify_eq/=.
Qed.

(** The assertion of [init] fails for one of the calls exactly when the
    first entry that only computes, or the first that only copies, has no
    queue; the count for the universal group is never zero. *)
Lemma init_counts_zero Ps :
  forallb (λ c, negb (init_Count c =? 0)%Z)
    (omap (λ N, init_for N Ps) [Compute; Copy; Universal]) = false
  ↔ (∃ j P, first_of_kind Compute 0 Ps = Some (j, P) ∧ numQueues P = 0%Z)
    ∨ (∃ j P, first_of_kind Copy 0 Ps = Some (j, P) ∧ numQueues P = 0%Z).
Proof.
  assert (∀ n, (Z.max 1 n =? 0)%Z = false) as Hmax
    by (intros n; apply Z.eqb_neq; lia).
  unfold init_for, omap. cbn [list_omap].
  destruct (first_of_kind Universal 0 Ps) as [[ju PU]|];
    destruct (first_of_kind Compute 0 Ps) as [[jc PC]|];
    destruct (first_of_kind Copy 0 Ps) as [[jp PP]|];
    cbn [fmap option_fmap option_map forallb init_Count fst snd];
    rewrite ?Hmax; cbn [negb andb];
    try (destruct (numQueues PC =? 0)%Z eqn:EC;
         [apply Z.eqb_eq in EC|apply Z.eqb_neq in EC]);
    try (destruct (numQueues PP =? 0)%Z eqn:EP;
         [apply Z.eqb_eq in EP|apply Z.eqb_neq in EP]);
    cbn [negb andb];
    (split;
     [intros H; try discriminate H;
      first [by left; eexists _, _|by right; eexists _, _]
     |intros [(j & P & H1 & H2)|(j & P & H1 & H2)];
      try discriminate H1; simplify_eq; done]).
Qed.

(** The groups for which [init] is called when the setup succeeds. *)
Lemma setupQueueGroupProperties_initialised Ps calls N :
  length Ps ≤ MaxPropertyEntries →
  setupQueueGroupProperties true Ps = Some (true, calls) →
  (Exists (λ P, queue_kind P = Some Universal) Ps
   ∨ (Exists (λ P, queue_kind P = Some Compute) Ps
      ∧ Exists (λ P, queue_kind P = Some Copy) Ps))
  ∧ (initialised calls N = true
     ↔ Exists (λ P, queue_kind P = Some N) Ps).
Proof.
  intros Hlen. rewrite (setupQueueGroupProperties_eq _ Hlen). cbv zeta.
  destruct (forallb _ _);
  destruct (bool_decide (is_Some (init_for Universal Ps))) eqn:EU,
           (bool_decide (is_Some (init_for Compute Ps))) eqn:EC,
           (bool_decide (is_Some (init_for Copy Ps))) eqn:EP;
    cbn [orb andb]; intros H; simplify_eq;
    rewrite ?bool_decide_eq_true, ?bool_decide_eq_false, ?init_for_is_Some
      in *;
    (split; [tauto|]);
    unfold initialised; rewrite bool_decide_eq_true, list_elem_of_fmap;
    rewrite <- init_for_is_Some.
  all: split;
    [intros (c & -> & Hc); apply list_elem_of_omap in Hc as (N' & _ & Hc);
     rewrite (init_for_group _ _ _ Hc); by eexists
    |intros [c Hc]; exists c; split; [by rewrite (init_for_group _ _ _ Hc)|];
     apply list_elem_of_omap; exists N; split; [|done];
     destruct N; by repeat constructor].
Qed.

(** Which groups are set up, and from which entries.  Take the entries
    [zeDeviceGetCommandQueueGroupProperties] returns, at most
    [MaxPropertyEntries] of them, and call them usable when there is an
    entry that computes and copies (a universal one), or both an entry
    that only computes and one that only copies.
    [setupQueueGroupProperties] returns false, without a call of [init],
    exactly when the entries are not usable.  It dies on the assertion of
    [init] exactly when they are usable and the first entry that only
    computes, or the first that only copies, has no queue.  In all other
    cases it returns true after one call of [init] for each kind that has
    an entry, in the order compute, copy, universal.  The call for a kind
    is for the first entry of that kind: its ordinal is the index of that
    entry, its fill pattern size is that of the entry, and its count is
    the number of queues of the entry, raised to one for the universal
    group only. *)
Theorem setupQueueGroupProperties_first_entries
    (QGroupProps : list ze_command_queue_group_properties_t)
    (Hlen : length QGroupProps ≤ MaxPropertyEntries) :
  let has N := Exists (λ P, queue_kind P = Some N) QGroupProps in
  let no_queue N :=
    ∃ j P, first_of_kind N 0 QGroupProps = Some (j, P)
           ∧ numQueues P = 0%Z in
  let usable := has Universal ∨ (has Compute ∧ has Copy) in
  let r := setupQueueGroupProperties true QGroupProps in
  (r = Some (false, []) ↔ ¬ usable)
  ∧ (r = None ↔ usable ∧ (no_queue Compute ∨ no_queue Copy))
  ∧ (usable → ¬ (no_queue Compute ∨ no_queue Copy) →
     ∃ calls,
       r = Some (true, calls)
       ∧ init_group <$> calls
         = filter (λ N, has N) [Compute; Copy; Universal]
       ∧ Forall (λ c,
           ∃ P, QGroupProps !! Z.to_nat (init_Ordinal c) = Some P
             ∧ (0 ≤ init_Ordinal c)%Z
             ∧ queue_kind P = Some (init_group c)
             ∧ (∀ k P', k < Z.to_nat (init_Ordinal c) →
                  QGroupProps !! k = Some P' →
                  queue_kind P' ≠ Some (init_group c))
             ∧ init_Count c = match init_group c with
                              | Universal => Z.max 1 (numQueues P)
                              | _ => numQueues P
                              end
             ∧ init_MaxPatternSize c = maxMemoryFillPatternSize P) calls).
Proof.
  intros has no_queue usable r. subst r.
  rewrite (setupQueueGroupProperties_eq _ Hlen). cbv zeta.
  pose proof (init_counts_zero QGroupProps) as Hzero.
  fold (no_queue Compute) (no_queue Copy) in Hzero.
  assert (∀ N, is_Some (init_for N QGroupProps) ↔ has N) as Hhas.
  { intros N. apply init_for_is_Some. }
  assert (∀ N c, init_for N QGroupProps = Some c →
            init_group c = N
            ∧ ∃ P, QGroupProps !! Z.to_nat (init_Ordinal c) = Some P
              ∧ (0 ≤ init_Ordinal c)%Z
              ∧ queue_kind P = Some N
              ∧ (∀ k P', k < Z.to_nat (init_Ordinal c) →
                   QGroupProps !! k = Some P' → queue_kind P' ≠ Some N)
              ∧ init_Count c = match N with
                               | Universal => Z.max 1 (numQueues P)
                               | _ => numQueues P
                               end
              ∧ init_MaxPatternSize c = maxMemoryFillPatternSize P) as Hcall.
  { intros N c Hc. unfold init_for in Hc.
    destruct (first_of_kind N 0 QGroupProps) as [[j P]|] eqn:EN; [|done].
    simpl in Hc. simplify_eq. simpl. split; [done|].
    apply first_of_kind_lookup in EN as (Hr & Hl & HK & Hfirst); [|done].
    rewrite Z.sub_0_r in Hl, Hfirst. exists P. split; [done|].
    split; [lia|]. done. }
  assert (bool_decide (is_Some (init_for Universal QGroupProps))
          || bool_decide (is_Some (init_for Compute QGroupProps))
             && bool_decide (is_Some (init_for Copy QGroupProps)) = true
          ↔ usable) as Huse.
  { unfold usable. rewrite <- !Hhas.
    rewrite orb_true_iff, andb_true_iff, !bool_decide_eq_true. done. }
  destruct (_ || _) eqn:EU.
  - apply proj1 in Huse. specialize (Huse eq_refl).
    destruct (forallb _ _) eqn:EF.
    + split; [split; [done|tauto]|]. split.
      { split; [done|]. intros [_ Hd]. apply Hzero in Hd. done. }
      intros _ _. eexists. split; [reflexivity|]. split.
      * assert (∀ N, init_group <$> from_option (λ c, [c]) []
                                      (init_for N QGroupProps)
                     = filter (λ N, has N) [N]) as Hone.
        { intros N. destruct (init_for N QGroupProps) as [c|] eqn:EN.
          - destruct (Hcall N c EN) as [HN _]. simpl. rewrite HN.
            rewrite filter_cons_True; [done|]. apply Hhas. by rewrite EN.
          - simpl. rewrite filter_cons_False; [done|].
            intros H. apply Hhas in H. rewrite EN in H. by destruct H. }
        change [Compute; Copy; Universal]
          with ([Compute] ++ [Copy] ++ [Universal]).
        rewrite !filter_app, <- !Hone. cbn [app omap list_omap].
        by destruct (init_for Compute QGroupProps),
                    (init_for Copy QGroupProps),
                    (init_for Universal QGroupProps).
      * apply Forall_forall. intros c Hc.
        apply list_elem_of_omap in Hc as (N & _ & Hc).
        destruct (Hcall N c Hc) as [<- H]. exact H.
    + split; [split; [done|tauto]|]. split.
      { split; [|done]. intros _. split; [done|]. by apply Hzero. }
      intros _ Hn. destruct Hn. by apply Hzero.
  - assert (¬ usable) as Hn.
    { intros H. apply Huse in H. done. }
    split; [done|]. split; [split; [done|tauto]|]. tauto.
Qed.

(** The theorem at work: a device with a universal entry of no queue, a
    copy entry and a second copy entry; the universal group is set up
    with one queue and the copy group with the two of the first copy
    entry. *)
Lemma setupQueueGroupProperties_first_entries_witness :
  ∃ calls,
    setupQueueGroupProperties true
      [{| qg_flags := 3; numQueues := 0; maxMemoryFillPatternSize := 16 |};
       {| qg_flags := 2; numQueues := 2; maxMemoryFillPatternSize := 4 |};
       {| qg_flags := 2; numQueues := 5; maxMemoryFillPatternSize := 8 |}]
    = Some (true, calls).
Proof.
  destruct (setupQueueGroupProperties_first_entries
              [{| qg_flags := 3; numQueues := 0;
                  maxMemoryFillPatternSize := 16 |};
               {| qg_flags := 2; numQueues := 2;
                  maxMemoryFillPatternSize := 4 |};
               {| qg_flags := 2; numQueues := 5;
                  maxMemoryFillPatternSize := 8 |}])
    as (_ & _ & Hok).
  - unfold MaxPropertyEntries. simpl. lia.
  - destruct Hok as (calls & Hcalls & _).
    + left. left. reflexivity.
    + intros [(j & P & H1 & H2)|(j & P & H1 & H2)];
        [discriminate H1|].
      injection H1 as <- <-. discriminate H2.
    + by exists calls.
Defined.

(** A command always finds a group that was set up.  When
    [setupQueueGroupProperties] has succeeded and each call of [init] it
    made has set [Available], so that the groups available are those for
    which it called [init], the group [pushCommand] selects for a
    command, whatever its kind, is available. *)
Theorem pushCommand_group_initialised
    (QGroupProps : list ze_command_queue_group_properties_t)
    (calls : list init_call) (D : Level0Device) (Command : cl_event)
    (Hlen : length QGroupProps ≤ MaxPropertyEntries)
    (Hsetup : setupQueueGroupProperties true QGroupProps
              = Some (true, calls))
    (Havail : ∀ N, available (group D N) = initialised calls N) :
  available (group D (pushCommand_group D Command)) = true.
Proof.
  assert (∀ N, initialised calls N = true
               ↔ Exists (λ P, queue_kind P = Some N) QGroupProps) as Hini.
  { intros N.
    apply (setupQueueGroupProperties_initialised _ _ N Hlen Hsetup). }
  destruct (setupQueueGroupProperties_initialised _ _ Universal Hlen Hsetup)
    as [Hok _].
  unfold pushCommand_group.
  destruct (is_compute_class _).
  - destruct (available (ComputeQueues D)) eqn:EC; [done|].
    change (ComputeQueues D) with (group D Compute) in EC.
    rewrite Havail in EC. cbn [group].
    change (UniversalQueues D) with (group D Universal).
    rewrite Havail. apply Hini. destruct Hok as [?|[HC _]]; [done|].
    apply Hini in HC. congruence.
  - destruct (available (CopyQueues D)) eqn:EC; [done|].
    change (CopyQueues D) with (group D Copy) in EC.
    rewrite Havail in EC. cbn [group].
    change (UniversalQueues D) with (group D Universal).
    rewrite Havail. apply Hini. destruct Hok as [?|[_ HC]]; [done|].
    apply Hini in HC. congruence.
Qed.

(** The theorem at work: a device with a compute entry and a copy entry
    and no universal one; a read goes to the copy group. *)
Lemma pushCommand_group_initialised_witness :
  available
    (group (sample_device true true false)
       (pushCommand_group (sample_device true true false) (sample_read 1)))
  = true.
Proof.
  apply (pushCommand_group_initialised
           [{| qg_flags := 1; numQueues := 1; maxMemoryFillPatternSize := 16 |};
            {| qg_flags := 2; numQueues := 1; maxMemoryFillPatternSize := 4 |}]
           [{| init_group := Compute; init_Ordinal := 0; init_Count := 1;
               init_MaxPatternSize := 16 |};
            {| init_group := Copy; init_Ordinal := 1; init_Count := 1;
               init_MaxPatternSize := 4 |}]).
  - unfold MaxPropertyEntries. simpl. lia.
  - reflexivity.
  - by intros [].
Defined.

(** ** Buffers shared between devices through a DMA buffer *)

Lemma held_imports_delete M D :
  held_imports M
  ≡ₚ match M !! D with
     | Some Ptr => if decide (Ptr = nullptr) then [] else [(D, Ptr)]
     | None => []
     end ++ held_imports (delete D M).
Proof.
  unfold held_imports. destruct (M !! D) as [Ptr|] eqn:E.
  - rewrite <- (insert_delete_id M D Ptr E) at 1.
    rewrite map_to_list_insert by apply lookup_delete_eq.
    rewrite filter_cons. simpl. by destruct (decide (Ptr = nullptr)),
      (decide (Ptr ≠ nullptr)).
  - by rewrite delete_id.
Qed.

Lemma held_imports_insert M D Ptr :
  held_imports (<[D := Ptr]> M)
  ≡ₚ (if decide (Ptr = nullptr) then [] else [(D, Ptr)])
     ++ held_imports (delete D M).
Proof.
  rewrite (held_imports_delete _ D), lookup_insert_eq.
  by rewrite delete_insert_eq.
Qed.

Lemma run_op_ledger o A A' log :
  dmabuf_wf A → run_op o A = Some (A', log) →
  dmabuf_wf A'
  ∧ (log ≫= obtained) ++ held A
    ≡ₚ (log ≫= freed) ++ (log ≫= dropped) ++ held A'.
Proof.
  intros Hwf H. destruct o as [D HF Size answer Res fd|D HF Size answer|D];
    cbn [run_op] in H.
  - unfold allocExport in H.
    destruct (decide (ExportPtr A ≠ nullptr)) as [Hp|Hp]; [by simplify_eq/=|].
    apply dec_stable in Hp.
    destruct (decide (D = nullptr)) as [|HD]; [done|].
    cbn [allocUSMHostMem] in H.
    destruct (FD A <? 0)%Z; [|done]. destruct Res; [|done].
    destruct (fd =? 0)%Z eqn:E0; [done|]. cbn [negb] in H.
    destruct (from_option id nullptr answer =? nullptr)%Z eqn:En;
      [|destruct (0 <=? fd)%Z eqn:Ef]; simplify_eq/=.
    + split; [done|]. apply Z.eqb_eq in En.
      destruct (decide (_ ∧ _)) as [[? ?]|_]; [done|].
      destruct answer as [p|]; [|done]. simpl in En. subst p.
      by destruct (decide _).
    + split; [intros _; exact HD|].
      apply Z.eqb_neq in En. apply Z.leb_le in Ef.
      destruct answer as [p|]; [|done]. simpl in *.
      destruct (decide (p = nullptr)); [done|].
      destruct (decide (_ ∧ _)) as [[? ?]|_]; [lia|].
      unfold held. simpl. rewrite Hp.
      destruct (decide (nullptr = nullptr)); [|done].
      by destruct (decide (p = nullptr)).
    + split; [done|]. apply Z.eqb_neq in En. apply Z.leb_gt in Ef.
      destruct answer as [p|]; [|done]. simpl in *.
      destruct (decide (p = nullptr)); [done|].
      destruct (decide (_ ∧ _)) as [_|Hn]; [done|].
      exfalso. apply Hn. done.
  - unfold allocImport in H. cbv zeta in H.
    destruct (decide (default nullptr (BufferImportMap A !! D) ≠ nullptr))
      as [Hc|Hc].
    + simplify_eq/=. split; [done|]. unfold held. simpl.
      destruct (BufferImportMap A !! D) as [p|] eqn:E; [|done].
      simpl. by rewrite insert_id.
    + apply dec_stable in Hc. cbn [set_BufferImportMap ExportDev ExportPtr FD
        BufferImportMap] in H.
      destruct (decide (ExportDev A = nullptr)); [done|].
      destruct (decide (ExportPtr A = nullptr)); [done|].
      destruct (0 <=? FD A)%Z; [|done].
      destruct (decide (D = nullptr)); [done|]. cbn [allocUSMHostMem negb] in H.
      rewrite Hc in H.
      assert (held_imports (BufferImportMap A)
              ≡ₚ held_imports (delete D (BufferImportMap A))) as Hold.
      { rewrite (held_imports_delete _ D).
        destruct (BufferImportMap A !! D) as [p|]; [|done].
        simpl in Hc. subst p. by destruct (decide _). }
      destruct (decide (from_option id nullptr answer ≠ nullptr)) as [Hp|Hp];
        simplify_eq/=.
      * split; [done|]. destruct answer as [p|]; [|done]. simpl in *.
        destruct (decide (p = nullptr)); [done|]. unfold held. simpl.
        destruct (decide (ExportPtr A = nullptr)); [done|].
        rewrite insert_insert_eq, held_imports_insert, Hold.
        destruct (decide (p = nullptr)); [done|]. simpl.
        by rewrite Permutation_swap.
      * split; [done|]. apply dec_stable in Hp.
        assert ((if answer is Some Ptr
                 then if decide (Ptr = nullptr) then [] else [(D, Ptr)]
                 else []) = []) as ->.
        { destruct answer as [p|]; [|done]. simpl in Hp. subst p.
          by destruct (decide _). }
        unfold held. simpl. rewrite held_imports_insert, Hold.
        by destruct (decide (nullptr = nullptr)).
  - unfold DMABufAllocation_free in H.
    destruct (decide (D = ExportDev A)) as [->|Hne].
    + destruct (decide (BufferImportMap A = ∅)) as [He|He];
        [|by simplify_eq/=].
      destruct (decide (ExportDev A = nullptr)); [done|]. simplify_eq/=.
      split; [intros Hn; by destruct Hn|].
      unfold held, freeUSMMem. simpl. rewrite He.
      destruct (decide (ExportPtr A = nullptr)); [done|].
      destruct (decide (nullptr = nullptr)); done.
    + destruct (BufferImportMap A !! D) as [p|] eqn:E; [|by simplify_eq/=].
      destruct (decide (D = nullptr)); [done|]. simplify_eq/=.
      split; [done|]. unfold held. simpl.
      rewrite (held_imports_delete (BufferImportMap A) D), E.
      unfold freeUSMMem. destruct (decide (p = nullptr)); simpl; [done|].
      destruct (decide (ExportPtr A = nullptr)); simpl; [done|].
      by rewrite Permutation_swap.
Qed.

Lemma run_ops_ledger ops : ∀ A A' log,
  dmabuf_wf A → run_ops ops A = Some (A', log) →
  dmabuf_wf A'
  ∧ (log ≫= obtained) ++ held A
    ≡ₚ (log ≫= freed) ++ (log ≫= dropped) ++ held A'.
Proof.
  induction ops as [|o ops IH]; intros A A' log Hwf H; cbn [run_ops] in H.
  - simplify_eq/=. done.
  - destruct (run_op o A) as [[A1 l1]|] eqn:E1; [|done]. simpl in H.
    destruct (run_ops ops A1) as [[A2 l2]|] eqn:E2; [|done]. simplify_eq/=.
    destruct (run_op_ledger _ _ _ _ Hwf E1) as [Hwf1 H1].
    destruct (IH _ _ _ Hwf1 E2) as [Hwf2 H2]. split; [done|].
    rewrite !bind_app.
    transitivity ((l2 ≫= obtained) ++ (l1 ≫= obtained) ++ held A);
      [solve_Permutation|]. rewrite H1.
    transitivity ((l1 ≫= freed) ++ (l1 ≫= dropped)
                  ++ (l2 ≫= obtained) ++ held A1); [solve_Permutation|].
    rewrite H2. solve_Permutation.
Qed.

Lemma destroy_frees_held A :
  dmabuf_wf A → DMABufAllocation_destroy A ≫= freed ≡ₚ held A.
Proof.
  intros Hwf. unfold DMABufAllocation_destroy, held. rewrite bind_app.
  rewrite Permutation_app_comm. f_equiv.
  - destruct (decide (ExportPtr A = nullptr)) as [Hp|Hp].
    + destruct (decide (_ ∧ _)) as [[? ?]|_]; done.
    + destruct (decide (_ ∧ _)) as [_|Hn]; [|by destruct Hn; auto].
      unfold freeUSMMem. by destruct (decide _).
  - unfold held_imports.
    induction (map_to_list (BufferImportMap A)) as [|[D p] l IH]; [done|].
    rewrite bind_cons, bind_app, filter_cons, IH. simpl. unfold freeUSMMem.
    by destruct (decide (p = nullptr)), (decide (p ≠ nullptr)).
Qed.

(** No memory is lost but exported memory without a file descriptor.
    Take an allocation that holds no memory and use it in any way
    ([allocExport], [allocImport] and [free], for any devices and with
    any answers of Level Zero, no assertion failing), then destroy it.
    Then the memory obtained from [zeMemAllocHost] is, counted with
    multiplicity and with the device it was obtained for, the memory
    given to [zeMemFree] together with the memory [allocExport] obtained
    while Level Zero gave it no file descriptor: that memory is never
    freed, all other memory is freed once, by its device. *)
Theorem DMABufAllocation_frees_what_it_obtains
    (ops : list dmabuf_op) (A A' : DMABufAllocation)
    (log : list ze_mem_call)
    (Hfresh : held A = [])
    (Hrun : run_ops ops A = Some (A', log)) :
  log ≫= obtained
  ≡ₚ ((log ++ DMABufAllocation_destroy A') ≫= freed) ++ (log ≫= dropped).
Proof.
  assert (dmabuf_wf A) as Hwf.
  { intros Hp. unfold held in Hfresh.
    destruct (decide (ExportPtr A = nullptr)); done. }
  destruct (run_ops_ledger _ _ _ _ Hwf Hrun) as [Hwf' H].
  rewrite Hfresh, app_nil_r in H. rewrite H, bind_app.
  rewrite (destroy_frees_held _ Hwf'), <- !(assoc_L (++)). f_equiv.
  apply Permutation_app_comm.
Qed.

(** The theorem at work: an export, a failed import, an import and its
    release. *)
Lemma DMABufAllocation_frees_what_it_obtains_witness :
  ∃ A' log,
    run_ops sample_ops (released ∅) = Some (A', log)
    ∧ log ≫= obtained
      ≡ₚ ((log ++ DMABufAllocation_destroy A') ≫= freed)
         ++ (log ≫= dropped).
Proof.
  assert (∃ A' log, run_ops sample_ops (released ∅) = Some (A', log))
    as (A' & log & Hrun) by (eexists _, _; vm_compute; reflexivity).
  exists A', log. split; [exact Hrun|].
  apply (DMABufAllocation_frees_what_it_obtains sample_ops (released ∅) A' log).
  - reflexivity.
  - exact Hrun.
Defined.

(** An import that fails keeps the exported memory from being freed.
    Take an allocation with exported memory and no entry in its import
    map: [free] for the export device frees the memory.  After
    [allocImport] for another device has failed (no memory from
    [zeMemAllocHost]) the allocation holds the same memory, but [free]
    for the export device returns false and calls nothing, because
    [allocImport] has left an entry with a null pointer in the import
    map.  [free] for the device of the failed import, which frees
    nothing, removes the entry and gives back the allocation as it
    was. *)
Theorem failed_import_blocks_export_free
    (A : DMABufAllocation) (D HostFlags Size : Z) (answer : option Z)
    (Hmap : BufferImportMap A = ∅)
    (Hdev : ExportDev A ≠ nullptr) (Hptr : ExportPtr A ≠ nullptr)
    (Hfd : (0 ≤ FD A)%Z)
    (HD : D ≠ nullptr) (HDE : D ≠ ExportDev A)
    (Hfail : from_option id nullptr answer = nullptr) :
  DMABufAllocation_free (ExportDev A) A
  = Some (true, released ∅, [zeMemFree (ExportDev A) (ExportPtr A)])
  ∧ ∃ A',
      allocImport D HostFlags Size answer A
      = Some (nullptr, A',
              [zeMemAllocHost D (import_fd (FD A)) HostFlags Size answer])
      ∧ held A' = held A
      ∧ DMABufAllocation_free (ExportDev A) A' = Some (false, A', [])
      ∧ DMABufAllocation_free D A' = Some (true, A, []).
Proof.
  split.
  { unfold DMABufAllocation_free, freeUSMMem, released. rewrite Hmap.
    destruct (decide (ExportDev A = ExportDev A)); [|done].
    destruct (decide (∅ = ∅)) as [_|Hn]; [|done].
    destruct (decide (ExportDev A = nullptr)); [done|].
    by destruct (decide (ExportPtr A = nullptr)). }
  exists (set_BufferImportMap (<[D := nullptr]> ∅) A).
  assert (allocImport D HostFlags Size answer A
          = Some (nullptr, set_BufferImportMap (<[D := nullptr]> ∅) A,
                  [zeMemAllocHost D (import_fd (FD A)) HostFlags Size answer]))
    as Himp.
  { unfold allocImport. rewrite Hmap, lookup_empty. cbv zeta.
    cbn [default set_BufferImportMap ExportDev ExportPtr FD BufferImportMap].
    destruct (decide (nullptr ≠ nullptr)) as [Hn|_]; [done|].
    destruct (decide (ExportDev A = nullptr)); [done|].
    destruct (decide (ExportPtr A = nullptr)); [done|].
    destruct (0 <=? FD A)%Z eqn:Ef; [|apply Z.leb_gt in Ef; lia].
    cbn [negb]. destruct (decide (D = nullptr)); [done|].
    cbn [allocUSMHostMem]. rewrite Hfail.
    by destruct (decide (nullptr ≠ nullptr)). }
  split; [exact Himp|]. split.
  { unfold held. cbn [set_BufferImportMap ExportDev ExportPtr BufferImportMap].
    rewrite Hmap. f_equal. unfold held_imports.
    rewrite insert_empty, map_to_list_singleton, map_to_list_empty.
    rewrite filter_cons. cbn [snd].
    by destruct (decide (nullptr ≠ nullptr)). }
  split.
  { unfold DMABufAllocation_free.
    cbn [set_BufferImportMap ExportDev ExportPtr BufferImportMap].
    destruct (decide (ExportDev A = ExportDev A)); [|done].
    destruct (decide (<[D:=nullptr]> ∅ = ∅)) as [He|_]; [|done].
    by apply insert_non_empty in He. }
  unfold DMABufAllocation_free.
  cbn [set_BufferImportMap ExportDev ExportPtr BufferImportMap].
  destruct (decide (D = ExportDev A)); [done|].
  rewrite lookup_insert_eq. destruct (decide (D = nullptr)); [done|].
  unfold freeUSMMem. destruct (decide (nullptr = nullptr)); [|done].
  do 3 f_equal. unfold set_BufferImportMap. cbn.
  rewrite delete_insert_eq, delete_empty, <- Hmap. by destruct A.
Qed.

(** The theorem at work: the import for device 20 fails. *)
Lemma failed_import_blocks_export_free_witness :
  ∃ A',
    allocImport 20 0 64 None sample_export
    = Some (nullptr, A', [zeMemAllocHost 20 (import_fd 5) 0 64 None])
    ∧ DMABufAllocation_free 10 A' = Some (false, A', []).
Proof.
  destruct (failed_import_blocks_export_free sample_export 20 0 64 None)
    as (_ & A' & Himp & _ & Hfree & _);
    [reflexivity|done|done|by vm_compute|done|done|reflexivity|].
  exists A'. split; [exact Himp|exact Hfree].
Defined.

(** ** Residency of the memory a kernel accesses *)

Lemma map_assign_elem k v m :
  is_map m →
  is_map (map_assign Z.ltb k v m)
  ∧ ∀ k' v', (k', v') ∈ map_assign Z.ltb k v m
             ↔ (k', v') = (k, v) ∨ (k' ≠ k ∧ (k', v') ∈ m).
Proof.
  induction m as [|[k0 v0] m IH]; intros Hm; simpl.
  - split; [by repeat constructor|]. intros k' v'.
    rewrite list_elem_of_singleton, elem_of_nil. tauto.
  - destruct Hm as [H0 Hm].
    destruct (IH Hm) as [IHs IHe]. clear IH.
    assert (∀ k' v', (k', v') ∈ m → (k0 < k')%Z) as Hlt.
    { intros k' v' Hin. by apply (proj1 (Forall_forall _ _) H0 (k', v')). }
    destruct (k <? k0)%Z eqn:E1; [|destruct (k0 <? k)%Z eqn:E2].
    + apply Z.ltb_lt in E1. split.
      * split; [|by split]. constructor; [done|].
        eapply Forall_impl; [exact H0|]. simpl. intros; lia.
      * intros k' v'. rewrite !elem_of_cons. split.
        -- intros [?|[?|Hin]]; [by left|right..]; simplify_eq.
           ++ split; [lia|by left].
           ++ split; [pose proof (Hlt _ _ Hin); lia|by right].
        -- intros [?|[_ ?]]; [by left|by right].
    + apply Z.ltb_lt in E2. split.
      * split; [|done]. apply Forall_forall. intros [k' v'] Hin.
        apply IHe in Hin as [?|[_ Hin]]; simplify_eq; simpl; [done|].
        by apply (Hlt _ v').
      * intros k' v'. rewrite !elem_of_cons, IHe. split.
        -- intros [?|[?|[? ?]]]; simplify_eq; [right|by left|right].
           ++ split; [lia|by left].
           ++ split; [done|by right].
        -- intros [?|[? [?|?]]]; [by right; left|by left|].
           right. right. by split.
    + apply Z.ltb_ge in E1. apply Z.ltb_ge in E2.
      assert (k = k0) as -> by lia. split.
      * by split.
      * intros k' v'. rewrite !elem_of_cons. split.
        -- intros [?|Hin]; [by left|right].
           split; [pose proof (Hlt _ _ Hin); lia|by right].
        -- intros [?|[? [?|?]]]; [by left|by simplify_eq|by right].
Qed.

Lemma assign_all_elem Is : ∀ m,
  is_map Is → is_map m →
  is_map (assign_all Is m)
  ∧ ∀ k v, (k, v) ∈ assign_all Is m
           ↔ (k, v) ∈ Is ∨ ((k ∉ Is.*1) ∧ (k, v) ∈ m).
Proof.
  induction Is as [|[k0 v0] Is IH]; intros m HIs Hm; simpl.
  - split; [done|]. intros k v. rewrite !elem_of_nil. tauto.
  - destruct HIs as [H0 HIs].
    destruct (map_assign_elem k0 v0 m Hm) as [Hs He].
    destruct (IH _ HIs Hs) as [IHs IHe]. clear IH. split; [done|].
    assert (∀ k' v', (k', v') ∈ Is → (k0 < k')%Z) as Hlt.
    { intros k' v' Hin. by apply (proj1 (Forall_forall _ _) H0 (k', v')). }
    assert (k0 ∉ Is.*1) as Hk0.
    { intros Hin. apply list_elem_of_fmap in Hin as ([k' v'] & ? & Hin).
      simpl in *. subst k'. pose proof (Hlt _ _ Hin). lia. }
    intros k v. rewrite IHe, He, !elem_of_cons. split.
    + intros [?|[Hk [?|[? ?]]]]; [by left; right|by left; left|].
      right. split; [|done]. by intros [?|?].
    + intros [[?|?]|[Hk Hin]]; [|by left|].
      * simplify_eq. right. split; [done|by left].
      * right. split; [by intros ?; apply Hk; right|]. right.
        split; [by intros ->; apply Hk; left|done].
Qed.

Lemma assign_all_Some Is : ∀ s,
  for_each Is (λ I,
    modify (λ s,
      set_MemPtrsToMakeResident
        (map_assign Z.ltb I.1 I.2 (MemPtrsToMakeResident s)) s)) s
  = Some (tt, set_MemPtrsToMakeResident
                (assign_all Is (MemPtrsToMakeResident s)) s).
Proof.
  induction Is as [|I Is IH]; intros s; simpl.
  - unfold mret, M_ret. by destruct s.
  - match goal with
    | |- (modify ?f ≫= _) s = _ =>
        assert (modify f s = Some (tt, f s)) as Hm by done
    end.
    rewrite (bind_eq _ _ _ _ _ Hm). cbv beta. rewrite IH. by destruct s.
Qed.

Lemma setupKernelArgs_resident arguments s b s' :
  setupKernelArgs arguments s = Some (b, s') →
  MemPtrsToMakeResident s' = MemPtrsToMakeResident s.
Proof.
  unfold setupKernelArgs. intros H.
  apply bind_Some in H as ([] & s1 & H & Hret).
  unfold mret, M_ret in Hret. simplify_eq.
  revert s H. induction arguments as [|a arguments IH]; intros s H;
    simpl in H.
  - unfold mret, M_ret in H. by simplify_eq.
  - apply bind_Some in H as ([] & s1 & H1 & H2).
    rewrite (IH _ H2). clear IH H2.
    destruct a; try (unfold mret, M_ret in H1; by simplify_eq).
    + apply assert_inv in H1 as [_ ->]. done.
    + unfold append in H1. apply bind_Some in H1 as (s0 & s2 & Hg & H1).
      unfold get in Hg. simplify_eq. destruct (CmdListH s2); [|done].
      unfold record, modify in H1. by simplify_eq.
    + apply assert_inv in H1 as [_ ->]. done.
Qed.

(** The memory a kernel accesses indirectly is made resident.  A launch
    with work groups to run assigns every pointer the kernel accesses,
    with its size, to the map of the worker: afterwards the map holds
    these entries, and of the entries it had those for other pointers;
    a size the map had for an accessed pointer is replaced.  If no
    pointer of the map is null, the next [makeMemResident] then calls
    [zeContextMakeMemoryResident] once for each entry, by ascending
    pointer, and leaves the map empty. *)
Theorem kernel_pointers_made_resident (Kernel : cl_kernel)
    (PoclCtx : pocl_context) (arguments : list pocl_argument)
    (MigInfos : list cl_mem) (s s1 : State)
    (Hgroups : wrap32 (wrap32 (at0 (num_groups PoclCtx))
                       * wrap32 (at1 (num_groups PoclCtx))
                       * wrap32 (at2 (num_groups PoclCtx))) ≠ 0%Z)
    (Haccessed : is_map (AccessedPointers Kernel))
    (Hmap : is_map (MemPtrsToMakeResident s))
    (Hrun : runNDRangeKernel Kernel PoclCtx arguments MigInfos s
            = Some (tt, s1)) :
  is_map (MemPtrsToMakeResident s1)
  ∧ (∀ Ptr Size,
       (Ptr, Size) ∈ MemPtrsToMakeResident s1
       ↔ (Ptr, Size) ∈ AccessedPointers Kernel
         ∨ ((Ptr ∉ (AccessedPointers Kernel).*1)
            ∧ (Ptr, Size) ∈ MemPtrsToMakeResident s))
  ∧ (Forall (λ I, I.1 ≠ nullptr) (MemPtrsToMakeResident s1) →
     makeMemResident s1
     = Some (tt, set_MemPtrsToMakeResident []
                   (set_Log
                      (Log s1 ++ residency_calls (MemPtrsToMakeResident s1))
                      s1))).
Proof.
  assert (MemPtrsToMakeResident s1
          = assign_all (AccessedPointers Kernel) (MemPtrsToMakeResident s))
    as Heq.
  { unfold runNDRangeKernel in Hrun. cbv zeta in Hrun.
    apply Z.eqb_neq in Hgroups. rewrite Hgroups in Hrun.
    apply bind_Some in Hrun as ([] & sa & Ha & Hrun).
    rewrite assign_all_Some in Ha. simplify_eq.
    apply bind_Some in Hrun as (failed & sb & Hb & Hrun).
    apply setupKernelArgs_resident in Hb as Hres.
    destruct failed; [unfold mret, M_ret in Hrun; by simplify_eq|].
    apply bind_Some in Hrun as ([] & sc & Hc & Hrun).
    apply allocNextFreeEvent_Some in Hc
      as (E & (_ & _ & _ & _ & _ & _ & _ & _ & Hc) & _).
    unfold append_chained, append in Hrun.
    apply bind_Some in Hrun as (s0 & sd & Hg & Hrun).
    unfold get in Hg. simplify_eq.
    apply bind_Some in Hrun as (s0 & se & Hg & Hrun).
    unfold get in Hg. simplify_eq. destruct (CmdListH se); [|done].
    unfold record, modify in Hrun. simplify_eq. simpl.
    by rewrite Hc, Hres. }
  rewrite Heq.
  destruct (assign_all_elem _ _ Haccessed Hmap) as [Hs He].
  split; [done|]. split; [done|]. rewrite <- Heq.
  apply makeMemResident_Some.
Qed.

(** The theorem at work: the sample kernel on the sample worker. *)
Lemma kernel_pointers_made_resident_witness :
  ∃ s1,
    runNDRangeKernel sample_kernel sample_launch [] [] sample_state
    = Some (tt, s1)
    ∧ MemPtrsToMakeResident s1 = [(4096, 64); (8192, 128)]%Z
    ∧ is_map (MemPtrsToMakeResident s1).
Proof.
  assert (∃ s1, runNDRangeKernel sample_kernel sample_launch [] []
                  sample_state = Some (tt, s1)
                ∧ MemPtrsToMakeResident s1 = [(4096, 64); (8192, 128)]%Z)
    as (s1 & Hrun & Hres) by (eexists; split; vm_compute; reflexivity).
  exists s1. split; [exact Hrun|]. split; [exact Hres|].
  apply (kernel_pointers_made_resident sample_kernel sample_launch [] []
           sample_state s1).
  - by vm_compute.
  - simpl. by repeat constructor.
  - exact I.
  - exact Hrun.
Defined.
(** ** Reads and writes of a buffer *)









